(** * SpaClient: protocol and command engine of the Jacuzzi ProLink plugin

    A shallow embedding of [spaClient.ts]: the framer
    ([readAndActOnSocketContents]), the two checksums, the XOR cipher
    ([decrypt]), the outbound path ([sendMessageToSpa]), the message
    interpreter ([readAndActOnMessage] and the decoders it calls), the
    command engine ([setPumpSpeed], [setTargetTemperature], [setLightState]),
    the reconnect guard ([reconnect]) and the watchdog
    ([checkWeHaveReceivedStateUpdate]); from [platform.ts], the queue of
    actions recorded while the spa is away.

    Conventions of the embedding.
    - A JavaScript number that the code only ever uses as an integer is a [Z].
    - A [Uint8Array] is a [list Z] of values in [0, 255]; a read out of range
      is [None] (JavaScript's [undefined]), a write out of range does
      nothing, and a stored value wraps modulo 256 ([u8]).
    - A plain JavaScript array indexed by a number ([pumpsCurrentSpeed] and the
      like) is a finite map from [Z]: a read of a missing index is [None], a
      write creates the entry.
    - [new Date()] is an explicit argument [now], in milliseconds; the
      calendar arithmetic of the constructor ([setDate(getDate() - 1)]) is
      an explicit argument too.
    - A call that throws ends as [Thrown]: the client keeps the state it had
      at the throw, the events before it stay, and nothing is returned.
    - Logging, socket writes, callbacks and timers are the [Event]s a call
      produces, in order.
    - An [await] on a one second timer is a point where the rest of the
      program runs: the command engine takes the state changes made there as
      an argument [env]. *)

From Stdlib Require Import ZArith Lia Bool Sorted.
From stdpp Require Import base option list gmap strings pretty.

Local Open Scope Z_scope.

(** ** JavaScript values *)

Module JS.

(** [ToInt32] of a value read from an array: [undefined] becomes 0. *)
Definition toInt (v : option Z) : Z := default 0 v.

(** The store conversion of a [Uint8Array]. *)
Definition u8 (v : Z) : Z := v mod 256.

(** [a == b] for a possibly undefined number and a number. *)
Definition eqn (a : option Z) (b : Z) : bool :=
  match a with Some x => x =? b | None => false end.

(** [a != b], [a > b], [a < b]: every comparison with [undefined] but [!=]
    is false. *)
Definition neq (a : option Z) (b : option Z) : bool :=
  match a, b with
  | Some x, Some y => negb (x =? y)
  | None, None => false
  | _, _ => true
  end.

Definition gt (a b : option Z) : bool :=
  match a, b with Some x, Some y => y <? x | _, _ => false end.

Definition lt (a b : option Z) : bool :=
  match a, b with Some x, Some y => x <? y | _, _ => false end.

(** Arithmetic on possibly undefined numbers; [None] is [NaN]. *)
Definition sub (a b : option Z) : option Z :=
  match a, b with Some x, Some y => Some (x - y) | _, _ => None end.

Definition add (a b : option Z) : option Z :=
  match a, b with Some x, Some y => Some (x + y) | _, _ => None end.

(** [a ?? b]. *)
Definition nullish {A} (a : option A) (b : option A) : option A :=
  match a with Some _ => a | None => b end.

(** [n % m], the remainder that takes the sign of [n]. *)
Definition rem (n m : Z) : Z := Z.rem n m.

(** [arr.slice(a, b)] for [0 <= a]. *)
Definition slice {A} (a b : nat) (l : list A) : list A :=
  take (b - a)%nat (drop a l).

(** [arr[i] = v] on a [Uint8Array]. *)
Definition store (i : nat) (v : Z) (l : list Z) : list Z := <[i := u8 v]> l.

End JS.

(** [function mod(n, m)] *)
Definition mod_ (n m : Z) : Z := JS.rem (JS.rem n m + m) m.

(** ** Checksums *)

(** One shift of the bit-serial CRC of [compute_checksum_encrypted]. *)
Definition crc_shift (crc inbit : Z) : Z :=
  let bit := Z.land crc 0x80 in
  let crc := Z.lor (Z.land (Z.shiftl crc 1) 0xff) inbit in
  if bit =? 0 then crc else Z.lxor crc 0x07.

(** The inner loop [for (let i = 0; i < 8; i++)] over one byte. *)
Definition crc_byte (crc : Z) (d : option Z) : Z :=
  Z.land
    (foldl (fun c i => crc_shift c (Z.land (Z.shiftr (JS.toInt d) (7 - i)) 1))
           crc [0; 1; 2; 3; 4; 5; 6; 7])
    0xff.

(** The outer loop [for (let cur = 0; cur < length; cur++)]. *)
Fixpoint crc_data (data : list Z) (cur : nat) (n : nat) (crc : Z) : Z :=
  match n with
  | O => crc
  | S n' => crc_data data (S cur) n' (crc_byte crc (data !! cur))
  end.

(** The eight closing shifts, with no input bit. *)
Definition crc_flush (crc : Z) : Z :=
  foldl (fun c (_ : Z) =>
           let bit := Z.land c 0x80 in
           let c := Z.land (Z.shiftl c 1) 0xff in
           if bit =? 0 then c else Z.lxor c 0x07)
        crc [0; 1; 2; 3; 4; 5; 6; 7].

Definition compute_checksum_encrypted (data : list Z) (length : Z) : Z :=
  Z.lxor (crc_flush (crc_data data 0 (Z.to_nat length) 0xb5)) 0x02.

(** [crc.crc8] of the npm package [crc], which the repository imports: the
    CRC-8 with polynomial 0x07, most significant bit first, no reflection,
    started from [previous]. *)
Definition crc8_byte (crc b : Z) : Z :=
  foldl (fun c (_ : Z) =>
           let c2 := Z.land (Z.shiftl c 1) 0xff in
           if Z.land c 0x80 =? 0 then c2 else Z.lxor c2 0x07)
        (Z.land (Z.lxor crc b) 0xff) [0; 1; 2; 3; 4; 5; 6; 7].

Definition crc8 (bytes : list Z) (previous : Z) : Z :=
  foldl crc8_byte previous bytes.

Definition compute_checksum (length : list Z) (bytes : list Z) : Z :=
  Z.lxor (crc8 (length ++ bytes) 0x02) 0x02.

(** ** Cipher *)

(** The loop [for (let i = 6; i < packet_length; i++)] of [decrypt], [n]
    iterations from index [i]. *)
Fixpoint decrypt_loop (n : nat) (i : nat) (key1 key2 : Z) (packet : list Z)
  : list Z :=
  match n with
  | O => packet
  | S n' =>
      let key2 := mod_ (key2 - 1) 64 in
      let packet :=
        JS.store i (Z.lxor (Z.lxor (JS.toInt (packet !! i)) key1) key2) packet in
      decrypt_loop n' (S i) key1 key2 packet
  end.

(** The first key of [decrypt], [None] when the type is not an encrypted
    one. *)
Definition first_key (packet : list Z) : option Z :=
  let packet_type := packet !! 4%nat in
  if JS.eqn packet_type 0xc4 then Some (Z.lxor (JS.toInt (packet !! 5%nat)) 0x19)
  else if JS.eqn packet_type 0xca then Some (Z.lxor (JS.toInt (packet !! 5%nat)) 0x59)
  else if JS.eqn packet_type 0xcc then Some (Z.lxor (JS.toInt (packet !! 5%nat)) 0xdf)
  else None.

Definition HEADER_LENGTH : Z := 5.

Definition decrypt (packet : list Z) : list Z :=
  if (length packet <? 7)%nat then packet
  else
    match first_key packet with
    | None => packet
    | Some key1 =>
        let packet_length := JS.toInt (packet !! 1%nat) in
        let key2 := packet_length - HEADER_LENGTH - 2 in
        let packet := decrypt_loop (Z.to_nat (packet_length - 6)) 6 key1 key2 packet in
        let packet := JS.store 5 0 packet in
        JS.store (length packet - 2)
                 (compute_checksum_encrypted (drop 1 packet) (packet_length - 1))
                 packet
    end.

(** The packet of the comment in [decrypt], "Typical encrypted C4 packet". *)
Definition typical_c4 : list Z :=
  [0x7e; 0x26; 0xff; 0xaf; 0xc4; 0x1f; 0x15; 0x1b; 0x1a; 0x15; 0x16; 0xa6;
   0xec; 0x16; 0x10; 0x73; 0x10; 0x2d; 0x0c; 0x47; 0x0b; 0x68; 0x08; 0x0a;
   0x1d; 0x05; 0x01; 0x22; 0x06; 0xb0; 0x00; 0x03; 0x68; 0x67; 0x3c; 0x3f;
   0x3e; 0x39; 0x93; 0x7e].

(** ** Device state *)

(** The fields of [class SpaClient] that the modelled methods read or write.
    A [Date] is its time in milliseconds, a socket and an interval id are
    handles. *)
Record SpaClient := mkSpaClient {
  initialSetup : bool;
  socket : option nat;
  lightIsOn : gmap Z bool;
  lightMode : option Z;
  lightBrightness : option Z;
  lightR : option Z;
  lightG : option Z;
  lightB : option Z;
  lightCycleTime : option Z;
  lightStatus : Z;
  lightLastUpdated : Z;
  pumpsCurrentSpeed : gmap Z Z;
  pumpsSpeedRange : gmap Z Z;
  pumpsOverrideSpeed : gmap Z Z;
  currentTemp : option Z;
  targetTempModeHigh : option Z;
  targetTempModeLow : option Z;
  targetTempOverride : option Z;
  tempRangeIsHigh : bool;
  heatingMode : option string;
  isHeatingNow : bool;
  tempChangeMode : bool;
  receivedStateUpdate : bool;
  spaLastUpdated : Z;
  flow : string;
  accurateConfigReadFromSpa : bool;
  isCurrentlyConnectedToSpa : bool;
  faultCheckIntervalId : option nat;
  stateUpdateCheckIntervalId : option nat;
  isFilterMode : bool;
  lastStateBytes : list Z;
  lastColorStateBytes : list Z;
  lastFaultBytes : list Z;
  lastIncompleteChunk : option (list Z);
  lastChunkTimestamp : option Z;
  reconnecting : bool
}.

Definition set_socket (v : option nat) (s : SpaClient) : SpaClient :=
  mkSpaClient (initialSetup s) v (lightIsOn s) (lightMode s)
    (lightBrightness s) (lightR s) (lightG s) (lightB s) (lightCycleTime s)
    (lightStatus s) (lightLastUpdated s) (pumpsCurrentSpeed s)
    (pumpsSpeedRange s) (pumpsOverrideSpeed s) (currentTemp s)
    (targetTempModeHigh s) (targetTempModeLow s) (targetTempOverride s)
    (tempRangeIsHigh s) (heatingMode s) (isHeatingNow s) (tempChangeMode s)
    (receivedStateUpdate s) (spaLastUpdated s) (flow s)
    (accurateConfigReadFromSpa s) (isCurrentlyConnectedToSpa s)
    (faultCheckIntervalId s) (stateUpdateCheckIntervalId s) (isFilterMode s)
    (lastStateBytes s) (lastColorStateBytes s) (lastFaultBytes s)
    (lastIncompleteChunk s) (lastChunkTimestamp s) (reconnecting s).

Definition set_lightIsOn (v : gmap Z bool) (s : SpaClient) : SpaClient :=
  mkSpaClient (initialSetup s) (socket s) v (lightMode s) (lightBrightness s)
    (lightR s) (lightG s) (lightB s) (lightCycleTime s) (lightStatus s)
    (lightLastUpdated s) (pumpsCurrentSpeed s) (pumpsSpeedRange s)
    (pumpsOverrideSpeed s) (currentTemp s) (targetTempModeHigh s)
    (targetTempModeLow s) (targetTempOverride s) (tempRangeIsHigh s)
    (heatingMode s) (isHeatingNow s) (tempChangeMode s)
    (receivedStateUpdate s) (spaLastUpdated s) (flow s)
    (accurateConfigReadFromSpa s) (isCurrentlyConnectedToSpa s)
    (faultCheckIntervalId s) (stateUpdateCheckIntervalId s) (isFilterMode s)
    (lastStateBytes s) (lastColorStateBytes s) (lastFaultBytes s)
    (lastIncompleteChunk s) (lastChunkTimestamp s) (reconnecting s).

Definition set_lightMode (v : option Z) (s : SpaClient) : SpaClient :=
  mkSpaClient (initialSetup s) (socket s) (lightIsOn s) v (lightBrightness s)
    (lightR s) (lightG s) (lightB s) (lightCycleTime s) (lightStatus s)
    (lightLastUpdated s) (pumpsCurrentSpeed s) (pumpsSpeedRange s)
    (pumpsOverrideSpeed s) (currentTemp s) (targetTempModeHigh s)
    (targetTempModeLow s) (targetTempOverride s) (tempRangeIsHigh s)
    (heatingMode s) (isHeatingNow s) (tempChangeMode s)
    (receivedStateUpdate s) (spaLastUpdated s) (flow s)
    (accurateConfigReadFromSpa s) (isCurrentlyConnectedToSpa s)
    (faultCheckIntervalId s) (stateUpdateCheckIntervalId s) (isFilterMode s)
    (lastStateBytes s) (lastColorStateBytes s) (lastFaultBytes s)
    (lastIncompleteChunk s) (lastChunkTimestamp s) (reconnecting s).

Definition set_lightBrightness (v : option Z) (s : SpaClient) : SpaClient :=
  mkSpaClient (initialSetup s) (socket s) (lightIsOn s) (lightMode s) v
    (lightR s) (lightG s) (lightB s) (lightCycleTime s) (lightStatus s)
    (lightLastUpdated s) (pumpsCurrentSpeed s) (pumpsSpeedRange s)
    (pumpsOverrideSpeed s) (currentTemp s) (targetTempModeHigh s)
    (targetTempModeLow s) (targetTempOverride s) (tempRangeIsHigh s)
    (heatingMode s) (isHeatingNow s) (tempChangeMode s)
    (receivedStateUpdate s) (spaLastUpdated s) (flow s)
    (accurateConfigReadFromSpa s) (isCurrentlyConnectedToSpa s)
    (faultCheckIntervalId s) (stateUpdateCheckIntervalId s) (isFilterMode s)
    (lastStateBytes s) (lastColorStateBytes s) (lastFaultBytes s)
    (lastIncompleteChunk s) (lastChunkTimestamp s) (reconnecting s).

Definition set_lightR (v : option Z) (s : SpaClient) : SpaClient :=
  mkSpaClient (initialSetup s) (socket s) (lightIsOn s) (lightMode s)
    (lightBrightness s) v (lightG s) (lightB s) (lightCycleTime s)
    (lightStatus s) (lightLastUpdated s) (pumpsCurrentSpeed s)
    (pumpsSpeedRange s) (pumpsOverrideSpeed s) (currentTemp s)
    (targetTempModeHigh s) (targetTempModeLow s) (targetTempOverride s)
    (tempRangeIsHigh s) (heatingMode s) (isHeatingNow s) (tempChangeMode s)
    (receivedStateUpdate s) (spaLastUpdated s) (flow s)
    (accurateConfigReadFromSpa s) (isCurrentlyConnectedToSpa s)
    (faultCheckIntervalId s) (stateUpdateCheckIntervalId s) (isFilterMode s)
    (lastStateBytes s) (lastColorStateBytes s) (lastFaultBytes s)
    (lastIncompleteChunk s) (lastChunkTimestamp s) (reconnecting s).

Definition set_lightG (v : option Z) (s : SpaClient) : SpaClient :=
  mkSpaClient (initialSetup s) (socket s) (lightIsOn s) (lightMode s)
    (lightBrightness s) (lightR s) v (lightB s) (lightCycleTime s)
    (lightStatus s) (lightLastUpdated s) (pumpsCurrentSpeed s)
    (pumpsSpeedRange s) (pumpsOverrideSpeed s) (currentTemp s)
    (targetTempModeHigh s) (targetTempModeLow s) (targetTempOverride s)
    (tempRangeIsHigh s) (heatingMode s) (isHeatingNow s) (tempChangeMode s)
    (receivedStateUpdate s) (spaLastUpdated s) (flow s)
    (accurateConfigReadFromSpa s) (isCurrentlyConnectedToSpa s)
    (faultCheckIntervalId s) (stateUpdateCheckIntervalId s) (isFilterMode s)
    (lastStateBytes s) (lastColorStateBytes s) (lastFaultBytes s)
    (lastIncompleteChunk s) (lastChunkTimestamp s) (reconnecting s).

Definition set_lightB (v : option Z) (s : SpaClient) : SpaClient :=
  mkSpaClient (initialSetup s) (socket s) (lightIsOn s) (lightMode s)
    (lightBrightness s) (lightR s) (lightG s) v (lightCycleTime s)
    (lightStatus s) (lightLastUpdated s) (pumpsCurrentSpeed s)
    (pumpsSpeedRange s) (pumpsOverrideSpeed s) (currentTemp s)
    (targetTempModeHigh s) (targetTempModeLow s) (targetTempOverride s)
    (tempRangeIsHigh s) (heatingMode s) (isHeatingNow s) (tempChangeMode s)
    (receivedStateUpdate s) (spaLastUpdated s) (flow s)
    (accurateConfigReadFromSpa s) (isCurrentlyConnectedToSpa s)
    (faultCheckIntervalId s) (stateUpdateCheckIntervalId s) (isFilterMode s)
    (lastStateBytes s) (lastColorStateBytes s) (lastFaultBytes s)
    (lastIncompleteChunk s) (lastChunkTimestamp s) (reconnecting s).

Definition set_lightCycleTime (v : option Z) (s : SpaClient) : SpaClient :=
  mkSpaClient (initialSetup s) (socket s) (lightIsOn s) (lightMode s)
    (lightBrightness s) (lightR s) (lightG s) (lightB s) v (lightStatus s)
    (lightLastUpdated s) (pumpsCurrentSpeed s) (pumpsSpeedRange s)
    (pumpsOverrideSpeed s) (currentTemp s) (targetTempModeHigh s)
    (targetTempModeLow s) (targetTempOverride s) (tempRangeIsHigh s)
    (heatingMode s) (isHeatingNow s) (tempChangeMode s)
    (receivedStateUpdate s) (spaLastUpdated s) (flow s)
    (accurateConfigReadFromSpa s) (isCurrentlyConnectedToSpa s)
    (faultCheckIntervalId s) (stateUpdateCheckIntervalId s) (isFilterMode s)
    (lastStateBytes s) (lastColorStateBytes s) (lastFaultBytes s)
    (lastIncompleteChunk s) (lastChunkTimestamp s) (reconnecting s).

Definition set_lightStatus (v : Z) (s : SpaClient) : SpaClient :=
  mkSpaClient (initialSetup s) (socket s) (lightIsOn s) (lightMode s)
    (lightBrightness s) (lightR s) (lightG s) (lightB s) (lightCycleTime s) v
    (lightLastUpdated s) (pumpsCurrentSpeed s) (pumpsSpeedRange s)
    (pumpsOverrideSpeed s) (currentTemp s) (targetTempModeHigh s)
    (targetTempModeLow s) (targetTempOverride s) (tempRangeIsHigh s)
    (heatingMode s) (isHeatingNow s) (tempChangeMode s)
    (receivedStateUpdate s) (spaLastUpdated s) (flow s)
    (accurateConfigReadFromSpa s) (isCurrentlyConnectedToSpa s)
    (faultCheckIntervalId s) (stateUpdateCheckIntervalId s) (isFilterMode s)
    (lastStateBytes s) (lastColorStateBytes s) (lastFaultBytes s)
    (lastIncompleteChunk s) (lastChunkTimestamp s) (reconnecting s).

Definition set_lightLastUpdated (v : Z) (s : SpaClient) : SpaClient :=
  mkSpaClient (initialSetup s) (socket s) (lightIsOn s) (lightMode s)
    (lightBrightness s) (lightR s) (lightG s) (lightB s) (lightCycleTime s)
    (lightStatus s) v (pumpsCurrentSpeed s) (pumpsSpeedRange s)
    (pumpsOverrideSpeed s) (currentTemp s) (targetTempModeHigh s)
    (targetTempModeLow s) (targetTempOverride s) (tempRangeIsHigh s)
    (heatingMode s) (isHeatingNow s) (tempChangeMode s)
    (receivedStateUpdate s) (spaLastUpdated s) (flow s)
    (accurateConfigReadFromSpa s) (isCurrentlyConnectedToSpa s)
    (faultCheckIntervalId s) (stateUpdateCheckIntervalId s) (isFilterMode s)
    (lastStateBytes s) (lastColorStateBytes s) (lastFaultBytes s)
    (lastIncompleteChunk s) (lastChunkTimestamp s) (reconnecting s).

Definition set_pumpsCurrentSpeed (v : gmap Z Z) (s : SpaClient) : SpaClient :=
  mkSpaClient (initialSetup s) (socket s) (lightIsOn s) (lightMode s)
    (lightBrightness s) (lightR s) (lightG s) (lightB s) (lightCycleTime s)
    (lightStatus s) (lightLastUpdated s) v (pumpsSpeedRange s)
    (pumpsOverrideSpeed s) (currentTemp s) (targetTempModeHigh s)
    (targetTempModeLow s) (targetTempOverride s) (tempRangeIsHigh s)
    (heatingMode s) (isHeatingNow s) (tempChangeMode s)
    (receivedStateUpdate s) (spaLastUpdated s) (flow s)
    (accurateConfigReadFromSpa s) (isCurrentlyConnectedToSpa s)
    (faultCheckIntervalId s) (stateUpdateCheckIntervalId s) (isFilterMode s)
    (lastStateBytes s) (lastColorStateBytes s) (lastFaultBytes s)
    (lastIncompleteChunk s) (lastChunkTimestamp s) (reconnecting s).

Definition set_pumpsOverrideSpeed (v : gmap Z Z) (s : SpaClient) : SpaClient :=
  mkSpaClient (initialSetup s) (socket s) (lightIsOn s) (lightMode s)
    (lightBrightness s) (lightR s) (lightG s) (lightB s) (lightCycleTime s)
    (lightStatus s) (lightLastUpdated s) (pumpsCurrentSpeed s)
    (pumpsSpeedRange s) v (currentTemp s) (targetTempModeHigh s)
    (targetTempModeLow s) (targetTempOverride s) (tempRangeIsHigh s)
    (heatingMode s) (isHeatingNow s) (tempChangeMode s)
    (receivedStateUpdate s) (spaLastUpdated s) (flow s)
    (accurateConfigReadFromSpa s) (isCurrentlyConnectedToSpa s)
    (faultCheckIntervalId s) (stateUpdateCheckIntervalId s) (isFilterMode s)
    (lastStateBytes s) (lastColorStateBytes s) (lastFaultBytes s)
    (lastIncompleteChunk s) (lastChunkTimestamp s) (reconnecting s).

Definition set_currentTemp (v : option Z) (s : SpaClient) : SpaClient :=
  mkSpaClient (initialSetup s) (socket s) (lightIsOn s) (lightMode s)
    (lightBrightness s) (lightR s) (lightG s) (lightB s) (lightCycleTime s)
    (lightStatus s) (lightLastUpdated s) (pumpsCurrentSpeed s)
    (pumpsSpeedRange s) (pumpsOverrideSpeed s) v (targetTempModeHigh s)
    (targetTempModeLow s) (targetTempOverride s) (tempRangeIsHigh s)
    (heatingMode s) (isHeatingNow s) (tempChangeMode s)
    (receivedStateUpdate s) (spaLastUpdated s) (flow s)
    (accurateConfigReadFromSpa s) (isCurrentlyConnectedToSpa s)
    (faultCheckIntervalId s) (stateUpdateCheckIntervalId s) (isFilterMode s)
    (lastStateBytes s) (lastColorStateBytes s) (lastFaultBytes s)
    (lastIncompleteChunk s) (lastChunkTimestamp s) (reconnecting s).

Definition set_targetTempModeHigh (v : option Z) (s : SpaClient) : SpaClient :=
  mkSpaClient (initialSetup s) (socket s) (lightIsOn s) (lightMode s)
    (lightBrightness s) (lightR s) (lightG s) (lightB s) (lightCycleTime s)
    (lightStatus s) (lightLastUpdated s) (pumpsCurrentSpeed s)
    (pumpsSpeedRange s) (pumpsOverrideSpeed s) (currentTemp s) v
    (targetTempModeLow s) (targetTempOverride s) (tempRangeIsHigh s)
    (heatingMode s) (isHeatingNow s) (tempChangeMode s)
    (receivedStateUpdate s) (spaLastUpdated s) (flow s)
    (accurateConfigReadFromSpa s) (isCurrentlyConnectedToSpa s)
    (faultCheckIntervalId s) (stateUpdateCheckIntervalId s) (isFilterMode s)
    (lastStateBytes s) (lastColorStateBytes s) (lastFaultBytes s)
    (lastIncompleteChunk s) (lastChunkTimestamp s) (reconnecting s).

Definition set_targetTempModeLow (v : option Z) (s : SpaClient) : SpaClient :=
  mkSpaClient (initialSetup s) (socket s) (lightIsOn s) (lightMode s)
    (lightBrightness s) (lightR s) (lightG s) (lightB s) (lightCycleTime s)
    (lightStatus s) (lightLastUpdated s) (pumpsCurrentSpeed s)
    (pumpsSpeedRange s) (pumpsOverrideSpeed s) (currentTemp s)
    (targetTempModeHigh s) v (targetTempOverride s) (tempRangeIsHigh s)
    (heatingMode s) (isHeatingNow s) (tempChangeMode s)
    (receivedStateUpdate s) (spaLastUpdated s) (flow s)
    (accurateConfigReadFromSpa s) (isCurrentlyConnectedToSpa s)
    (faultCheckIntervalId s) (stateUpdateCheckIntervalId s) (isFilterMode s)
    (lastStateBytes s) (lastColorStateBytes s) (lastFaultBytes s)
    (lastIncompleteChunk s) (lastChunkTimestamp s) (reconnecting s).

Definition set_targetTempOverride (v : option Z) (s : SpaClient) : SpaClient :=
  mkSpaClient (initialSetup s) (socket s) (lightIsOn s) (lightMode s)
    (lightBrightness s) (lightR s) (lightG s) (lightB s) (lightCycleTime s)
    (lightStatus s) (lightLastUpdated s) (pumpsCurrentSpeed s)
    (pumpsSpeedRange s) (pumpsOverrideSpeed s) (currentTemp s)
    (targetTempModeHigh s) (targetTempModeLow s) v (tempRangeIsHigh s)
    (heatingMode s) (isHeatingNow s) (tempChangeMode s)
    (receivedStateUpdate s) (spaLastUpdated s) (flow s)
    (accurateConfigReadFromSpa s) (isCurrentlyConnectedToSpa s)
    (faultCheckIntervalId s) (stateUpdateCheckIntervalId s) (isFilterMode s)
    (lastStateBytes s) (lastColorStateBytes s) (lastFaultBytes s)
    (lastIncompleteChunk s) (lastChunkTimestamp s) (reconnecting s).

Definition set_tempRangeIsHigh (v : bool) (s : SpaClient) : SpaClient :=
  mkSpaClient (initialSetup s) (socket s) (lightIsOn s) (lightMode s)
    (lightBrightness s) (lightR s) (lightG s) (lightB s) (lightCycleTime s)
    (lightStatus s) (lightLastUpdated s) (pumpsCurrentSpeed s)
    (pumpsSpeedRange s) (pumpsOverrideSpeed s) (currentTemp s)
    (targetTempModeHigh s) (targetTempModeLow s) (targetTempOverride s) v
    (heatingMode s) (isHeatingNow s) (tempChangeMode s)
    (receivedStateUpdate s) (spaLastUpdated s) (flow s)
    (accurateConfigReadFromSpa s) (isCurrentlyConnectedToSpa s)
    (faultCheckIntervalId s) (stateUpdateCheckIntervalId s) (isFilterMode s)
    (lastStateBytes s) (lastColorStateBytes s) (lastFaultBytes s)
    (lastIncompleteChunk s) (lastChunkTimestamp s) (reconnecting s).

Definition set_heatingMode (v : option string) (s : SpaClient) : SpaClient :=
  mkSpaClient (initialSetup s) (socket s) (lightIsOn s) (lightMode s)
    (lightBrightness s) (lightR s) (lightG s) (lightB s) (lightCycleTime s)
    (lightStatus s) (lightLastUpdated s) (pumpsCurrentSpeed s)
    (pumpsSpeedRange s) (pumpsOverrideSpeed s) (currentTemp s)
    (targetTempModeHigh s) (targetTempModeLow s) (targetTempOverride s)
    (tempRangeIsHigh s) v (isHeatingNow s) (tempChangeMode s)
    (receivedStateUpdate s) (spaLastUpdated s) (flow s)
    (accurateConfigReadFromSpa s) (isCurrentlyConnectedToSpa s)
    (faultCheckIntervalId s) (stateUpdateCheckIntervalId s) (isFilterMode s)
    (lastStateBytes s) (lastColorStateBytes s) (lastFaultBytes s)
    (lastIncompleteChunk s) (lastChunkTimestamp s) (reconnecting s).

Definition set_isHeatingNow (v : bool) (s : SpaClient) : SpaClient :=
  mkSpaClient (initialSetup s) (socket s) (lightIsOn s) (lightMode s)
    (lightBrightness s) (lightR s) (lightG s) (lightB s) (lightCycleTime s)
    (lightStatus s) (lightLastUpdated s) (pumpsCurrentSpeed s)
    (pumpsSpeedRange s) (pumpsOverrideSpeed s) (currentTemp s)
    (targetTempModeHigh s) (targetTempModeLow s) (targetTempOverride s)
    (tempRangeIsHigh s) (heatingMode s) v (tempChangeMode s)
    (receivedStateUpdate s) (spaLastUpdated s) (flow s)
    (accurateConfigReadFromSpa s) (isCurrentlyConnectedToSpa s)
    (faultCheckIntervalId s) (stateUpdateCheckIntervalId s) (isFilterMode s)
    (lastStateBytes s) (lastColorStateBytes s) (lastFaultBytes s)
    (lastIncompleteChunk s) (lastChunkTimestamp s) (reconnecting s).

Definition set_tempChangeMode (v : bool) (s : SpaClient) : SpaClient :=
  mkSpaClient (initialSetup s) (socket s) (lightIsOn s) (lightMode s)
    (lightBrightness s) (lightR s) (lightG s) (lightB s) (lightCycleTime s)
    (lightStatus s) (lightLastUpdated s) (pumpsCurrentSpeed s)
    (pumpsSpeedRange s) (pumpsOverrideSpeed s) (currentTemp s)
    (targetTempModeHigh s) (targetTempModeLow s) (targetTempOverride s)
    (tempRangeIsHigh s) (heatingMode s) (isHeatingNow s) v
    (receivedStateUpdate s) (spaLastUpdated s) (flow s)
    (accurateConfigReadFromSpa s) (isCurrentlyConnectedToSpa s)
    (faultCheckIntervalId s) (stateUpdateCheckIntervalId s) (isFilterMode s)
    (lastStateBytes s) (lastColorStateBytes s) (lastFaultBytes s)
    (lastIncompleteChunk s) (lastChunkTimestamp s) (reconnecting s).

Definition set_receivedStateUpdate (v : bool) (s : SpaClient) : SpaClient :=
  mkSpaClient (initialSetup s) (socket s) (lightIsOn s) (lightMode s)
    (lightBrightness s) (lightR s) (lightG s) (lightB s) (lightCycleTime s)
    (lightStatus s) (lightLastUpdated s) (pumpsCurrentSpeed s)
    (pumpsSpeedRange s) (pumpsOverrideSpeed s) (currentTemp s)
    (targetTempModeHigh s) (targetTempModeLow s) (targetTempOverride s)
    (tempRangeIsHigh s) (heatingMode s) (isHeatingNow s) (tempChangeMode s) v
    (spaLastUpdated s) (flow s) (accurateConfigReadFromSpa s)
    (isCurrentlyConnectedToSpa s) (faultCheckIntervalId s)
    (stateUpdateCheckIntervalId s) (isFilterMode s) (lastStateBytes s)
    (lastColorStateBytes s) (lastFaultBytes s) (lastIncompleteChunk s)
    (lastChunkTimestamp s) (reconnecting s).

Definition set_spaLastUpdated (v : Z) (s : SpaClient) : SpaClient :=
  mkSpaClient (initialSetup s) (socket s) (lightIsOn s) (lightMode s)
    (lightBrightness s) (lightR s) (lightG s) (lightB s) (lightCycleTime s)
    (lightStatus s) (lightLastUpdated s) (pumpsCurrentSpeed s)
    (pumpsSpeedRange s) (pumpsOverrideSpeed s) (currentTemp s)
    (targetTempModeHigh s) (targetTempModeLow s) (targetTempOverride s)
    (tempRangeIsHigh s) (heatingMode s) (isHeatingNow s) (tempChangeMode s)
    (receivedStateUpdate s) v (flow s) (accurateConfigReadFromSpa s)
    (isCurrentlyConnectedToSpa s) (faultCheckIntervalId s)
    (stateUpdateCheckIntervalId s) (isFilterMode s) (lastStateBytes s)
    (lastColorStateBytes s) (lastFaultBytes s) (lastIncompleteChunk s)
    (lastChunkTimestamp s) (reconnecting s).

Definition set_flow (v : string) (s : SpaClient) : SpaClient :=
  mkSpaClient (initialSetup s) (socket s) (lightIsOn s) (lightMode s)
    (lightBrightness s) (lightR s) (lightG s) (lightB s) (lightCycleTime s)
    (lightStatus s) (lightLastUpdated s) (pumpsCurrentSpeed s)
    (pumpsSpeedRange s) (pumpsOverrideSpeed s) (currentTemp s)
    (targetTempModeHigh s) (targetTempModeLow s) (targetTempOverride s)
    (tempRangeIsHigh s) (heatingMode s) (isHeatingNow s) (tempChangeMode s)
    (receivedStateUpdate s) (spaLastUpdated s) v (accurateConfigReadFromSpa s)
    (isCurrentlyConnectedToSpa s) (faultCheckIntervalId s)
    (stateUpdateCheckIntervalId s) (isFilterMode s) (lastStateBytes s)
    (lastColorStateBytes s) (lastFaultBytes s) (lastIncompleteChunk s)
    (lastChunkTimestamp s) (reconnecting s).

Definition set_accurateConfigReadFromSpa (v : bool) (s : SpaClient) : SpaClient :=
  mkSpaClient (initialSetup s) (socket s) (lightIsOn s) (lightMode s)
    (lightBrightness s) (lightR s) (lightG s) (lightB s) (lightCycleTime s)
    (lightStatus s) (lightLastUpdated s) (pumpsCurrentSpeed s)
    (pumpsSpeedRange s) (pumpsOverrideSpeed s) (currentTemp s)
    (targetTempModeHigh s) (targetTempModeLow s) (targetTempOverride s)
    (tempRangeIsHigh s) (heatingMode s) (isHeatingNow s) (tempChangeMode s)
    (receivedStateUpdate s) (spaLastUpdated s) (flow s) v
    (isCurrentlyConnectedToSpa s) (faultCheckIntervalId s)
    (stateUpdateCheckIntervalId s) (isFilterMode s) (lastStateBytes s)
    (lastColorStateBytes s) (lastFaultBytes s) (lastIncompleteChunk s)
    (lastChunkTimestamp s) (reconnecting s).

Definition set_isCurrentlyConnectedToSpa (v : bool) (s : SpaClient) : SpaClient :=
  mkSpaClient (initialSetup s) (socket s) (lightIsOn s) (lightMode s)
    (lightBrightness s) (lightR s) (lightG s) (lightB s) (lightCycleTime s)
    (lightStatus s) (lightLastUpdated s) (pumpsCurrentSpeed s)
    (pumpsSpeedRange s) (pumpsOverrideSpeed s) (currentTemp s)
    (targetTempModeHigh s) (targetTempModeLow s) (targetTempOverride s)
    (tempRangeIsHigh s) (heatingMode s) (isHeatingNow s) (tempChangeMode s)
    (receivedStateUpdate s) (spaLastUpdated s) (flow s)
    (accurateConfigReadFromSpa s) v (faultCheckIntervalId s)
    (stateUpdateCheckIntervalId s) (isFilterMode s) (lastStateBytes s)
    (lastColorStateBytes s) (lastFaultBytes s) (lastIncompleteChunk s)
    (lastChunkTimestamp s) (reconnecting s).

Definition set_faultCheckIntervalId (v : option nat) (s : SpaClient) : SpaClient :=
  mkSpaClient (initialSetup s) (socket s) (lightIsOn s) (lightMode s)
    (lightBrightness s) (lightR s) (lightG s) (lightB s) (lightCycleTime s)
    (lightStatus s) (lightLastUpdated s) (pumpsCurrentSpeed s)
    (pumpsSpeedRange s) (pumpsOverrideSpeed s) (currentTemp s)
    (targetTempModeHigh s) (targetTempModeLow s) (targetTempOverride s)
    (tempRangeIsHigh s) (heatingMode s) (isHeatingNow s) (tempChangeMode s)
    (receivedStateUpdate s) (spaLastUpdated s) (flow s)
    (accurateConfigReadFromSpa s) (isCurrentlyConnectedToSpa s) v
    (stateUpdateCheckIntervalId s) (isFilterMode s) (lastStateBytes s)
    (lastColorStateBytes s) (lastFaultBytes s) (lastIncompleteChunk s)
    (lastChunkTimestamp s) (reconnecting s).

Definition set_stateUpdateCheckIntervalId (v : option nat) (s : SpaClient) : SpaClient :=
  mkSpaClient (initialSetup s) (socket s) (lightIsOn s) (lightMode s)
    (lightBrightness s) (lightR s) (lightG s) (lightB s) (lightCycleTime s)
    (lightStatus s) (lightLastUpdated s) (pumpsCurrentSpeed s)
    (pumpsSpeedRange s) (pumpsOverrideSpeed s) (currentTemp s)
    (targetTempModeHigh s) (targetTempModeLow s) (targetTempOverride s)
    (tempRangeIsHigh s) (heatingMode s) (isHeatingNow s) (tempChangeMode s)
    (receivedStateUpdate s) (spaLastUpdated s) (flow s)
    (accurateConfigReadFromSpa s) (isCurrentlyConnectedToSpa s)
    (faultCheckIntervalId s) v (isFilterMode s) (lastStateBytes s)
    (lastColorStateBytes s) (lastFaultBytes s) (lastIncompleteChunk s)
    (lastChunkTimestamp s) (reconnecting s).

Definition set_isFilterMode (v : bool) (s : SpaClient) : SpaClient :=
  mkSpaClient (initialSetup s) (socket s) (lightIsOn s) (lightMode s)
    (lightBrightness s) (lightR s) (lightG s) (lightB s) (lightCycleTime s)
    (lightStatus s) (lightLastUpdated s) (pumpsCurrentSpeed s)
    (pumpsSpeedRange s) (pumpsOverrideSpeed s) (currentTemp s)
    (targetTempModeHigh s) (targetTempModeLow s) (targetTempOverride s)
    (tempRangeIsHigh s) (heatingMode s) (isHeatingNow s) (tempChangeMode s)
    (receivedStateUpdate s) (spaLastUpdated s) (flow s)
    (accurateConfigReadFromSpa s) (isCurrentlyConnectedToSpa s)
    (faultCheckIntervalId s) (stateUpdateCheckIntervalId s) v
    (lastStateBytes s) (lastColorStateBytes s) (lastFaultBytes s)
    (lastIncompleteChunk s) (lastChunkTimestamp s) (reconnecting s).

Definition set_lastStateBytes (v : list Z) (s : SpaClient) : SpaClient :=
  mkSpaClient (initialSetup s) (socket s) (lightIsOn s) (lightMode s)
    (lightBrightness s) (lightR s) (lightG s) (lightB s) (lightCycleTime s)
    (lightStatus s) (lightLastUpdated s) (pumpsCurrentSpeed s)
    (pumpsSpeedRange s) (pumpsOverrideSpeed s) (currentTemp s)
    (targetTempModeHigh s) (targetTempModeLow s) (targetTempOverride s)
    (tempRangeIsHigh s) (heatingMode s) (isHeatingNow s) (tempChangeMode s)
    (receivedStateUpdate s) (spaLastUpdated s) (flow s)
    (accurateConfigReadFromSpa s) (isCurrentlyConnectedToSpa s)
    (faultCheckIntervalId s) (stateUpdateCheckIntervalId s) (isFilterMode s) v
    (lastColorStateBytes s) (lastFaultBytes s) (lastIncompleteChunk s)
    (lastChunkTimestamp s) (reconnecting s).

Definition set_lastColorStateBytes (v : list Z) (s : SpaClient) : SpaClient :=
  mkSpaClient (initialSetup s) (socket s) (lightIsOn s) (lightMode s)
    (lightBrightness s) (lightR s) (lightG s) (lightB s) (lightCycleTime s)
    (lightStatus s) (lightLastUpdated s) (pumpsCurrentSpeed s)
    (pumpsSpeedRange s) (pumpsOverrideSpeed s) (currentTemp s)
    (targetTempModeHigh s) (targetTempModeLow s) (targetTempOverride s)
    (tempRangeIsHigh s) (heatingMode s) (isHeatingNow s) (tempChangeMode s)
    (receivedStateUpdate s) (spaLastUpdated s) (flow s)
    (accurateConfigReadFromSpa s) (isCurrentlyConnectedToSpa s)
    (faultCheckIntervalId s) (stateUpdateCheckIntervalId s) (isFilterMode s)
    (lastStateBytes s) v (lastFaultBytes s) (lastIncompleteChunk s)
    (lastChunkTimestamp s) (reconnecting s).

Definition set_lastFaultBytes (v : list Z) (s : SpaClient) : SpaClient :=
  mkSpaClient (initialSetup s) (socket s) (lightIsOn s) (lightMode s)
    (lightBrightness s) (lightR s) (lightG s) (lightB s) (lightCycleTime s)
    (lightStatus s) (lightLastUpdated s) (pumpsCurrentSpeed s)
    (pumpsSpeedRange s) (pumpsOverrideSpeed s) (currentTemp s)
    (targetTempModeHigh s) (targetTempModeLow s) (targetTempOverride s)
    (tempRangeIsHigh s) (heatingMode s) (isHeatingNow s) (tempChangeMode s)
    (receivedStateUpdate s) (spaLastUpdated s) (flow s)
    (accurateConfigReadFromSpa s) (isCurrentlyConnectedToSpa s)
    (faultCheckIntervalId s) (stateUpdateCheckIntervalId s) (isFilterMode s)
    (lastStateBytes s) (lastColorStateBytes s) v (lastIncompleteChunk s)
    (lastChunkTimestamp s) (reconnecting s).

Definition set_lastIncompleteChunk (v : option (list Z)) (s : SpaClient) : SpaClient :=
  mkSpaClient (initialSetup s) (socket s) (lightIsOn s) (lightMode s)
    (lightBrightness s) (lightR s) (lightG s) (lightB s) (lightCycleTime s)
    (lightStatus s) (lightLastUpdated s) (pumpsCurrentSpeed s)
    (pumpsSpeedRange s) (pumpsOverrideSpeed s) (currentTemp s)
    (targetTempModeHigh s) (targetTempModeLow s) (targetTempOverride s)
    (tempRangeIsHigh s) (heatingMode s) (isHeatingNow s) (tempChangeMode s)
    (receivedStateUpdate s) (spaLastUpdated s) (flow s)
    (accurateConfigReadFromSpa s) (isCurrentlyConnectedToSpa s)
    (faultCheckIntervalId s) (stateUpdateCheckIntervalId s) (isFilterMode s)
    (lastStateBytes s) (lastColorStateBytes s) (lastFaultBytes s) v
    (lastChunkTimestamp s) (reconnecting s).

Definition set_lastChunkTimestamp (v : option Z) (s : SpaClient) : SpaClient :=
  mkSpaClient (initialSetup s) (socket s) (lightIsOn s) (lightMode s)
    (lightBrightness s) (lightR s) (lightG s) (lightB s) (lightCycleTime s)
    (lightStatus s) (lightLastUpdated s) (pumpsCurrentSpeed s)
    (pumpsSpeedRange s) (pumpsOverrideSpeed s) (currentTemp s)
    (targetTempModeHigh s) (targetTempModeLow s) (targetTempOverride s)
    (tempRangeIsHigh s) (heatingMode s) (isHeatingNow s) (tempChangeMode s)
    (receivedStateUpdate s) (spaLastUpdated s) (flow s)
    (accurateConfigReadFromSpa s) (isCurrentlyConnectedToSpa s)
    (faultCheckIntervalId s) (stateUpdateCheckIntervalId s) (isFilterMode s)
    (lastStateBytes s) (lastColorStateBytes s) (lastFaultBytes s)
    (lastIncompleteChunk s) v (reconnecting s).

Definition set_reconnecting (v : bool) (s : SpaClient) : SpaClient :=
  mkSpaClient (initialSetup s) (socket s) (lightIsOn s) (lightMode s)
    (lightBrightness s) (lightR s) (lightG s) (lightB s) (lightCycleTime s)
    (lightStatus s) (lightLastUpdated s) (pumpsCurrentSpeed s)
    (pumpsSpeedRange s) (pumpsOverrideSpeed s) (currentTemp s)
    (targetTempModeHigh s) (targetTempModeLow s) (targetTempOverride s)
    (tempRangeIsHigh s) (heatingMode s) (isHeatingNow s) (tempChangeMode s)
    (receivedStateUpdate s) (spaLastUpdated s) (flow s)
    (accurateConfigReadFromSpa s) (isCurrentlyConnectedToSpa s)
    (faultCheckIntervalId s) (stateUpdateCheckIntervalId s) (isFilterMode s)
    (lastStateBytes s) (lastColorStateBytes s) (lastFaultBytes s)
    (lastIncompleteChunk s) (lastChunkTimestamp s) v.
(** ** Effects *)

Inductive LogLevel := LvDebug | LvInfo | LvWarn | LvError.

(** An argument of a log call. *)
Inductive LogArg :=
| AStr (s : string)
| ANum (n : option Z)
| ABool (b : bool)
| ABytes (bs : list Z)
| ASpeeds (m : gmap Z Z).

(** A timer callback. *)
Inductive Task :=
| ReconnectTask (host : string).

Inductive Event :=
| Log (level : LogLevel) (args : list LogArg)
| SocketWrite (packet : list Z)
| SocketEnd
| SocketDestroy
| ClearInterval (id : nat)
| NetConnect (host : string) (port : Z)
| ChangesCallback
| SpaConfigurationKnownCallback
| SetTimeout (task : Task) (delay : Z).

(** How a call ends: it returns a value, or it throws ([error] is the name
    of the exception, ["TypeError"] for a method called on [undefined]). *)
Inductive Outcome (A : Type) :=
| Returned (value : A)
| Thrown (error : string).

Arguments Returned {A} value.
Arguments Thrown {A} error.

(** ** Constants *)

Definition FLOW_GOOD : string := "Good".
Definition FLOW_LOW : string := "Low".
Definition FLOW_FAILED : string := "Failed".
Definition HEATINGMODES : list string := ["Ready"; "Rest"; "Ready in Rest"]%string.
Definition LIGHTOFF : Z := 0.
Definition LIGHTFAST : Z := 1.
Definition LIGHTSLOW : Z := 2.
Definition LIGHTFREEZE : Z := 3.
Definition LIGHTBLUE : Z := 4.
Definition LIGHTVIOLET : Z := 5.
Definition LIGHTRED : Z := 6.
Definition LIGHTAMBER : Z := 7.
Definition LIGHTGREEN : Z := 8.
Definition LIGHTAQUA : Z := 9.
Definition LIGHTWHITE : Z := 10.

Definition PrimaryRequest : list Z := [0x0a; 0xbf; 0x22].
Definition GetFaultsMessageContents : list Z := [0x20; 0xff; 0x00].
Definition GetFaultsReply : list Z := [0x0a; 0xbf; 0x28].
Definition ControlTypesReply : list Z := [0x0a; 0xbf; 0x1e].
Definition StateReply : list Z := [0xff; 0xaf; 0xc4].
Definition LightStateReply : list Z := [0xff; 0xaf; 0xca].
Definition PreferencesReply : list Z := [0xff; 0xaf; 0x26].
Definition SetTargetTempRequest : list Z := [0x0a; 0xbf; 0x1a].
Definition SetPumpRequest : list Z := [0x0a; 0xbf; 0x17].
Definition SetLightRequest : list Z := [0x0a; 0xbf; 0x11].
Definition ConfigReply : list Z := [0x0a; 0xbf; 0x94].
Definition ControlPanelRequest : list (list Z * list Z) :=
  [([0x01; 0x00; 0x00], [0x0a; 0xbf; 0x23]);
   ([0x02; 0x00; 0x00], [0x0a; 0xbf; 0x24]);
   ([0x04; 0x00; 0x00], [0x0a; 0xbf; 0x25]);
   ([0x08; 0x00; 0x00], [0x0a; 0xbf; 0x26])].
Definition KnownUnknownReply : list Z := [0xff; 0xaf; 0x32].

(** ** Outbound path *)

(** [concat(a, b)] *)
Definition concat (a b : list Z) : list Z := a ++ b.

(** The table [etypes] of [sendMessageToSpa]. *)
Definition etypes : gmap Z Z :=
  list_to_map [(0x11, 0xcc); (0x17, 0xcc); (0x1a, 0xcc); (0x1b, 0xcc); (0x20, 0xcc)].

(** The plain message [sendMessageToSpa] builds first: sentinel, length,
    type and payload, checksum, sentinel. *)
Definition plain_message (type payload : list Z) : list Z :=
  let bytes := concat type payload in
  let message_length := Z.of_nat (length bytes) + 2 in
  let message := replicate (Z.to_nat (message_length + 2)) 0 in
  let message := JS.store 0 0x7e message in
  let message := JS.store 1 message_length message in
  let message :=
    foldl (fun m i => JS.store (2 + i) (JS.toInt (bytes !! i)) m)
          message (seq 0 (length bytes)) in
  let message :=
    JS.store (length message - 2)
             (compute_checksum_encrypted (drop 1 message) (message_length - 1))
             message in
  JS.store (length message - 1) 0x7e message.

(** What [sendMessageToSpa] hands to [socket.write], [None] when it returns
    before reaching the write. *)
Definition wire_packet (type payload : list Z) : option (list Z) :=
  let message := plain_message type payload in
  let packet_type := message !! 4%nat in
  match packet_type ≫= (fun t => etypes !! t) with
  | None => None
  | Some etype =>
      let message := JS.store 4 etype message in
      let packet := concat (JS.slice 0 5 message) [0x00] in
      let packet := concat packet (drop 5 message) in
      let packet := JS.store 1 (JS.toInt (packet !! 1%nat) + 1) packet in
      let packet_length := JS.toInt (packet !! 1%nat) in
      let packet := decrypt packet in
      Some (JS.store (length packet - 2)
                     (compute_checksum_encrypted (drop 1 packet) (packet_length - 1))
                     packet)
  end.

Definition sendMessageToSpa (purpose : string) (type payload : list Z)
    (s : SpaClient) : list Event :=
  match wire_packet type payload with
  | None => []
  | Some packet =>
      Log LvDebug [AStr "Sending"; AStr purpose; ABytes packet]
      :: match socket s with
         | Some _ => [SocketWrite packet]
         | None => []
         end
  end.

(** ** Queries *)

(** [getTargetTemp] *)
Definition getTargetTemp (s : SpaClient) : option Z :=
  JS.nullish (targetTempOverride s)
             (if tempRangeIsHigh s then targetTempModeHigh s else targetTempModeLow s).

(** [getTempRangeIsHigh]: [this.targetTempModeHigh != undefined]. *)
Definition getTempRangeIsHigh (s : SpaClient) : bool :=
  match targetTempModeHigh s with Some _ => true | None => false end.

(** [getCurrentTemp] *)
Definition getCurrentTemp (s : SpaClient) : option Z :=
  match currentTemp s with
  | None => None
  | Some t => Some t
  end.

Definition getFlowState (s : SpaClient) : string := flow s.

(** The expression [this.targetTempModeLow ?? this.targetTempModeHigh], the
    "Set Temp" of [stateToString] and the setpoint [setTargetTemperature]
    compares with. *)
Definition setTemp (s : SpaClient) : option Z :=
  JS.nullish (targetTempModeLow s) (targetTempModeHigh s).

(** [SpaClient.getSpeedAsString] *)
Definition getSpeedAsString (range speed : option Z) : option string :=
  let pick (names : list string) :=
    speed ≫= (fun v => if v <? 0 then None else names !! Z.to_nat v) in
  if JS.eqn range 1 then pick ["Off"; "High"]%string
  else if JS.eqn range 2 then pick ["Off"; "Low"; "High"]%string
  else if JS.eqn range 3 then pick ["Off"; "Low"; "Medium"; "High"]%string
  else None.

(** [stateToString], as the pieces it concatenates. *)
Definition stateToString (s : SpaClient) : list LogArg :=
  let pumpDesc :=
    foldl (fun d i =>
             if JS.gt (pumpsSpeedRange s !! i) (Some 0)
             then (d ++ default "undefined"
                          (getSpeedAsString (pumpsSpeedRange s !! i)
                                            (pumpsCurrentSpeed s !! i))
                     ++ " ")%string
             else d)
          "["%string [0; 1; 2; 3; 4; 5] in
  [AStr "Temp: "; ANum (currentTemp s);
   AStr ", Set Temp: "; ANum (setTemp s);
   AStr ", Pumps: "; AStr (pumpDesc ++ "]");
   AStr ", Heating?: "; AStr (if isHeatingNow s then "Yes" else "No");
   AStr ", Filter mode?: "; AStr (if isFilterMode s then "Yes" else "No")].

(** ** Message interpreter *)

(** [equal(one, two)] *)
Definition equal (one two : list Z) : bool := bool_decide (one = two).

(** The closing comparison of [readStateFromBytes] and
    [readLightStateFromBytes]: the lengths differ, or one of the watched
    indices below the length holds a different byte. *)
Definition bytes_differ (watched : list nat) (oldBytes newBytes : list Z) : bool :=
  if negb (length oldBytes =? length newBytes)%nat then true
  else existsb (fun i => (i <? length oldBytes)%nat
                         && JS.neq (oldBytes !! i) (newBytes !! i)) watched.

Definition readStateFromBytes (bytes : list Z) (s : SpaClient)
  : SpaClient * bool :=
  let s := set_receivedStateUpdate true s in
  let s := set_currentTemp
             (if JS.eqn (bytes !! 15%nat) 255 then None else bytes !! 15%nat) s in
  let s := set_heatingMode
             (HEATINGMODES !!
                Z.to_nat (Z.land (Z.shiftr (JS.toInt (bytes !! 18%nat)) 4) 0x03)) s in
  let moreFlags := JS.toInt (bytes !! 10%nat) in
  let s := set_tempRangeIsHigh
             (if Z.land moreFlags 4 =? 0 then false else true) s in
  let s := set_isHeatingNow
             (Z.land (Z.shiftr (JS.toInt (bytes !! 26%nat)) 6) 1 =? 1) s in
  let s := set_isFilterMode (Z.shiftr (JS.toInt (bytes !! 26%nat)) 7 =? 1) s in
  let jet1 := Z.land (Z.shiftr (JS.toInt (bytes !! 10%nat)) 3) 3 in
  let s := set_pumpsCurrentSpeed
             (<[1 := if jet1 =? 1 then 0 else if jet1 =? 0 then 1 else 2]>
                (pumpsCurrentSpeed s)) s in
  let s := set_pumpsCurrentSpeed
             (<[2 := Z.shiftr (Z.land (JS.toInt (bytes !! 8%nat)) 0x0c) 2]>
                (pumpsCurrentSpeed s)) s in
  let s := set_tempChangeMode
             (Z.land (Z.shiftr (JS.toInt (bytes !! 10%nat)) 5) 1 =? 1) s in
  let s := if tempRangeIsHigh s
           then set_targetTempModeHigh (bytes !! 21%nat) s
           else set_targetTempModeLow (bytes !! 21%nat) s in
  let oldBytes := lastStateBytes s in
  let s := set_lastStateBytes bytes s in
  (s, bytes_differ [8; 10; 15; 21]%nat oldBytes (lastStateBytes s)).

Definition readLightStateFromBytes (bytes : list Z) (s : SpaClient)
  : SpaClient * bool :=
  let b13 := bytes !! 13%nat in
  let b24 := bytes !! 24%nat in
  let s :=
    if JS.eqn b13 0x40 then set_lightStatus LIGHTOFF s
    else if JS.eqn b13 0xc0 && JS.eqn b24 0x42 then set_lightStatus LIGHTFAST s
    else if JS.eqn b13 0xc0 && JS.eqn b24 0x44 then set_lightStatus LIGHTSLOW s
    else if JS.eqn b13 0xbf then set_lightStatus LIGHTFREEZE s
    else if JS.eqn b13 0x42 then set_lightStatus LIGHTBLUE s
    else if JS.eqn b13 0x47 then set_lightStatus LIGHTVIOLET s
    else if JS.eqn b13 0x46 then set_lightStatus LIGHTRED s
    else if JS.eqn b13 0x48 then set_lightStatus LIGHTAMBER s
    else if JS.eqn b13 0x43 then set_lightStatus LIGHTGREEN s
    else if JS.eqn b13 0x49 then set_lightStatus LIGHTAQUA s
    else if JS.eqn b13 0x41 then set_lightStatus LIGHTWHITE s
    else s in
  let s := set_lightMode b13 s in
  let s := set_lightBrightness (bytes !! 6%nat) s in
  let s := set_lightR (bytes !! 22%nat) s in
  let s := set_lightG (bytes !! 18%nat) s in
  let s := set_lightB (bytes !! 10%nat) s in
  let s := set_lightCycleTime b24 s in
  let s := set_lightIsOn
             (<[0 := negb (lightStatus s =? LIGHTOFF)]> (lightIsOn s)) s in
  let oldBytes := lastColorStateBytes s in
  let s := set_lastColorStateBytes bytes s in
  (s, bytes_differ [13; 24]%nat oldBytes (lastColorStateBytes s)).

Definition interpretControlTypesReply (s : SpaClient)
  : SpaClient * list Event * bool :=
  if accurateConfigReadFromSpa s then (s, [], false)
  else
    let s' := set_lightIsOn (<[0 := true]> (lightIsOn s)) s in
    let s' := set_accurateConfigReadFromSpa true s' in
    (s',
     [Log LvInfo [AStr "Discovered 2 pumps with speeds"; ASpeeds (pumpsSpeedRange s)];
      Log LvInfo [AStr "Discovered 1 light"];
      SpaConfigurationKnownCallback],
     true).

(** [timeToString], as the two numbers it formats; [None] is the
    [TypeError] of [toString] on [undefined]. *)
Definition timeToString (hour minute : option Z) : option (list LogArg) :=
  match hour, minute with
  | Some h, Some m => Some [ANum (Some h); ANum (Some m)]
  | _, _ => None
  end.

(** [interpretControlPanelReply]: for reply 1 the four times are formatted
    before the two lines about them are logged, so a reply of fewer than
    eight bytes throws after the first line. *)
Definition interpretControlPanelReply (id : Z) (contents : list Z)
  : list Event * Outcome bool :=
  let ev0 :=
    Log LvInfo [AStr "Control Panel reply"; ANum (Some id); ABytes contents] in
  if id =? 1 then
    match timeToString (contents !! 0%nat) (contents !! 1%nat),
          timeToString (contents !! 2%nat) (contents !! 3%nat),
          timeToString (Some (Z.land (JS.toInt (contents !! 4%nat)) 0x7f))
                       (contents !! 5%nat),
          timeToString (contents !! 6%nat) (contents !! 7%nat) with
    | Some filter1start, Some filter1duration,
      Some filter2start, Some filter2duration =>
        ([ev0;
          Log LvInfo ([AStr "First filter time from"] ++ filter1start
                      ++ [AStr "for"] ++ filter1duration);
          Log LvInfo ([AStr "Second filter time";
                       AStr (if Z.land (JS.toInt (contents !! 4%nat)) 0x80 =? 0
                             then "off" else "on");
                       AStr "from"] ++ filter2start
                      ++ [AStr "for"] ++ filter2duration)],
         Returned false)
    | _, _, _, _ => ([ev0], Thrown "TypeError")
    end
  else if id =? 2 then
    ([ev0;
      Log LvInfo [AStr "System Model"; ABytes (JS.slice 4 12 contents)];
      Log LvInfo [AStr "SoftwareID (SSID)";
                  ANum (contents !! 0%nat); ANum (contents !! 1%nat);
                  ANum (contents !! 2%nat); ANum (contents !! 3%nat)];
      Log LvInfo [AStr "Current Setup"; ANum (contents !! 12%nat)];
      Log LvInfo [AStr "Configuration Signature";
                  ABytes (JS.slice 13 17 contents)]],
     Returned false)
  else ([ev0], Returned false).

(** [faultCodeToString] *)
Definition faultCodeToString (code : option Z) : string :=
  if JS.eqn code 15 then "sensors may be out of sync"
  else if JS.eqn code 16 then "the water flow is low"
  else if JS.eqn code 17 then "the water flow has failed"
  else if JS.eqn code 19 then
    "priming (this is not actually a fault - your Spa was recently turned on)"
  else if JS.eqn code 20 then "the clock has failed"
  else if JS.eqn code 21 then
    "the settings have been reset (persistent memory error)"
  else if JS.eqn code 22 then "program memory failure"
  else if JS.eqn code 26 then "sensors are out of sync -- call for service"
  else if JS.eqn code 27 then "the heater is dry"
  else if JS.eqn code 28 then "the heater may be dry"
  else if JS.eqn code 29 then "the water is too hot"
  else if JS.eqn code 30 then "the heater is too hot"
  else if JS.eqn code 31 then "sensor A fault"
  else if JS.eqn code 32 then "sensor B fault"
  else if JS.eqn code 33 then "safety trip - pump suction blockage"
  else if JS.eqn code 34 then "a pump may be stuck on"
  else if JS.eqn code 35 then "hot fault"
  else if JS.eqn code 36 then "the GFCI test failed"
  else if JS.eqn code 37 then
    "hold mode activated (this is not actually a fault)"
  else "unknown code - check Balboa spa manuals".

(** [readFaults]: the line about a new fault is built, time of day
    included, before it is logged, so contents without the hour or the minute
    (fewer than six bytes) throw there, with the flow and [lastFaultBytes]
    already set. *)
Definition readFaults (bytes : list Z) (s : SpaClient)
  : SpaClient * list Event * Outcome bool :=
  let daysAgo := bytes !! 3%nat in
  let hour := bytes !! 4%nat in
  let minute := bytes !! 5%nat in
  let code := bytes !! 2%nat in
  let s := set_flow FLOW_GOOD s in
  let '(s, message, stateChanged) :=
    if JS.gt daysAgo (Some 0) then
      (s, "No recent faults. Last fault"%string, false)
    else if JS.eqn code 16 || JS.eqn code 28 then
      (set_flow FLOW_LOW s, "Recent, alerted fault found"%string, true)
    else if JS.eqn code 17 || JS.eqn code 27 || JS.eqn code 30 then
      (set_flow FLOW_FAILED s, "Recent, alerted fault found"%string, true)
    else (s, "Recent, but not alerted fault found:"%string, false) in
  let oldBytes := lastFaultBytes s in
  let s := set_lastFaultBytes bytes s in
  if negb (equal oldBytes (lastFaultBytes s)) then
    match timeToString hour minute with
    | Some time =>
        (s,
         [Log LvInfo ([AStr message; ANum daysAgo; AStr "days ago of type";
                       ANum code; AStr (faultCodeToString code);
                       AStr "Fault Entries:"; ANum (bytes !! 0%nat);
                       AStr ", Num:"; ANum (JS.add (bytes !! 1%nat) (Some 1));
                       AStr ", Days ago:"; ANum daysAgo;
                       AStr ", Time:"] ++ time
                      ++ [AStr ", Heat mode:"; ANum (bytes !! 6%nat);
                          AStr ", Set temp:"; ANum (bytes !! 7%nat);
                          AStr ", Temp A:"; ANum (bytes !! 8%nat);
                          AStr ", Temp B:"; ANum (bytes !! 9%nat)])],
         Returned stateChanged)
    | None => (s, [], Thrown "TypeError")
    end
  else (s, [], Returned stateChanged).

(** [readAndActOnMessage]: [contents] and [msgType] are copies taken before
    [decrypt] rewrites [chunk] in place. *)
Definition readAndActOnMessage (now : Z) (length : Z) (checksum : option Z)
    (chunk : list Z) (s : SpaClient) : SpaClient * list Event * Outcome bool :=
  let contents := JS.slice 5 (Z.to_nat length) chunk in
  let msgType := JS.slice 2 5 chunk in
  let chunk := decrypt chunk in
  if equal msgType StateReply then
    let '(s, stateChanged) := readStateFromBytes chunk s in
    let '(s, ev1) :=
      if negb (initialSetup s)
      then let '(s', ev, _) := interpretControlTypesReply s in (s', ev)
      else (s, []) in
    if spaLastUpdated s <=? now - 60000 then
      let s := set_spaLastUpdated now s in
      (s,
       ev1 ++ [Log LvDebug [ABytes chunk];
               Log LvDebug [AStr "DEBUG HEATING current|set:";
                          ANum (currentTemp s); AStr "|";
                          ANum (Some (JS.toInt (JS.nullish (targetTempModeHigh s)
                                                           (targetTempModeLow s))));
                          AStr "|Should be heating?";
                          ABool (JS.lt (JS.nullish (currentTemp s) (Some 1))
                                       (Some (JS.toInt
                                                (JS.nullish (targetTempModeHigh s)
                                                            (targetTempModeLow s)))))]],
       Returned true)
    else (s, ev1, Returned stateChanged)
  else if equal msgType LightStateReply then
    let '(s, stateChanged) := readLightStateFromBytes chunk s in
    if lightLastUpdated s <=? now - 60000 then
      (set_lightLastUpdated now s, [Log LvDebug [ABytes chunk]], Returned true)
    else (s, [], Returned stateChanged)
  else if equal msgType GetFaultsReply then
    readFaults contents s
  else if equal msgType ControlTypesReply then
    let '(s, ev, stateChanged) := interpretControlTypesReply s in
    (s, Log LvInfo [AStr "Control types reply"; ABytes msgType; ABytes contents] :: ev,
     Returned stateChanged)
  else if equal msgType ConfigReply then
    (s, [Log LvInfo [AStr "Config reply with MAC address"; ABytes msgType;
                   ABytes contents]], Returned false)
  else if equal msgType PreferencesReply then
    (s, [Log LvInfo [AStr "Set preferences reply"; ABytes msgType; ABytes contents]],
     Returned false)
  else if equal msgType KnownUnknownReply then
    (s, [], Returned false)
  else
    match list_find (fun '(_, reply) => equal msgType reply = true)
                    ControlPanelRequest with
    | Some (id, _) =>
        let '(ev, stateChanged) :=
          interpretControlPanelReply (Z.of_nat id + 1) contents in
        (s, ev, stateChanged)
    | None =>
        (s, [Log LvInfo [AStr "Not understood a received spa message";
                       ABytes msgType; ABytes contents]], Returned false)
    end.

(** ** Framer *)

(** The body of [while (chunk.length > 0)] in [readAndActOnSocketContents];
    every round that does not [break] drops [msgLength + 2 >= 2] bytes, so
    [fuel = length chunk] rounds are enough ([socket_loop_fuel]).  A throw in
    [readAndActOnMessage] is not caught: it ends the loop and the call. *)
Fixpoint socket_loop (fuel : nat) (now : Z) (chunk : list Z) (s : SpaClient)
    (messagesProcessed : Z) : SpaClient * list Event * Outcome Z :=
  match fuel with
  | O => (s, [], Returned messagesProcessed)
  | S fuel' =>
      if (length chunk =? 0)%nat then (s, [], Returned messagesProcessed)
      else if (length chunk <? 2)%nat then
        (s, [Log LvError [AStr "Very short message received (ignored)"; ABytes chunk]],
         Returned messagesProcessed)
      else
        let msgLength := JS.toInt (chunk !! 1%nat) in
        if Z.of_nat (length chunk) - 2 <? msgLength then
          (set_lastChunkTimestamp (Some now) (set_lastIncompleteChunk (Some chunk) s),
           [], Returned messagesProcessed)
        else
          let '(s1, ev1, mp1) :=
            if JS.eqn (chunk !! 0%nat) 0x7e
               && JS.eqn (chunk !! Z.to_nat (msgLength + 1)) 0x7e then
              if 0 <? msgLength then
                let thisMsg := JS.slice 0 (Z.to_nat (msgLength + 2)) chunk in
                let checksum := thisMsg !! Z.to_nat msgLength in
                if JS.neq checksum
                          (Some (compute_checksum
                                   [msgLength]
                                   (JS.slice 2 (Z.to_nat msgLength) thisMsg)))
                then
                  (s, [Log LvError [AStr "Bad checksum"; ANum checksum; AStr "for";
                                  ABytes thisMsg]],
                   Returned (messagesProcessed + 1))
                else
                  let '(s', ev, somethingChanged) :=
                    readAndActOnMessage now msgLength checksum thisMsg s in
                  match somethingChanged with
                  | Returned true =>
                      (s',
                       ev ++ [Log LvDebug (AStr "State change:" :: stateToString s');
                              ChangesCallback],
                       Returned (messagesProcessed + 1))
                  | Returned false => (s', ev, Returned (messagesProcessed + 1))
                  | Thrown error => (s', ev, Thrown error)
                  end
              else (s, [], Returned (messagesProcessed + 1))
            else
              (s, [Log LvError [AStr "Message with bad terminations encountered:";
                              ABytes chunk]],
               Returned messagesProcessed) in
          match mp1 with
          | Returned mp1 =>
              let '(s2, ev2, mp2) :=
                socket_loop fuel' now (drop (Z.to_nat (msgLength + 2)) chunk) s1 mp1 in
              (s2, ev1 ++ ev2, mp2)
          | Thrown error => (s1, ev1, Thrown error)
          end
  end.

(** [readAndActOnSocketContents]: the new state, the events and the value
    returned ([messagesProcessed]).  [lastChunkTimestamp] is set and cleared
    together with [lastIncompleteChunk]; were it missing, [getTime] on
    [undefined] would throw before anything is changed. *)
Definition readAndActOnSocketContents (now : Z) (chunk : list Z) (s : SpaClient)
  : SpaClient * list Event * Outcome Z :=
  match lastIncompleteChunk s with
  | Some last =>
      match lastChunkTimestamp s with
      | Some stamp =>
          let diff := Z.abs (stamp - now) in
          let s' := set_lastChunkTimestamp None (set_lastIncompleteChunk None s) in
          if diff <? 1000 then
            let chunk := concat last chunk in
            socket_loop (length chunk) now chunk s' 0
          else
            let '(s2, ev, mp) := socket_loop (length chunk) now chunk s' 0 in
            (s2, Log LvWarn [AStr "Discarding old, incomplete message"; ABytes last]
                 :: ev, mp)
      | None => (s, [], Thrown "TypeError")
      end
  | None => socket_loop (length chunk) now chunk s 0
  end.

(** ** Command engine *)

(** The loop [for (let i = 0; i < timesToRun; i++)] of [setPumpSpeed]: [n]
    rounds from round [i]; [env i] is what the rest of the program does to the
    state during the one second wait of round [i]. *)
Fixpoint press_loop (n : nat) (i : nat) (env : nat -> SpaClient -> SpaClient)
    (index desiredSpeed : Z) (pumpcode : list Z) (s : SpaClient)
  : SpaClient * list Event :=
  match n with
  | O => (s, [])
  | S n' =>
      let ev :=
        if JS.neq (pumpsCurrentSpeed s !! index) (Some desiredSpeed)
        then sendMessageToSpa "SetPumpRequest" SetPumpRequest pumpcode s
        else [] in
      let s := env i s in
      let '(s', ev') := press_loop n' (S i) env index desiredSpeed pumpcode s in
      (s', ev ++ ev')
  end.

(** The number of presses [setPumpSpeed] computes; [None] is [NaN], for
    which the loop does not run. *)
Definition timesToRun (index desiredSpeed : Z) (s : SpaClient) : option Z :=
  let current := pumpsCurrentSpeed s !! index in
  let range := pumpsSpeedRange s !! index in
  if JS.gt (Some desiredSpeed) current then JS.sub (Some desiredSpeed) current
  else if JS.lt (Some desiredSpeed) current then
    let t := JS.add (JS.sub range current) (Some (desiredSpeed + 1)) in
    if isFilterMode s && (index =? 1) then JS.sub t (Some 1) else t
  else Some 0.

Definition setPumpSpeed (env : nat -> SpaClient -> SpaClient)
    (index desiredSpeed : Z) (s : SpaClient) : SpaClient * list Event :=
  let pumpName := [AStr "Pump"; ANum (Some index)] in
  let index := index - 1 in
  if JS.eqn (pumpsSpeedRange s !! index) 0 then
    (s, [Log LvError (AStr "Trying to set speed of" :: pumpName
                      ++ [AStr "which doesn't exist"])])
  else if JS.gt (Some desiredSpeed) (pumpsSpeedRange s !! index) then
    (s, [Log LvError (AStr "Trying to set speed of" :: pumpName
                      ++ [AStr " faster ("; ANum (Some desiredSpeed);
                          AStr ") than the pump supports (";
                          ANum (pumpsSpeedRange s !! index); AStr ")."])])
  else
    let '(desiredSpeed, ev0) :=
      if isFilterMode s && (index =? 1) && (desiredSpeed =? 0) then
        (1, [Log LvWarn (AStr "Trying to turn off" :: pumpName
                         ++ [AStr "but currently in filter mode.  Will set to low."])])
      else (desiredSpeed, []) in
    let pumpcode := [JS.u8 (index + 3)] in
    let s := set_pumpsOverrideSpeed
               (<[index := desiredSpeed]> (pumpsOverrideSpeed s)) s in
    let n := Z.to_nat (JS.toInt (timesToRun index desiredSpeed s)) in
    let '(s, ev) := press_loop n 0 env index desiredSpeed pumpcode s in
    let s := set_pumpsOverrideSpeed (<[index := -1]> (pumpsOverrideSpeed s)) s in
    let s := set_pumpsCurrentSpeed
               (<[index := desiredSpeed]> (pumpsCurrentSpeed s)) s in
    (s, ev0 ++ ev).

(** [getPumpSpeed] *)
Definition getPumpSpeed (index : Z) (s : SpaClient) : option Z * list Event :=
  if index =? 0 then
    (Some 0, [Log LvError [AStr "Trying to get speed of circulation pump which doesn't exist"]])
  else
    let index := index - 1 in
    if JS.eqn (pumpsSpeedRange s !! index) 0 then
      (Some 0, [Log LvError [AStr "Trying to get speed of pump"; ANum (Some (index + 1));
                           AStr "which doesn't exist"]])
    else if JS.eqn (pumpsOverrideSpeed s !! index) (-1)
    then (pumpsCurrentSpeed s !! index, [])
    else (pumpsOverrideSpeed s !! index, []).

(** The loop [for (let i = 0; i < 60; i++)] of [setTargetTemperature]: [n]
    rounds from round [i], with the locals [settemp_changed],
    [previousSetTemp] and [original_temp].  The comparison
    [previousSetTemp != this.targetTempModeLow ?? this.targetTempModeHigh]
    parses as [(previousSetTemp != this.targetTempModeLow) ?? ...], and a
    boolean is never nullish. *)
Fixpoint settemp_loop (n : nat) (i : nat) (env : nat -> SpaClient -> SpaClient)
    (temp : Z) (settemp_changed : bool) (previousSetTemp original_temp : Z)
    (s : SpaClient) : SpaClient * list Event :=
  match n with
  | O => (set_targetTempOverride None s, [])
  | S n' =>
      let wait (previousSetTemp : Z) (ev : list Event) (s : SpaClient) :=
        let s := env i s in
        let settemp_changed :=
          JS.neq (Some previousSetTemp) (targetTempModeLow s)
          || ((previousSetTemp =? original_temp) && tempChangeMode s) in
        let '(s', ev') :=
          settemp_loop n' (S i) env temp settemp_changed previousSetTemp
                       original_temp s in
        (s', ev ++ ev') in
      if settemp_changed then
        let previousSetTemp := JS.toInt (setTemp s) in
        let reqd_change := temp - JS.toInt (setTemp s) in
        let send (btncode : list Z) :=
          wait previousSetTemp
               (Log LvDebug [AStr "Changing temperature.  Current set temp: ";
                           ANum (setTemp s)]
                :: sendMessageToSpa "SetTargetTempRequest" SetTargetTempRequest
                                    btncode s)
               s in
        if 1 <=? reqd_change then send [0x01]
        else if reqd_change <=? -1 then send [0x02]
        else (set_targetTempOverride None s, [])
      else wait previousSetTemp [] s
  end.

Definition setTargetTemperature (env : nat -> SpaClient -> SpaClient)
    (temp : Z) (s : SpaClient) : SpaClient * list Event :=
  let s := set_targetTempOverride (Some temp) s in
  let previousSetTemp := JS.toInt (setTemp s) in
  let original_temp := JS.toInt (setTemp s) in
  settemp_loop 60 0 env temp true previousSetTemp original_temp s.

(** The button presses of a call: the packets it logs as sent. *)
Definition commands_sent (purpose : string) (events : list Event) : list (list Z) :=
  omap (fun e =>
          match e with
          | Log LvDebug [AStr "Sending"; AStr p; ABytes packet] =>
              if bool_decide (p = purpose) then Some packet else None
          | _ => None
          end) events.

(** The packets a call wrote to the socket. *)
Definition socket_writes (events : list Event) : list (list Z) :=
  omap (fun e => match e with SocketWrite packet => Some packet | _ => None end)
       events.

(** ** Session manager *)

(** [get_socket]; [sock] is the handle [net.connect] returns. *)
Definition get_socket (host : string) (sock : nat) (s : SpaClient)
  : SpaClient * list Event :=
  (set_socket (Some sock) s,
   (if isCurrentlyConnectedToSpa s
    then [Log LvError [AStr "Already connected, should not be trying again."]]
    else [])
   ++ [Log LvDebug [AStr "Connecting to Spa at"; AStr host; AStr "on port 4257"];
       NetConnect host 4257]).

(** ** Construction *)

(** [new SpaClient(log, host, ...)] at time [now]: the fields, then
    [this.socket = this.get_socket(host)].  [yesterday] is what
    [setDate(new Date().getDate() - 1)] makes of [now], the same local time
    on the calendar day before (24 hours earlier, 23 or 25 across a change of
    daylight saving time); [sock] is the handle [net.connect] returns. *)
Definition constructor (host : string) (sock : nat) (now yesterday : Z)
  : SpaClient * list Event :=
  let s :=
    {| initialSetup := false;
       socket := None;
       lightIsOn := <[0 := false]> (<[1 := false]> ∅);
       lightMode := Some 0;
       lightBrightness := Some 0;
       lightR := Some 0;
       lightG := Some 0;
       lightB := Some 0;
       lightCycleTime := Some 0;
       lightStatus := 0;
       lightLastUpdated := yesterday;
       pumpsCurrentSpeed :=
         list_to_map [(0, 0); (1, 0); (2, 0); (3, 0); (4, 0); (5, 0)];
       pumpsSpeedRange :=
         list_to_map [(0, 0); (1, 2); (2, 1); (3, 0); (4, 0); (5, 0)];
       pumpsOverrideSpeed :=
         list_to_map [(0, -1); (1, -1); (2, -1); (3, -1); (4, -1); (5, -1)];
       currentTemp := None;
       targetTempModeHigh := None;
       targetTempModeLow := None;
       targetTempOverride := None;
       tempRangeIsHigh := true;
       heatingMode := Some ""%string;
       isHeatingNow := false;
       tempChangeMode := false;
       receivedStateUpdate := true;
       spaLastUpdated := yesterday;
       flow := FLOW_GOOD;
       accurateConfigReadFromSpa := false;
       isCurrentlyConnectedToSpa := false;
       faultCheckIntervalId := None;
       stateUpdateCheckIntervalId := None;
       isFilterMode := false;
       lastStateBytes := [];
       lastColorStateBytes := [];
       lastFaultBytes := [];
       lastIncompleteChunk := None;
       lastChunkTimestamp := None;
       reconnecting := false |} in
  get_socket host sock s.

Definition shutdownSpaConnection (s : SpaClient) : SpaClient * list Event :=
  let s := set_isCurrentlyConnectedToSpa false s in
  let ev0 := [Log LvDebug [AStr "Shutting down Spa socket"]] in
  let '(s, ev1) :=
    match faultCheckIntervalId s with
    | Some id => (set_faultCheckIntervalId None s, [ClearInterval id])
    | None => (s, [])
    end in
  let '(s, ev2) :=
    match stateUpdateCheckIntervalId s with
    | Some id => (set_stateUpdateCheckIntervalId None s, [ClearInterval id])
    | None => (s, [])
    end in
  let '(s, ev3) :=
    match socket s with
    | Some _ => (set_socket None s, [SocketEnd; SocketDestroy])
    | None => (s, [])
    end in
  (s, ev0 ++ ev1 ++ ev2 ++ ev3).

Definition reconnect (host : string) (s : SpaClient) : SpaClient * list Event :=
  if negb (reconnecting s) then
    (set_reconnecting true s, [SetTimeout (ReconnectTask host) 20000])
  else (s, []).

(** The listener [get_socket] puts on the socket's [error] event. *)
Definition on_error (host : string) (s : SpaClient) : SpaClient * list Event :=
  let '(s, ev1) := shutdownSpaConnection s in
  let '(s, ev2) := reconnect host s in
  (s, Log LvInfo [AStr "Had error - closing old socket, retrying in 20s"]
      :: ev1 ++ ev2).

(** What a timer runs when it fires. *)
Definition run_task (task : Task) (sock : nat) (s : SpaClient)
  : SpaClient * list Event :=
  match task with
  | ReconnectTask host =>
      let '(s, ev) := get_socket host sock s in
      (set_reconnecting false s, ev)
  end.

(** The event loop, as far as the reconnect guard goes: the client, the
    clock, the timers waiting with the time they are due, the events so far
    and the next socket handle. *)
Record World := mkWorld {
  client : SpaClient;
  clock : Z;
  timers : list (Z * Task);
  trace : list Event;
  nextSocket : nat
}.

(** Put the [SetTimeout]s of [events] on the timer list. *)
Definition schedule (now : Z) (events : list Event) : list (Z * Task) :=
  omap (fun e =>
          match e with
          | SetTimeout task delay => Some (now + delay, task)
          | _ => None
          end) events.

(** Fire the timers of [due], in order. *)
Fixpoint fire (due : list (Z * Task)) (w : World) : World :=
  match due with
  | [] => w
  | (_, task) :: rest =>
      let '(s, ev) := run_task task (nextSocket w) (client w) in
      fire rest
           {| client := s; clock := clock w; timers := timers w;
              trace := trace w ++ ev; nextSocket := S (nextSocket w) |}
  end.

(** Let the time reach [t]: the timers due by then fire. *)
Definition advance (t : Z) (w : World) : World :=
  let due := filter (fun '(d, _) => d <= t) (timers w) in
  let waiting := filter (fun '(d, _) => ¬ d <= t) (timers w) in
  let w := fire due {| client := client w; clock := clock w; timers := waiting;
                       trace := trace w; nextSocket := nextSocket w |} in
  {| client := client w; clock := Z.max t (clock w); timers := timers w;
     trace := trace w; nextSocket := nextSocket w |}.

(** A socket [error] event at time [t]. *)
Definition socket_error (host : string) (t : Z) (w : World) : World :=
  let w := advance t w in
  let '(s, ev) := on_error host (client w) in
  {| client := s; clock := clock w;
     timers := timers w ++ schedule (clock w) ev;
     trace := trace w ++ ev; nextSocket := nextSocket w |}.

(** The reconnect attempts scheduled in a trace. *)
Definition scheduled_reconnects (events : list Event) : nat :=
  length (schedule 0 events).


(** ** Lights, recent state and the watchdog *)

(** [getIsLightOn]: lights are numbered 1, 2 by the caller. *)
Definition getIsLightOn (index : Z) (s : SpaClient) : option bool :=
  let index := index - 1 in
  lightIsOn s !! index.

(** [setLightState]: one press of the light button unless the light is
    already in the state asked for. *)
Definition setLightState (index : Z) (value : bool) (s : SpaClient) : list Event :=
  let index := index - 1 in
  if bool_decide (lightIsOn s !! index = Some value) then []
  else
    match lightIsOn s !! index with
    | None =>
        [Log LvError [AStr "Trying to set state of light"; ANum (Some (index + 1));
                      AStr "which doesn't exist"]]
    | Some _ =>
        let lightCode := [JS.u8 (0x12 + index)] in
        sendMessageToSpa "SetLightState" SetLightRequest lightCode s
    end.

(** [hasGoodSpaConnection] *)
Definition hasGoodSpaConnection (s : SpaClient) : bool :=
  isCurrentlyConnectedToSpa s.

(** [resetRecentState] *)
Definition resetRecentState (s : SpaClient) : SpaClient :=
  let s := set_lastStateBytes [] s in
  let s := set_lastColorStateBytes [] s in
  set_lastFaultBytes [] s.

(** [checkWeHaveReceivedStateUpdate]; [socket.emit("error", ...)] runs the
    listener [get_socket] registered, with the [host] it was registered
    for. *)
Definition checkWeHaveReceivedStateUpdate (host : string) (s : SpaClient)
  : SpaClient * list Event :=
  if receivedStateUpdate s then
    (set_receivedStateUpdate false s,
     [Log LvInfo (AStr "Latest spa state" :: stateToString s)])
  else
    let ev0 :=
      [Log LvError (AStr "No spa state update received for some time.  Last state was"
                    :: stateToString s)] in
    match socket s with
    | Some _ => let '(s, ev) := on_error host s in (s, ev0 ++ ev)
    | None => (s, ev0)
    end.

(** ** The requests of the start-up sequence *)





(** ** Platform: actions recorded while the spa is away *)

Section Platform.

(** The functions the accessories hand to [recordAction]. *)
Variable Action : Type.

(** The lines of the platform's log that are about recorded actions; the
    callback handed to a replayed action logs the third when the action
    calls it. *)
Inductive PlatformLog :=
| RecordingAction (func : Action)
| ReplayingAction (func : Action)
| ReplayedCallback.

Record Platform := mkPlatform {
  spa : option SpaClient;
  recordedActions : list Action;
  platformLog : list PlatformLog
}.

(** [func(loggingCallback)]: what an action does to the platform when it is
    called, the lines of [loggingCallback] included. *)
Variable call : Action -> Platform -> Platform.

(** [isCurrentlyConnected] *)
Definition isCurrentlyConnected (p : Platform) : bool :=
  match spa p with
  | Some s => hasGoodSpaConnection s
  | None => false
  end.

(** [recordAction] *)
Definition recordAction (func : Action) (p : Platform) : Platform :=
  {| spa := spa p;
     recordedActions := recordedActions p ++ [func];
     platformLog := platformLog p ++ [RecordingAction func] |}.

(** [executeAllRecordedActions]: the [while] loop, at most [fuel] rounds. *)
Fixpoint executeAllRecordedActions (fuel : nat) (p : Platform) : Platform :=
  match fuel with
  | O => p
  | S fuel' =>
      if isCurrentlyConnected p then
        match recordedActions p with
        | [] => p
        | func :: rest =>
            executeAllRecordedActions fuel'
              (call func {| spa := spa p;
                            recordedActions := rest;
                            platformLog := platformLog p ++ [ReplayingAction func] |})
        end
      else p
  end.

End Platform.

Arguments RecordingAction {Action} func.
Arguments ReplayingAction {Action} func.
Arguments ReplayedCallback {Action}.
Arguments mkPlatform {Action} spa recordedActions platformLog.
Arguments spa {Action} p.
Arguments recordedActions {Action} p.
Arguments platformLog {Action} p.
Arguments isCurrentlyConnected {Action} p.
Arguments recordAction {Action} func p.
Arguments executeAllRecordedActions {Action} call fuel p.

(** * Properties *)

(** ** Vocabulary of the statements *)

Definition is_byte (b : Z) : Prop := 0 <= b < 256.

(** A well-formed encrypted frame, as [decrypt] receives it from
    [readAndActOnSocketContents] and from [sendMessageToSpa]: bytes, at least
    seven of them, an encrypted type at offset 4, and a declared length
    (offset 1) that counts everything but the checksum and the closing
    sentinel. *)
Definition encrypted_frame (p : list Z) : bool :=
  forallb (fun b => (0 <=? b) && (b <? 256)) p
  && (7 <=? length p)%nat
  && (JS.eqn (p !! 4%nat) 0xc4 || JS.eqn (p !! 4%nat) 0xca || JS.eqn (p !! 4%nat) 0xcc)
  && JS.eqn (p !! 1%nat) (Z.of_nat (length p) - 2).

(** The bytes the cipher transforms: offsets 6 to the declared length. *)
Definition cipher_payload (p : list Z) : list Z :=
  JS.slice 6 (Z.to_nat (JS.toInt (p !! 1%nat))) p.

(** The checksum byte, at [length - 2], is the encrypted checksum of the
    frame as it stands. *)
Definition checksum_consistent (p : list Z) : Prop :=
  p !! (length p - 2)%nat
  = Some (compute_checksum_encrypted (drop 1 p) (JS.toInt (p !! 1%nat) - 1)).

(** A well-formed frame of the wire protocol: bytes, a sentinel at both
    ends, a declared length that counts everything but the checksum and the
    closing sentinel, and the plain checksum in place. *)
Definition wellformed_frame (f : list Z) : bool :=
  forallb (fun b => (0 <=? b) && (b <? 256)) f
  && (4 <=? length f)%nat
  && JS.eqn (f !! 0%nat) 0x7e
  && JS.eqn (f !! 1%nat) (Z.of_nat (length f) - 2)
  && JS.eqn (f !! (length f - 1)%nat) 0x7e
  && JS.eqn (f !! (length f - 2)%nat)
            (compute_checksum [Z.of_nat (length f) - 2]
                              (JS.slice 2 (length f - 2) f)).

(** No fragment is waiting for its rest. *)
Definition idle (s : SpaClient) : Prop :=
  lastIncompleteChunk s = None /\ lastChunkTimestamp s = None.

(** Two chunks, one after the other: the final state, all the events and
    the number of messages processed.  A throw is not caught by the handler
    of the socket's data, so nothing runs after it. *)
Definition feed_twice (now1 : Z) (chunk1 : list Z) (now2 : Z) (chunk2 : list Z)
    (s : SpaClient) : SpaClient * list Event * Outcome Z :=
  let '(s1, ev1, n1) := readAndActOnSocketContents now1 chunk1 s in
  match n1 with
  | Returned n1 =>
      let '(s2, ev2, n2) := readAndActOnSocketContents now2 chunk2 s1 in
      (s2, ev1 ++ ev2,
       match n2 with
       | Returned n2 => Returned (n1 + n2)
       | Thrown error => Thrown error
       end)
  | Thrown error => (s1, ev1, Thrown error)
  end.

(** The packet [sendMessageToSpa] writes for one press of the button of the
    pump at index 1 (button code 4). *)
Definition pump_press_packet : list Z :=
  [0x7e; 0x07; 0x0a; 0xbf; 0xcc; 0x00; 0xe4; 0xdd; 0x7e].

(** The warning of [readAndActOnSocketContents] for a stale fragment. *)
Definition discarded_warning (fragment : list Z) : Event :=
  Log LvWarn [AStr "Discarding old, incomplete message"; ABytes fragment].

(** Every pump speed is within the range declared for that pump. *)
Definition pump_speeds_in_range (s : SpaClient) : Prop :=
  forall i c, pumpsCurrentSpeed s !! i = Some c ->
              exists r, pumpsSpeedRange s !! i = Some r /\ c <= r.

(** The status packet of the source, decrypted. *)
Definition status_bytes : list Z :=
  [0x7e; 0x26; 0xff; 0xaf; 0xc4; 0x00; 0x0d; 0x00; 0x00; 0x08; 0x0a; 0xb9;
   0xf2; 0x07; 0x00; 0x60; 0x02; 0x38; 0x18; 0x50; 0x1d; 0x61; 0x00; 0x01;
   0x17; 0x08; 0x0d; 0x2d; 0x08; 0xb1; 0x00; 0x00; 0x6a; 0x62; 0x38; 0x38;
   0x38; 0x00; 0xf9; 0x7e].

(** The decrypted status packet of the source with [0x08] at offset 8, the
    two bits of pump 3 at "2", encrypted again as the spa would send it. *)
Definition pump3_high_frame : list Z :=
  [0x7e; 0x26; 0xff; 0xaf; 0xc4; 0x00; 0x0a; 0x04; 0x0d; 0x0a; 0x09; 0xb9;
   0xf3; 0x09; 0x0f; 0x6c; 0x0f; 0x32; 0x13; 0x58; 0x14; 0x77; 0x17; 0x15;
   0x02; 0x1a; 0x1e; 0x3d; 0x19; 0xaf; 0x1f; 0x1c; 0x77; 0x78; 0x23; 0x20;
   0x21; 0x26; 0x6a; 0x7e].

(** Flow health and "changed" as the fault code alone would give them. *)
Definition flow_for_code (code : option Z) : string :=
  if JS.eqn code 16 || JS.eqn code 28 then FLOW_LOW
  else if JS.eqn code 17 || JS.eqn code 27 || JS.eqn code 30 then FLOW_FAILED
  else FLOW_GOOD.

Definition alerting_code (code : option Z) : bool :=
  JS.eqn code 16 || JS.eqn code 28 || JS.eqn code 17 || JS.eqn code 27
  || JS.eqn code 30.

(** The status frame says the spa is in its high range: bit 2 of byte 10. *)
Definition high_range (bytes : list Z) : Prop :=
  Z.land (JS.toInt (bytes !! 10%nat)) 4 <> 0.

(** Status frames decoded one after the other. *)
Definition read_states (frames : list (list Z)) (s : SpaClient) : SpaClient :=
  foldl (fun s bytes => (readStateFromBytes bytes s).1) s frames.

(** The reconnect guard and the timer list agree: no reconnect is waiting
    when the guard is down, at most one when it is up. *)
Definition guard_inv (w : World) : Prop :=
  if reconnecting (client w) then (length (timers w) <= 1)%nat
  else timers w = [].

(** A client right after construction at [now], on a day of 24 hours: the
    first socket (handle 0) is being opened to the host "spa". *)
Definition new_client (now : Z) : SpaClient :=
  (constructor "spa" 0 now (now - 86400000)).1.

(** The world right after that construction: the events of the constructor
    behind it, nothing scheduled yet. *)
Definition initial_world (now : Z) : World :=
  {| client := new_client now; clock := now; timers := [];
     trace := (constructor "spa" 0 now (now - 86400000)).2;
     nextSocket := 1 |}.

(** No timer is due by [t] and the guard is up. *)
Definition quiet (t : Z) (w : World) : Prop :=
  reconnecting (client w) = true /\ Forall (fun x => t < x.1) (timers w).

(** What an error at time [t] makes of the guard: nothing when the guard is
    up and no timer is due, one new timer otherwise. *)
Definition error_step (host : string) (t : Z) (w w' : World) : Prop :=
  guard_inv w'
  /\ clock w' = t
  /\ reconnecting (client w') = true
  /\ (quiet t w
      /\ timers w' = timers w
      /\ scheduled_reconnects (trace w') = scheduled_reconnects (trace w)
      \/ ~ quiet t w
         /\ timers w' = [(t + 20000, ReconnectTask host)]
         /\ scheduled_reconnects (trace w') = S (scheduled_reconnects (trace w))).

(** The packet [sendMessageToSpa] hands to [decrypt]: the plain message with
    the encrypted type at offset 4, a zero key byte put in at offset 5 and the
    length byte raised by one. *)
Definition keyed_message (type payload : list Z) (etype : Z) : list Z :=
  let message := JS.store 4 etype (plain_message type payload) in
  let packet := concat (concat (JS.slice 0 5 message) [0x00]) (drop 5 message) in
  JS.store 1 (JS.toInt (packet !! 1%nat) + 1) packet.

(** The packet [sendMessageToSpa] writes for one press of "temperature
    up" (button code 1). *)
Definition temp_up_packet : list Z :=
  [0x7e; 0x07; 0x0a; 0xbf; 0xcc; 0x00; 0xe1; 0xc6; 0x7e].

(** A client that has seen both ranges: after the status packet of the
    source, which is in low range with the set temperature at 97, and the
    same packet in high range (bit 2 of byte 10) with the set temperature at
    100. *)
Definition both_ranges_seen : SpaClient :=
  read_states [status_bytes; <[21%nat := 100]> (<[10%nat := 0x0e]> status_bytes)]
              (new_client 0).

(** The spa takes every press at once: during each wait the low setpoint
    moves one step towards [temp]. *)
Definition obedient_spa (temp : Z) (_ : nat) (s : SpaClient) : SpaClient :=
  match targetTempModeLow s with
  | Some t =>
      set_targetTempModeLow
        (Some (if t <? temp then t + 1 else if temp <? t then t - 1 else t)) s
  | None => s
  end.

(** The spa takes no press at all. *)
Definition deaf_spa (_ : nat) (s : SpaClient) : SpaClient := s.

(** ** Vocabulary of the further properties *)

(** The 256 byte values. *)
Definition all_bytes : list Z := Z.of_nat <$> seq 0 256.

(** One round of the loop of [readAndActOnSocketContents] on a chunk that
    holds a whole message of declared length [msgLength]: the new state, the
    events, and by how much the count of processed messages goes up, unless
    the interpreter throws. *)
Definition frame_step (now : Z) (chunk : list Z) (msgLength : Z) (s : SpaClient)
  : SpaClient * list Event * Outcome Z :=
  if JS.eqn (chunk !! 0%nat) 0x7e
     && JS.eqn (chunk !! Z.to_nat (msgLength + 1)) 0x7e then
    if 0 <? msgLength then
      let thisMsg := JS.slice 0 (Z.to_nat (msgLength + 2)) chunk in
      let checksum := thisMsg !! Z.to_nat msgLength in
      if JS.neq checksum
                (Some (compute_checksum
                         [msgLength]
                         (JS.slice 2 (Z.to_nat msgLength) thisMsg)))
      then
        (s, [Log LvError [AStr "Bad checksum"; ANum checksum; AStr "for";
                          ABytes thisMsg]], Returned 1)
      else
        let '(s', ev, somethingChanged) :=
          readAndActOnMessage now msgLength checksum thisMsg s in
        match somethingChanged with
        | Returned true =>
            (s', ev ++ [Log LvDebug (AStr "State change:" :: stateToString s');
                        ChangesCallback], Returned 1)
        | Returned false => (s', ev, Returned 1)
        | Thrown error => (s', ev, Thrown error)
        end
    else (s, [], Returned 1)
  else
    (s, [Log LvError [AStr "Message with bad terminations encountered:";
                      ABytes chunk]], Returned 0).

(** [mp] more messages counted, when the call returned. *)
Definition counted (mp : Z) (result : Outcome Z) : Outcome Z :=
  match result with
  | Returned n => Returned (mp + n)
  | Thrown error => Thrown error
  end.

(** The two fields of the pending fragment. *)
Definition pending (s : SpaClient) : option (list Z) * option Z :=
  (lastIncompleteChunk s, lastChunkTimestamp s).

(** The interpreter says that something changed. *)
Definition reports_change (result : Outcome bool) : bool :=
  match result with
  | Returned changed => changed
  | Thrown _ => false
  end.

(** How often a run announced the configuration to the platform. *)
Definition config_callbacks (events : list Event) : nat :=
  length (omap (fun e => match e with
                         | SpaConfigurationKnownCallback => Some e
                         | _ => None
                         end) events).

(** The announcements a client still has to make: one until the
    configuration has been read, none after. *)
Definition config_pending (s : SpaClient) : nat :=
  if accurateConfigReadFromSpa s then 0%nat else 1%nat.

(** Socket errors one after the other, at the times of [ts]. *)
Definition socket_errors (host : string) (ts : list Z) (w : World) : World :=
  foldl (fun w t => socket_error host t w) w ts.

(** During a burst of errors that began at [t1] in a world with [c0]
    reconnects scheduled so far: no further reconnect has been scheduled, or
    one has, at some time [t0] of the burst, and it is the one waiting. *)
Definition burst_inv (host : string) (t1 : Z) (c0 : nat) (w : World) : Prop :=
  guard_inv w
  /\ (scheduled_reconnects (trace w) = c0
      \/ scheduled_reconnects (trace w) = S c0
         /\ reconnecting (client w) = true
         /\ exists t0, t1 <= t0 /\ timers w = [(t0 + 20000, ReconnectTask host)]).

(** Five errors, the last one just inside the 20 seconds. *)
Definition burst_times : list Z := [1000; 2000; 3000; 4000; 20999].

(** A fault log reply that stops after the "days ago" byte: four content
    bytes, no hour, no minute. *)
Definition short_fault_frame : list Z :=
  [0x7e; 0x09; 0x0a; 0xbf; 0x28; 0x01; 0x00; 0x10; 0x00; 0x19; 0x7e].

(** The actions a platform log shows as replayed, in order. *)
Definition replayed {Action : Type} (log : list (PlatformLog Action)) : list Action :=
  omap (fun line => match line with
                    | ReplayingAction func => Some func
                    | _ => None
                    end) log.

(** ** Bytes and bit operations *)

Lemma mod_modulo n : mod_ n 64 = n mod 64.
Proof.
  unfold mod_, JS.rem.
  pose proof (Z.rem_bound_abs n 64) as Hb.
  pose proof (Z.quot_rem' n 64) as Hq.
  set (r := Z.rem n 64) in *. set (q := n ÷ 64) in *.
  assert (Hlo : -64 < r < 64) by lia.
  rewrite Z.rem_mod_nonneg by lia.
  replace (r + 64) with (n + (1 - q) * 64) by lia.
  rewrite Z_mod_plus_full. reflexivity.
Qed.

Lemma is_byte_testbit b : is_byte b <-> 0 <= b /\ forall i, 8 <= i -> Z.testbit b i = false.
Proof.
  unfold is_byte. split.
  - intros [H0 H1]. split; [done|]. intros i Hi.
    rewrite <- (Z.mod_small b (2 ^ 8)) by lia.
    apply Z.mod_pow2_bits_high. lia.
  - intros [H0 H1]. split; [done|].
    destruct (decide (b = 0)) as [->|Hne]; [lia|].
    assert (Hlog : Z.log2 b < 8).
    { destruct (Z_lt_le_dec (Z.log2 b) 8) as [|Hge]; [done|].
      pose proof (Z.bit_log2 b ltac:(lia)) as Hbit.
      rewrite H1 in Hbit by lia. done. }
    apply Z.log2_lt_pow2 in Hlog; lia.
Qed.

Lemma is_byte_lxor a b : is_byte a -> is_byte b -> is_byte (Z.lxor a b).
Proof.
  rewrite !is_byte_testbit. intros [Ha Ha'] [Hb Hb']. split.
  - apply Z.lxor_nonneg. lia.
  - intros i Hi. rewrite Z.lxor_spec, Ha', Hb' by done. done.
Qed.

Lemma is_byte_land_ff a : is_byte (Z.land a 0xff).
Proof.
  change 0xff with (Z.ones 8). rewrite Z.land_ones by lia.
  unfold is_byte. pose proof (Z.mod_pos_bound a (2 ^ 8)). lia.
Qed.

Lemma is_byte_u8 v : is_byte (JS.u8 v).
Proof. unfold is_byte, JS.u8. pose proof (Z.mod_pos_bound v 256). lia. Qed.

Lemma u8_byte v : is_byte v -> JS.u8 v = v.
Proof. unfold is_byte, JS.u8. intros. apply Z.mod_small. lia. Qed.

Lemma is_byte_small k : 0 <= k < 64 -> is_byte k.
Proof. unfold is_byte. lia. Qed.

(** ** The encrypted checksum is a byte and reads only its first [length]
    bytes *)

Lemma crc_flush_byte crc : is_byte (crc_flush crc).
Proof.
  unfold crc_flush. cbn [foldl].
  match goal with
  | |- is_byte (if ?b then ?x else ?y) => destruct b
  end; [apply is_byte_land_ff|].
  apply is_byte_lxor; [apply is_byte_land_ff|unfold is_byte; lia].
Qed.

Lemma compute_checksum_encrypted_byte data n :
  is_byte (compute_checksum_encrypted data n).
Proof.
  unfold compute_checksum_encrypted.
  apply is_byte_lxor; [apply crc_flush_byte|unfold is_byte; lia].
Qed.

Lemma crc_data_ext d d' n : forall cur crc,
  (forall k, (cur <= k < cur + n)%nat -> d !! k = d' !! k) ->
  crc_data d cur n crc = crc_data d' cur n crc.
Proof.
  induction n as [|n IH]; intros cur crc H; [done|].
  cbn [crc_data]. rewrite (H cur) by lia. apply IH.
  intros k Hk. apply H. lia.
Qed.

Lemma compute_checksum_encrypted_ext d d' n :
  (forall k, (k < Z.to_nat n)%nat -> d !! k = d' !! k) ->
  compute_checksum_encrypted d n = compute_checksum_encrypted d' n.
Proof.
  intros H. unfold compute_checksum_encrypted.
  rewrite (crc_data_ext d d'); [done|]. intros k Hk. apply H. lia.
Qed.

Create HintDb bytes.
#[local] Hint Resolve is_byte_lxor is_byte_land_ff is_byte_u8 is_byte_small
  compute_checksum_encrypted_byte : bytes.

(** ** The cipher *)

Lemma store_length i v l : length (JS.store i v l) = length l.
Proof. apply length_insert. Qed.

Lemma store_lookup i j v (l : list Z) :
  JS.store i v l !! j =
  if decide (i = j /\ (i < length l)%nat) then Some (JS.u8 v) else l !! j.
Proof.
  unfold JS.store. case_decide as H.
  - destruct H as [-> H]. by apply list_lookup_insert_eq.
  - destruct (decide (i = j)) as [->|Hne].
    + rewrite list_insert_ge by lia. done.
    + by apply list_lookup_insert_ne.
Qed.

Lemma decrypt_loop_length n : forall i k1 k2 p,
  length (decrypt_loop n i k1 k2 p) = length p.
Proof.
  induction n as [|n IH]; intros; [done|].
  cbn [decrypt_loop]. rewrite IH. apply store_length.
Qed.

(** Byte [j] after the loop: transformed with the key of its round when the
    loop reaches it, untouched otherwise. *)

Lemma decrypt_loop_lookup n : forall i k1 k2 (p : list Z) j,
  decrypt_loop n i k1 k2 p !! j =
  if decide (i <= j < i + n)%nat
  then (fun b => JS.u8 (Z.lxor (Z.lxor b k1) ((k2 - (Z.of_nat (j - i) + 1)) mod 64)))
         <$> p !! j
  else p !! j.
Proof.
  induction n as [|n IH]; intros i k1 k2 p j.
  - cbn [decrypt_loop]. case_decide; [lia|done].
  - cbn [decrypt_loop]. rewrite IH, store_lookup, mod_modulo.
    destruct (decide (S i <= j < S i + n)%nat) as [Hin|Hout].
    + rewrite (decide_False (P := (i = j /\ _))) by lia.
      rewrite decide_True by lia.
      destruct (p !! j) as [b|]; [|done]. cbn. do 3 f_equal.
      replace (Z.of_nat (j - i)) with (Z.of_nat (j - S i) + 1) by lia.
      rewrite Zminus_mod_idemp_l. f_equal. lia.
    + destruct (decide (i = j)) as [->|Hne].
      * rewrite (decide_True (P := (_ <= _ < _)%nat)) by lia.
        case_decide as Hlt.
        -- destruct (lookup_lt_is_Some_2 p j ltac:(lia)) as [b Hb].
           rewrite Hb. cbn. do 3 f_equal.
           replace (Z.of_nat (j - j)) with 0 by lia. f_equal.
        -- rewrite lookup_ge_None_2 by lia. done.
      * rewrite (decide_False (P := (i = j /\ _))) by lia.
        rewrite decide_False by lia. done.
Qed.

Lemma toInt_Some x : JS.toInt (Some x) = x.
Proof. reflexivity. Qed.

Lemma eqn_true a b : JS.eqn a b = true <-> a = Some b.
Proof.
  destruct a as [x|]; cbn; [|split; discriminate].
  rewrite Z.eqb_eq. split; congruence.
Qed.

Lemma encrypted_frame_inv p :
  encrypted_frame p = true ->
  Forall is_byte p /\ (7 <= length p)%nat
  /\ p !! 1%nat = Some (Z.of_nat (length p) - 2)
  /\ exists c, (c = 0x19 \/ c = 0x59 \/ c = 0xdf)
       /\ forall q : list Z, q !! 4%nat = p !! 4%nat ->
            first_key q = Some (Z.lxor (JS.toInt (q !! 5%nat)) c).
Proof.
  unfold encrypted_frame. rewrite !andb_true_iff, !orb_true_iff.
  intros [[[Hb Hlen] Hty] Hdecl]. repeat split.
  - apply Forall_forall. intros b Hin. rewrite forallb_forall in Hb.
    apply list_elem_of_In in Hin. specialize (Hb b Hin).
    unfold is_byte. lia.
  - apply Nat.leb_le in Hlen. lia.
  - by apply eqn_true.
  - unfold first_key.
    destruct (JS.eqn (p !! 4%nat) 196) eqn:E1.
    { exists 0x19. split; [auto|]. intros q ->. by rewrite E1. }
    destruct (JS.eqn (p !! 4%nat) 202) eqn:E2.
    { exists 0x59. split; [auto|]. intros q ->. by rewrite E1, E2. }
    destruct (JS.eqn (p !! 4%nat) 204) eqn:E3.
    { exists 0xdf. split; [auto|]. intros q ->. by rewrite E1, E2, E3. }
    destruct Hty as [[?|?]|?]; discriminate.
Qed.

Lemma store_bytes i v l : Forall is_byte l -> Forall is_byte (JS.store i v l).
Proof. intros H. apply Forall_insert; [done|apply is_byte_u8]. Qed.

Lemma decrypt_loop_bytes n : forall i k1 k2 p,
  Forall is_byte p -> Forall is_byte (decrypt_loop n i k1 k2 p).
Proof.
  induction n as [|n IH]; intros; [done|].
  cbn [decrypt_loop]. apply IH. by apply store_bytes.
Qed.

(** [decrypt] on a frame, step by step. *)
Lemma decrypt_frame p :
  encrypted_frame p = true ->
  exists key1 q0,
    first_key p = Some key1
    /\ q0 = JS.store 5 0
              (decrypt_loop (Z.to_nat (Z.of_nat (length p) - 2 - 6)) 6 key1
                            (Z.of_nat (length p) - 2 - HEADER_LENGTH - 2) p)
    /\ decrypt p
       = JS.store (length p - 2)
                  (compute_checksum_encrypted (drop 1 q0) (Z.of_nat (length p) - 2 - 1))
                  q0.
Proof.
  intros Hf. destruct (encrypted_frame_inv p Hf) as (Hb & Hlen & Hdecl & c & Hc & Hkey).
  specialize (Hkey p eq_refl).
  eexists _, _. split; [exact Hkey|]. split; [reflexivity|].
  unfold decrypt. rewrite (proj2 (Nat.ltb_ge _ _)) by lia.
  rewrite Hkey, Hdecl, !toInt_Some.
  rewrite store_length, decrypt_loop_length. done.
Qed.

Lemma decrypt_length p : length (decrypt p) = length p.
Proof.
  unfold decrypt. destruct (_ <? _)%nat; [done|].
  destruct (first_key p); [|done].
  rewrite !store_length, decrypt_loop_length. done.
Qed.

Lemma decrypt_frame_lookup p j :
  encrypted_frame p = true ->
  (j < length p - 2)%nat ->
  decrypt p !! j =
  if decide (j = 5%nat) then Some 0
  else if decide (6 <= j)%nat
       then (fun b => JS.u8 (Z.lxor (Z.lxor b (default 0 (first_key p)))
                                    ((Z.of_nat (length p) - 4 - Z.of_nat j) mod 64)))
              <$> p !! j
       else p !! j.
Proof.
  intros Hf Hj. destruct (decrypt_frame p Hf) as (key1 & q0 & Hk & -> & ->).
  destruct (encrypted_frame_inv p Hf) as (Hb & Hlen & Hdecl & _).
  rewrite Hk. cbn [default].
  rewrite !store_lookup, !store_length, decrypt_loop_length.
  rewrite decide_False by lia.
  destruct (decide (j = 5%nat)) as [->|H5].
  - rewrite decide_True by lia. done.
  - rewrite decide_False by lia. rewrite decrypt_loop_lookup.
    destruct (decide (6 <= j)%nat) as [H6|H6].
    + rewrite decide_True by lia.
      destruct (p !! j) as [b|]; [|done]. cbn. do 4 f_equal.
      unfold HEADER_LENGTH. lia.
    + rewrite decide_False by lia. done.
Qed.

Lemma decrypt_frame_checksum p :
  encrypted_frame p = true -> checksum_consistent (decrypt p).
Proof.
  intros Hf. destruct (decrypt_frame p Hf) as (key1 & q0 & Hk & Hq0 & Hd).
  destruct (encrypted_frame_inv p Hf) as (Hb & Hlen & Hdecl & _).
  assert (Hlen0 : length q0 = length p).
  { subst q0. by rewrite store_length, decrypt_loop_length. }
  assert (H1 : decrypt p !! 1%nat = Some (Z.of_nat (length p) - 2)).
  { rewrite decrypt_frame_lookup by (done || lia).
    rewrite decide_False by lia. rewrite decide_False by lia. done. }
  unfold checksum_consistent. rewrite decrypt_length, H1, toInt_Some.
  rewrite Hd at 1. rewrite store_lookup.
  rewrite decide_True by (split; [reflexivity|lia]).
  rewrite u8_byte by apply compute_checksum_encrypted_byte.
  f_equal. apply compute_checksum_encrypted_ext.
  intros k Hk'. rewrite !lookup_drop, Hd, store_lookup.
  rewrite decide_False by lia. done.
Qed.

Lemma decrypt_frame_frame p :
  encrypted_frame p = true -> encrypted_frame (decrypt p) = true.
Proof.
  intros Hf. destruct (encrypted_frame_inv p Hf) as (Hb & Hlen & Hdecl & _).
  pose proof Hf as Hf'. unfold encrypted_frame in Hf'.
  rewrite !andb_true_iff in Hf'. destruct Hf' as [[[_ _] Hty] _].
  unfold encrypted_frame. rewrite decrypt_length.
  assert (H4 : decrypt p !! 4%nat = p !! 4%nat).
  { rewrite decrypt_frame_lookup by (done || lia).
    rewrite decide_False by lia. rewrite decide_False by lia. done. }
  assert (H1 : decrypt p !! 1%nat = p !! 1%nat).
  { rewrite decrypt_frame_lookup by (done || lia).
    rewrite decide_False by lia. rewrite decide_False by lia. done. }
  rewrite H4, H1, Hty, Hdecl. cbn [JS.eqn]. rewrite Z.eqb_refl.
  rewrite (proj2 (Nat.leb_le _ _)) by lia. rewrite !andb_true_r.
  apply forallb_forall. intros b Hin.
  assert (Hbyte : Forall is_byte (decrypt p)).
  { destruct (decrypt_frame p Hf) as (key1 & q0 & Hk & -> & ->).
    by do 2 apply store_bytes; apply decrypt_loop_bytes. }
  rewrite Forall_forall in Hbyte. apply list_elem_of_In in Hin.
  specialize (Hbyte b Hin). unfold is_byte in Hbyte. lia.
Qed.

Lemma lxor_twice b k c m :
  Z.lxor (Z.lxor (Z.lxor (Z.lxor b (Z.lxor k c)) m) (Z.lxor 0 c)) m = Z.lxor b k.
Proof.
  apply Z.bits_inj'. intros i _. rewrite !Z.lxor_spec, Z.bits_0.
  destruct (Z.testbit b i), (Z.testbit k i), (Z.testbit c i), (Z.testbit m i); reflexivity.
Qed.

Lemma payload_lookup q i :
  cipher_payload q !! i =
  if decide (Z.of_nat i < JS.toInt (q !! 1%nat) - 6) then q !! (6 + i)%nat else None.
Proof.
  unfold cipher_payload, JS.slice. case_decide as H.
  - rewrite lookup_take_lt by lia. apply lookup_drop.
  - apply lookup_take_ge. lia.
Qed.

(** Two passes leave every payload byte XORed with the key byte the frame
    carried at offset 5: the first pass zeroes that slot, so the second runs
    with another first key. *)
Lemma decrypt_decrypt_payload p :
  encrypted_frame p = true ->
  cipher_payload (decrypt (decrypt p))
  = (fun b => Z.lxor b (JS.toInt (p !! 5%nat))) <$> cipher_payload p.
Proof.
  intros Hf. pose proof (decrypt_frame_frame p Hf) as Hf1.
  destruct (encrypted_frame_inv p Hf) as (Hb & Hlen & Hdecl & c & Hc & Hkey).
  assert (H1 : decrypt p !! 1%nat = p !! 1%nat).
  { rewrite decrypt_frame_lookup by (done || lia).
    rewrite decide_False by lia. rewrite decide_False by lia. done. }
  assert (H4 : decrypt p !! 4%nat = p !! 4%nat).
  { rewrite decrypt_frame_lookup by (done || lia).
    rewrite decide_False by lia. rewrite decide_False by lia. done. }
  assert (H11 : decrypt (decrypt p) !! 1%nat = p !! 1%nat).
  { rewrite decrypt_frame_lookup by (rewrite ?decrypt_length; done || lia).
    rewrite decide_False by lia. rewrite decide_False by lia. done. }
  apply list_eq. intros i.
  rewrite list_lookup_fmap, !payload_lookup, H11, Hdecl, toInt_Some.
  case_decide as Hi; [|done].
  rewrite decrypt_frame_lookup by (rewrite ?decrypt_length; done || lia).
  rewrite decide_False by lia. rewrite decide_True by lia.
  rewrite decrypt_frame_lookup by (done || lia).
  rewrite decide_False by lia. rewrite decide_True by lia.
  rewrite decrypt_length.
  assert (H5 : decrypt p !! 5%nat = Some 0).
  { rewrite decrypt_frame_lookup by (done || lia). by rewrite decide_True. }
  rewrite (Hkey (decrypt p) H4), (Hkey p eq_refl), H5, toInt_Some.
  destruct (lookup_lt_is_Some_2 p (6 + i) ltac:(lia)) as [b Hbi].
  rewrite Hbi. cbn [fmap option_fmap option_map default].
  assert (Hbb : is_byte b) by (eapply Forall_lookup_1; eauto).
  assert (Hk5 : is_byte (JS.toInt (p !! 5%nat))).
  { destruct (lookup_lt_is_Some_2 p 5 ltac:(lia)) as [k Hk].
    rewrite Hk, toInt_Some. eapply Forall_lookup_1; eauto. }
  assert (Hcb : is_byte c) by (unfold is_byte; lia).
  assert (H0b : is_byte 0) by (unfold is_byte; lia).
  set (m := (Z.of_nat (length p) - 4 - Z.of_nat (6 + i)) mod 64).
  assert (Hm : is_byte m).
  { apply is_byte_small. subst m. apply Z.mod_pos_bound. lia. }
  f_equal. unfold id.
  rewrite (u8_byte (Z.lxor (Z.lxor b _) m)) by auto with bytes.
  rewrite u8_byte by auto 6 with bytes.
  apply lxor_twice.
Qed.

Lemma payload_fmap_id (l : list Z) : (fun b => Z.lxor b 0) <$> l = l.
Proof.
  induction l as [|x l IH]; [done|]. cbn. by rewrite Z.lxor_0_r, IH.
Qed.

(** ** The outbound path *)

(** The loop of [sendMessageToSpa] that copies type and payload into the
    message. *)
Lemma copy_bytes_lookup (bytes : list Z) n : forall a (m : list Z) j,
  foldl (fun m i => JS.store (2 + i) (JS.toInt (bytes !! i)) m) m (seq a n) !! j
  = if decide ((2 + a <= j < 2 + a + n)%nat /\ (j < length m)%nat)
    then Some (JS.u8 (JS.toInt (bytes !! (j - 2)%nat)))
    else m !! j.
Proof.
  induction n as [|n IH]; intros a m j.
  - cbn. rewrite decide_False by lia. done.
  - cbn [seq foldl]. rewrite IH, store_length, store_lookup.
    destruct (decide (2 + a = j)%nat) as [<-|Hne].
    + rewrite (decide_False (P := ((2 + S a <= _ < _)%nat /\ _))) by lia.
      destruct (decide (2 + a < length m)%nat).
      * rewrite !decide_True by lia. do 4 f_equal. lia.
      * rewrite !decide_False by lia. done.
    + rewrite (decide_False (P := ((2 + a)%nat = j /\ _))) by lia.
      destruct (decide ((2 + S a <= j < 2 + S a + n)%nat /\ (j < length m)%nat)).
      * rewrite decide_True by lia. done.
      * rewrite decide_False by lia. done.
Qed.

Lemma copy_bytes_length (bytes : list Z) (l : list nat) : forall m : list Z,
  length (foldl (fun m i => JS.store (2 + i) (JS.toInt (bytes !! i)) m) m l)
  = length m.
Proof.
  induction l as [|x l IH]; intros m; [done|].
  cbn [foldl]. rewrite IH. apply store_length.
Qed.

(** Offset 4 of the plain message is the last byte of the type. *)
Lemma plain_message_type a b c payload :
  is_byte c -> plain_message [a; b; c] payload !! 4%nat = Some c.
Proof.
  intros Hc. unfold plain_message, concat.
  set (bytes := [a; b; c] ++ payload).
  assert (Hlb : length bytes = (3 + length payload)%nat) by done.
  rewrite !store_lookup.
  change (foldl _ _ _) with
    (foldl (fun m i => JS.store (2 + i) (JS.toInt (bytes !! i)) m)
           (JS.store 1 (Z.of_nat (length bytes) + 2)
              (JS.store 0 126
                 (replicate (Z.to_nat (Z.of_nat (length bytes) + 2 + 2)) 0)))
           (seq 0 (length bytes))).
  set (m0 := JS.store 1 _ _).
  assert (Hl0 : length m0 = (7 + length payload)%nat).
  { subst m0. rewrite !store_length, length_replicate. lia. }
  set (m1 := foldl _ m0 _).
  assert (Hl1 : length m1 = (7 + length payload)%nat).
  { subst m1. by rewrite copy_bytes_length. }
  rewrite !store_length, Hl1.
  rewrite decide_False by lia. rewrite decide_False by lia.
  subst m1. rewrite copy_bytes_lookup, decide_True by lia.
  cbn. by rewrite u8_byte.
Qed.

Lemma wire_packet_None a b c payload :
  is_byte c -> etypes !! c = None -> wire_packet [a; b; c] payload = None.
Proof.
  intros Hc He. unfold wire_packet.
  rewrite plain_message_type by done. cbn [mbind option_bind]. by rewrite He.
Qed.

Lemma wire_packet_is_Some a b c payload :
  is_byte c -> is_Some (etypes !! c) -> is_Some (wire_packet [a; b; c] payload).
Proof.
  intros Hc [e He]. unfold wire_packet.
  rewrite plain_message_type by done. cbn [mbind option_bind]. rewrite He. eauto.
Qed.

(** A type outside the table never reaches [socket.write]: [sendMessageToSpa]
    returns at [if (etypes[packet_type] == undefined) return]. *)
Lemma sendMessageToSpa_not_encryptable purpose a b c payload s :
  is_byte c -> c <> 0x11 -> c <> 0x17 -> c <> 0x1a -> c <> 0x1b -> c <> 0x20 ->
  sendMessageToSpa purpose [a; b; c] payload s = [].
Proof.
  intros Hc H1 H2 H3 H4 H5. unfold sendMessageToSpa.
  rewrite wire_packet_None; [done|done|].
  unfold etypes. cbn [list_to_map foldr uncurry fst snd].
  by rewrite !lookup_insert_ne, lookup_empty.
Qed.

(** A press of a pump or temperature button is logged as sent, once. *)
Lemma sendMessageToSpa_commands purpose a b c payload s :
  is_byte c -> is_Some (etypes !! c) ->
  length (commands_sent purpose (sendMessageToSpa purpose [a; b; c] payload s)) = 1%nat.
Proof.
  intros Hc He. unfold sendMessageToSpa.
  destruct (wire_packet_is_Some a b c payload Hc He) as [pkt ->].
  unfold commands_sent. cbn [omap list_omap].
  rewrite bool_decide_eq_true_2 by done.
  destruct (socket s); reflexivity.
Qed.

(** ** What the outbound path puts on the wire *)

Lemma replicate_bytes n : Forall is_byte (replicate n 0).
Proof. apply Forall_replicate. unfold is_byte. lia. Qed.

Lemma copy_bytes_bytes (bytes : list Z) (l : list nat) : forall m : list Z,
  Forall is_byte m ->
  Forall is_byte (foldl (fun m i => JS.store (2 + i) (JS.toInt (bytes !! i)) m) m l).
Proof.
  induction l as [|x l IH]; intros m Hm; [done|].
  cbn [foldl]. apply IH. by apply store_bytes.
Qed.

Lemma plain_message_bytes type payload : Forall is_byte (plain_message type payload).
Proof.
  unfold plain_message. do 2 apply store_bytes. apply copy_bytes_bytes.
  do 2 apply store_bytes. apply replicate_bytes.
Qed.

Lemma plain_message_length type payload :
  length (plain_message type payload) = (length type + length payload + 4)%nat.
Proof.
  unfold plain_message, concat.
  rewrite !store_length, copy_bytes_length, !store_length, length_replicate, length_app.
  lia.
Qed.

(** The plain message, byte by byte, up to its checksum. *)
Lemma plain_message_lookup type payload j :
  (j < length type + length payload + 2)%nat ->
  plain_message type payload !! j =
  if decide (j = 0%nat) then Some 0x7e
  else if decide (j = 1%nat)
       then Some (JS.u8 (Z.of_nat (length type + length payload) + 2))
       else Some (JS.u8 (JS.toInt ((type ++ payload) !! (j - 2)%nat))).
Proof.
  intros Hj. unfold plain_message, concat.
  set (bytes := type ++ payload).
  assert (Hlb : length bytes = (length type + length payload)%nat)
    by (subst bytes; apply length_app).
  set (m0 := JS.store 1 _ _).
  assert (Hl0 : length m0 = (length bytes + 4)%nat).
  { subst m0. rewrite !store_length, length_replicate. lia. }
  set (m1 := foldl _ m0 _).
  assert (Hl1 : length m1 = (length bytes + 4)%nat).
  { subst m1. by rewrite copy_bytes_length. }
  rewrite !store_lookup, !store_length, Hl1.
  rewrite decide_False by lia. rewrite decide_False by lia.
  subst m1. rewrite copy_bytes_lookup.
  destruct (decide (j = 0%nat)) as [->|H0].
  { rewrite decide_False by lia. subst m0. rewrite !store_lookup.
    rewrite decide_False by lia. rewrite decide_True; [done|].
    split; [done|]. rewrite length_replicate. lia. }
  destruct (decide (j = 1%nat)) as [->|H1].
  { rewrite decide_False by lia. subst m0. rewrite !store_lookup.
    rewrite decide_True; [by rewrite Hlb, Nat2Z.inj_add|].
    split; [done|]. rewrite store_length, length_replicate. lia. }
  rewrite decide_True by lia. done.
Qed.


Lemma etypes_lookup c e : etypes !! c = Some e -> e = 0xcc /\ is_byte c.
Proof.
  unfold etypes. cbn [list_to_map foldr uncurry fst snd]. intros H.
  repeat (rewrite lookup_insert in H; case_decide;
          [simplify_eq; split; [reflexivity|unfold is_byte; lia]|]).
  rewrite lookup_empty in H. discriminate.
Qed.

Lemma bytes_forallb (l : list Z) :
  Forall is_byte l -> forallb (fun b => (0 <=? b) && (b <? 256)) l = true.
Proof.
  intros H. apply forallb_forall. intros b Hin. rewrite Forall_forall in H.
  apply list_elem_of_In in Hin. specialize (H b Hin). unfold is_byte in H. lia.
Qed.

Lemma wire_packet_keyed a b c payload e :
  etypes !! c = Some e ->
  wire_packet [a; b; c] payload
  = Some (JS.store (length (decrypt (keyed_message [a; b; c] payload e)) - 2)
            (compute_checksum_encrypted
               (drop 1 (decrypt (keyed_message [a; b; c] payload e)))
               (JS.toInt (keyed_message [a; b; c] payload e !! 1%nat) - 1))
            (decrypt (keyed_message [a; b; c] payload e))).
Proof.
  intros He. destruct (etypes_lookup c e He) as [_ Hc].
  unfold wire_packet. rewrite plain_message_type by done.
  cbn [mbind option_bind]. rewrite He. reflexivity.
Qed.

Lemma keyed_message_length type payload e :
  length (keyed_message type payload e) = (length type + length payload + 5)%nat.
Proof.
  unfold keyed_message, concat, JS.slice.
  rewrite store_length, !length_app, length_take, length_drop, length_drop,
    store_length, plain_message_length.
  cbn [length]. lia.
Qed.

Lemma keyed_message_bytes type payload e : Forall is_byte (keyed_message type payload e).
Proof.
  unfold keyed_message, concat, JS.slice. apply store_bytes.
  pose proof (store_bytes 4 e _ (plain_message_bytes type payload)) as H.
  repeat apply Forall_app_2.
  - by apply Forall_take, Forall_drop.
  - repeat constructor; lia.
  - by apply Forall_drop.
Qed.

Lemma keyed_message_lookup a b c payload e j :
  (length payload <= 249)%nat -> is_byte e ->
  (j < length payload + 6)%nat ->
  keyed_message [a; b; c] payload e !! j =
  if decide (j = 1%nat) then Some (Z.of_nat (length payload) + 6)
  else if decide (j = 4%nat) then Some e
  else if decide (j = 5%nat) then Some 0
  else if decide (j < 4)%nat then plain_message [a; b; c] payload !! j
  else plain_message [a; b; c] payload !! (j - 1)%nat.
Proof.
  intros Hp He Hj. unfold keyed_message, concat, JS.slice.
  set (msg := plain_message [a; b; c] payload).
  assert (Hlm : length msg = (length payload + 7)%nat).
  { subst msg. rewrite plain_message_length. cbn [length]. lia. }
  set (msg' := JS.store 4 e msg).
  assert (Hlm' : length msg' = (length payload + 7)%nat)
    by (subst msg'; by rewrite store_length).
  assert (Htake : length (take (5 - 0) (drop 0 msg')) = 5%nat).
  { rewrite length_take, length_drop. lia. }
  assert (Hlook : forall i, ((take (5 - 0) (drop 0 msg') ++ [0]) ++ drop 5 msg') !! i
                  = if decide (i < 5)%nat then msg' !! i
                    else if decide (i = 5%nat) then Some 0
                    else msg' !! (i - 1)%nat).
  { intros i. destruct (decide (i < 5)%nat).
    - rewrite lookup_app_l by (rewrite length_app, Htake; cbn; lia).
      rewrite lookup_app_l by lia.
      rewrite lookup_take_lt by lia. by rewrite lookup_drop.
    - destruct (decide (i = 5%nat)) as [->|].
      + rewrite lookup_app_l by (rewrite length_app, Htake; cbn; lia).
        rewrite lookup_app_r by lia. rewrite Htake. done.
      + rewrite lookup_app_r by (rewrite length_app, Htake; cbn; lia).
        rewrite length_app, Htake, lookup_drop. cbn [length]. f_equal. lia. }
  rewrite store_lookup, !length_app, Htake, length_drop, Hlm'. cbn [length].
  rewrite !Hlook.
  destruct (decide (j = 1%nat)) as [->|H1].
  { rewrite decide_True by lia. rewrite decide_True by lia.
    subst msg'. rewrite store_lookup, decide_False by lia.
    subst msg. rewrite plain_message_lookup by (cbn [length]; lia).
    rewrite decide_False by lia. rewrite decide_True by lia.
    cbn [length JS.toInt default from_option id]. f_equal.
    unfold JS.u8. rewrite (Z.mod_small (_ + 2)) by lia.
    rewrite Z.mod_small by lia. lia. }
  rewrite decide_False by lia.
  destruct (decide (j = 4%nat)) as [->|H4].
  { rewrite decide_True by lia. subst msg'. rewrite store_lookup.
    rewrite decide_True by lia. by rewrite u8_byte. }
  destruct (decide (j = 5%nat)) as [->|H5].
  { rewrite decide_False by lia. done. }
  destruct (decide (j < 4)%nat).
  - rewrite decide_True by lia. subst msg'. rewrite store_lookup.
    rewrite decide_False by lia. done.
  - rewrite decide_False by lia.
    subst msg'. rewrite store_lookup. rewrite decide_False by lia. done.
Qed.

Lemma keyed_message_frame a b c payload e :
  etypes !! c = Some e -> (length payload <= 249)%nat ->
  encrypted_frame (keyed_message [a; b; c] payload e) = true
  /\ keyed_message [a; b; c] payload e !! 5%nat = Some 0.
Proof.
  intros He Hp. destruct (etypes_lookup c e He) as [-> Hc].
  assert (Hcc : is_byte 204) by (unfold is_byte; lia).
  split.
  - unfold encrypted_frame.
    rewrite (bytes_forallb _ (keyed_message_bytes _ _ _)).
    rewrite keyed_message_length. cbn [length].
    rewrite !keyed_message_lookup by (done || lia).
    rewrite (decide_False (P := (4 = 1)%nat)) by lia.
    rewrite !decide_True by reflexivity.
    cbn [JS.eqn]. rewrite (proj2 (Nat.leb_le _ _)) by lia.
    rewrite (proj2 (Z.eqb_eq (Z.of_nat (length payload) + 6) _)) by lia.
    reflexivity.
  - rewrite keyed_message_lookup by (done || lia).
    rewrite decide_False by lia. rewrite decide_False by lia.
    by rewrite decide_True.
Qed.

Lemma keyed_message_payload a b c payload e :
  etypes !! c = Some e -> (length payload <= 249)%nat -> Forall is_byte payload ->
  cipher_payload (keyed_message [a; b; c] payload e) = payload.
Proof.
  intros He Hp Hb. destruct (etypes_lookup c e He) as [-> Hc].
  assert (Hcc : is_byte 204) by (unfold is_byte; lia).
  apply list_eq. intros i. rewrite payload_lookup.
  rewrite (keyed_message_lookup a b c payload 204 1) by (done || lia).
  rewrite (decide_True (P := (1 = 1)%nat)) by done. rewrite toInt_Some.
  case_decide as Hi.
  - rewrite keyed_message_lookup by (done || lia).
    rewrite decide_False by lia. rewrite decide_False by lia.
    rewrite decide_False by lia. rewrite decide_False by lia.
    rewrite plain_message_lookup by (cbn [length]; lia).
    rewrite decide_False by lia. rewrite decide_False by lia.
    replace (6 + i - 1 - 2)%nat with (3 + i)%nat by lia.
    change (([a; b; c] ++ payload) !! (3 + i)%nat) with (payload !! i).
    destruct (lookup_lt_is_Some_2 payload i ltac:(lia)) as [x Hx].
    rewrite Hx, toInt_Some, u8_byte; [done|].
    eapply Forall_lookup_1; eauto.
  - symmetry. apply lookup_ge_None_2. lia.
Qed.

(** What [sendMessageToSpa] writes is [decrypt] of the keyed message: its
    closing checksum store repeats the one [decrypt] has made. *)
Lemma wire_packet_decrypt_keyed a b c payload e :
  etypes !! c = Some e -> (length payload <= 249)%nat ->
  wire_packet [a; b; c] payload = Some (decrypt (keyed_message [a; b; c] payload e)).
Proof.
  intros He Hp. rewrite (wire_packet_keyed a b c payload e He). f_equal.
  destruct (keyed_message_frame a b c payload e He Hp) as [Hf _].
  pose proof (decrypt_frame_checksum _ Hf) as Hcs.
  unfold checksum_consistent in Hcs.
  assert (H1 : decrypt (keyed_message [a; b; c] payload e) !! 1%nat
               = keyed_message [a; b; c] payload e !! 1%nat).
  { rewrite decrypt_frame_lookup; [|done|rewrite keyed_message_length; cbn; lia].
    rewrite decide_False by lia. rewrite decide_False by lia. done. }
  rewrite H1 in Hcs. unfold JS.store.
  rewrite u8_byte by apply compute_checksum_encrypted_byte.
  by apply list_insert_id.
Qed.

(** Decrypting what [sendMessageToSpa] encrypts gives the payload back: the
    key byte it puts in is 0. *)
Lemma wire_packet_decrypts a b c payload e :
  etypes !! c = Some e -> (length payload <= 249)%nat -> Forall is_byte payload ->
  exists w, wire_packet [a; b; c] payload = Some w
            /\ encrypted_frame w = true
            /\ w !! 5%nat = Some 0
            /\ cipher_payload (decrypt w) = payload.
Proof.
  intros He Hp Hb.
  destruct (keyed_message_frame a b c payload e He Hp) as [Hf H5].
  exists (decrypt (keyed_message [a; b; c] payload e)).
  split; [by apply wire_packet_decrypt_keyed|].
  split; [by apply decrypt_frame_frame|]. split.
  - rewrite decrypt_frame_lookup; [by rewrite decide_True|done|].
    rewrite keyed_message_length. cbn [length]. lia.
  - rewrite decrypt_decrypt_payload, H5, toInt_Some, payload_fmap_id by done.
    by apply keyed_message_payload.
Qed.

(** ** C1: the cipher applied twice *)

Example decrypt_typical_c4 :
  JS.slice 5 38 (decrypt typical_c4)
  = [0x00; 0x0d; 0x00; 0x00; 0x08; 0x0a; 0xb9; 0xf2; 0x07; 0x00; 0x60; 0x02;
     0x38; 0x18; 0x50; 0x1d; 0x61; 0x00; 0x01; 0x17; 0x08; 0x0d; 0x2d; 0x08;
     0xb1; 0x00; 0x00; 0x6a; 0x62; 0x38; 0x38; 0x38; 0x00].
Proof. vm_compute. reflexivity. Qed.

Example wire_packet_pump_press :
  wire_packet SetPumpRequest [4] = Some pump_press_packet.
Proof. vm_compute. reflexivity. Qed.

(** C1, as stated, fails: for the encrypted status packet quoted in the
    source, whose key byte at offset 5 is 0x1f, two passes of [decrypt] do not
    give the payload back. *)
Lemma decrypt_twice_counterexample :
  ~ (forall p, encrypted_frame p = true ->
               cipher_payload (decrypt (decrypt p)) = cipher_payload p
               /\ checksum_consistent (decrypt p)
               /\ checksum_consistent (decrypt (decrypt p))).
Proof.
  intros H. destruct (H typical_c4 eq_refl) as [Hp _].
  vm_compute in Hp. discriminate Hp.
Qed.

(** C1, amended: for every well-formed encrypted frame, two passes of the
    XOR transform leave each payload byte XORed with the key byte the frame
    carried at offset 5, so they return the original payload when that key
    byte is 0 (as in every frame [sendMessageToSpa] encrypts, see
    [wire_packet_decrypts], and in every frame already decrypted once); after
    either pass the byte at
    [length - 2] is the encrypted checksum recomputed over the frame. *)
Theorem decrypt_twice p :
  encrypted_frame p = true ->
  cipher_payload (decrypt (decrypt p))
  = (fun b => Z.lxor b (JS.toInt (p !! 5%nat))) <$> cipher_payload p
  /\ (p !! 5%nat = Some 0 -> cipher_payload (decrypt (decrypt p)) = cipher_payload p)
  /\ checksum_consistent (decrypt p)
  /\ checksum_consistent (decrypt (decrypt p)).
Proof.
  intros Hf. pose proof (decrypt_decrypt_payload p Hf) as Hp.
  split; [exact Hp|]. split.
  - intros H5. rewrite Hp, H5, toInt_Some. apply payload_fmap_id.
  - split; apply decrypt_frame_checksum; [|apply decrypt_frame_frame]; exact Hf.
Qed.

Lemma decrypt_twice_witness :
  encrypted_frame pump_press_packet = true
  /\ cipher_payload (decrypt (decrypt pump_press_packet)) = cipher_payload pump_press_packet.
Proof.
  split; [reflexivity|].
  destruct (decrypt_twice pump_press_packet eq_refl) as (_ & H & _).
  apply H. reflexivity.
Defined.

(** ** C2: frames outside the table *)

(** C2 at the fault log request that [send_request_for_faults_log] issues
    every ten minutes (type [0a bf 22], not in the table): the plain frame is
    built, checksum and all, and then nothing is written, connected or not. *)
Theorem fault_request_not_sent s :
  plain_message PrimaryRequest GetFaultsMessageContents
  = [0x7e; 0x08; 0x0a; 0xbf; 0x22; 0x20; 0xff; 0x00; 0xcb; 0x7e]
  /\ sendMessageToSpa "Checking for any Spa faults" PrimaryRequest
                      GetFaultsMessageContents s = []
  /\ socket_writes (sendMessageToSpa "Checking for any Spa faults" PrimaryRequest
                                     GetFaultsMessageContents s) = [].
Proof.
  split; [vm_compute; reflexivity|].
  assert (H : sendMessageToSpa "Checking for any Spa faults" PrimaryRequest
                               GetFaultsMessageContents s = []).
  { apply sendMessageToSpa_not_encryptable; unfold is_byte; lia. }
  rewrite H. done.
Qed.

Lemma forallb_bytes f :
  forallb (fun b => (0 <=? b) && (b <? 256)) f = true -> Forall is_byte f.
Proof.
  intros Hb. apply Forall_forall. intros b Hin. rewrite forallb_forall in Hb.
  apply list_elem_of_In in Hin. specialize (Hb b Hin). unfold is_byte. lia.
Qed.

(** The fuel of [socket_loop] never runs out: any amount that covers the
    chunk gives the same result. *)
Lemma socket_loop_fuel now : forall fuel fuel' chunk s mp,
  Forall is_byte chunk ->
  (length chunk <= fuel)%nat -> (length chunk <= fuel')%nat ->
  socket_loop fuel now chunk s mp = socket_loop fuel' now chunk s mp.
Proof.
  induction fuel as [|fuel IH]; intros fuel' chunk s mp Hb Hf Hf'.
  - destruct chunk; [|cbn in Hf; lia]. by destruct fuel'.
  - destruct fuel' as [|fuel'].
    { destruct chunk; [done|cbn in Hf'; lia]. }
    cbn [socket_loop].
    destruct (length chunk =? 0)%nat eqn:E0; [done|].
    destruct (length chunk <? 2)%nat eqn:E2; [done|].
    apply Nat.ltb_ge in E2.
    destruct (lookup_lt_is_Some_2 chunk 1 ltac:(lia)) as [m Hm].
    rewrite Hm, toInt_Some.
    assert (Hmb : is_byte m) by (eapply Forall_lookup_1; eauto).
    destruct (_ <? m) eqn:Em; [done|].
    destruct (if JS.eqn (chunk !! 0%nat) 126 && _ then _ else _)
      as [[s1 ev1] [mp1|error]]; [|done].
    rewrite (IH fuel'); [done| | |].
    + by apply Forall_drop.
    + rewrite length_drop. unfold is_byte in Hmb. lia.
    + rewrite length_drop. unfold is_byte in Hmb. lia.
Qed.

Lemma clear_pending now chunk s :
  idle s ->
  set_lastChunkTimestamp None
    (set_lastIncompleteChunk None
       (set_lastChunkTimestamp (Some now) (set_lastIncompleteChunk (Some chunk) s)))
  = s.
Proof. intros [H1 H2]. destruct s. cbn in *. by subst. Qed.

(** A chunk that holds the length byte but not yet the whole frame is put
    aside, and nothing else happens. *)
Lemma incomplete_chunk_buffered now f k s :
  wellformed_frame f = true -> idle s -> (2 <= k < length f)%nat ->
  readAndActOnSocketContents now (take k f) s
  = (set_lastChunkTimestamp (Some now) (set_lastIncompleteChunk (Some (take k f)) s),
     [], Returned 0).
Proof.
  intros Hw [Hi1 Hi2] Hk. unfold wellformed_frame in Hw.
  rewrite !andb_true_iff in Hw. destruct Hw as [[[[[Hb Hlen] H0] H1] _] _].
  apply eqn_true in H1.
  unfold readAndActOnSocketContents. rewrite Hi1.
  assert (Hl : length (take k f) = k) by (rewrite length_take; lia).
  rewrite Hl. destruct k as [|k]; [lia|]. cbn [socket_loop].
  rewrite Hl. rewrite (proj2 (Nat.eqb_neq _ _)) by lia.
  rewrite (proj2 (Nat.ltb_ge _ _)) by lia.
  rewrite lookup_take_lt by lia. rewrite H1, toInt_Some.
  rewrite (proj2 (Z.ltb_lt _ _)) by lia. done.
Qed.

(** ** C3: a frame that arrives in two chunks *)

Example typical_c4_wellformed : wellformed_frame typical_c4 = true.
Proof. vm_compute. reflexivity. Qed.

(** C3, as stated, fails for a split after the first byte: the one byte
    chunk is logged as very short and dropped, not buffered, and the rest no
    longer parses as the frame.  The whole status packet sets the current
    temperature, its two chunks do not. *)
Lemma split_after_first_byte_counterexample :
  ~ (forall f k now1 now2 s,
       wellformed_frame f = true -> idle s -> (0 < k < length f)%nat ->
       Z.abs (now1 - now2) < 1000 ->
       feed_twice now1 (take k f) now2 (drop k f) s
       = readAndActOnSocketContents now2 f s).
Proof.
  intros H.
  specialize (H typical_c4 1%nat 0 0 (new_client 0) eq_refl (conj eq_refl eq_refl)).
  assert (Hk : (0 < 1 < length typical_c4)%nat) by (cbn; lia).
  specialize (H Hk eq_refl).
  apply (f_equal (fun r => currentTemp r.1.1)) in H.
  vm_compute in H. discriminate H.
Qed.

(** C3, amended: for every well-formed frame split at a position that leaves
    at least the first two bytes (sentinel and length) in the first chunk,
    feeding the two chunks less than 1 second apart gives exactly the state,
    events and message count of feeding the whole frame when the second chunk
    arrives; feeding the second
    chunk 1 second or more after the first discards the buffered fragment with
    a warning, and the second chunk is then parsed as if it had arrived on its
    own, so nothing is decoded from the fragment. *)
Theorem split_frame f k now1 now2 s :
  wellformed_frame f = true -> idle s -> (2 <= k < length f)%nat ->
  (Z.abs (now1 - now2) < 1000 ->
   feed_twice now1 (take k f) now2 (drop k f) s
   = readAndActOnSocketContents now2 f s)
  /\ (1000 <= Z.abs (now1 - now2) ->
      feed_twice now1 (take k f) now2 (drop k f) s
      = let '(s2, ev, n) := readAndActOnSocketContents now2 (drop k f) s in
        (s2, discarded_warning (take k f) :: ev, n)).
Proof.
  intros Hw Hi Hk. unfold feed_twice.
  rewrite (incomplete_chunk_buffered now1 f k s Hw Hi Hk).
  unfold readAndActOnSocketContents at 1 3.
  cbn [lastIncompleteChunk lastChunkTimestamp set_lastChunkTimestamp
       set_lastIncompleteChunk].
  change (mkSpaClient _ _ _ _ _ _ _ _ _ _ _ _ _ _ _ _ _ _ _ _ _ _ _ _ _ _ _ _ _ _ _ _ _ _ _ _)
    with (set_lastChunkTimestamp None
            (set_lastIncompleteChunk None
               (set_lastChunkTimestamp (Some now1)
                  (set_lastIncompleteChunk (Some (take k f)) s)))).
  rewrite (clear_pending now1 (take k f) s Hi).
  destruct Hi as [Hi1 Hi2]. unfold readAndActOnSocketContents. rewrite Hi1.
  split; intros Ht.
  - rewrite (proj2 (Z.ltb_lt _ _)) by lia.
    unfold concat. rewrite take_drop.
    destruct (socket_loop _ _ _ _ _) as [[s2 ev2] [n2|error]]; done.
  - rewrite (proj2 (Z.ltb_ge _ _)) by lia.
    destruct (socket_loop _ _ _ _ _) as [[s2 ev2] [n2|error]]; done.
Qed.

Lemma split_frame_witness :
  feed_twice 0 (take 20 typical_c4) 500 (drop 20 typical_c4) (new_client 0)
  = readAndActOnSocketContents 500 typical_c4 (new_client 0).
Proof.
  assert (Hk : (2 <= 20 < length typical_c4)%nat) by (cbn; lia).
  apply (proj1 (split_frame typical_c4 20 0 500 (new_client 0) eq_refl
                            (conj eq_refl eq_refl) Hk)).
  reflexivity.
Defined.

(** ** The command engine *)

Lemma commands_sent_app purpose ev1 ev2 :
  commands_sent purpose (ev1 ++ ev2)
  = commands_sent purpose ev1 ++ commands_sent purpose ev2.
Proof. apply omap_app. Qed.


Lemma SetTargetTempRequest_commands payload s :
  length (commands_sent "SetTargetTempRequest"
            (sendMessageToSpa "SetTargetTempRequest" SetTargetTempRequest payload s))
  = 1%nat.
Proof.
  apply sendMessageToSpa_commands; [unfold is_byte; lia|].
  eexists. reflexivity.
Qed.

Section CommandEngine.

(** What the rest of the program does to the state during the waits. *)
Variable env : nat -> SpaClient -> SpaClient.


(** Name the result of the recursive call of [settemp_loop] and bring the
    induction hypothesis for it. *)
Ltac settemp_next IH :=
  match goal with
  | |- context [settemp_loop ?n ?i ?env ?temp ?changed ?previous ?orig ?s] =>
      let H := fresh "Hnext" in
      pose proof (IH i changed previous s) as H;
      destruct (settemp_loop n i env temp changed previous orig s);
      cbn [fst snd] in *
  end.

(** Every way out of the loop of [setTargetTemperature] clears the
    override. *)
Lemma settemp_loop_clears temp original_temp : forall n i changed previous s,
  targetTempOverride
    (settemp_loop n i env temp changed previous original_temp s).1 = None.
Proof.
  induction n as [|n IH]; intros i changed previous s; [done|].
  cbn [settemp_loop].
  destruct changed; [destruct (1 <=? _); [|destruct (_ <=? -1)]|];
    try settemp_next IH; done.
Qed.

(** At the setpoint the loop returns at once. *)
Lemma settemp_loop_at_setpoint temp original_temp n i previous s :
  JS.toInt (setTemp s) = temp ->
  settemp_loop (S n) i env temp true previous original_temp s
  = (set_targetTempOverride None s, []).
Proof.
  intros H. cbn [settemp_loop]. rewrite H, Z.sub_diag. done.
Qed.

(** A round presses a button at most once. *)
Lemma settemp_loop_commands temp original_temp : forall n i changed previous s,
  (length (commands_sent "SetTargetTempRequest"
             (settemp_loop n i env temp changed previous original_temp s).2)
   <= n)%nat.
Proof.
  induction n as [|n IH]; intros i changed previous s; [done|].
  cbn [settemp_loop].
  destruct changed; [destruct (1 <=? _); [|destruct (_ <=? -1)]|];
    try settemp_next IH; try (cbn; lia).
  all: rewrite commands_sent_app, length_app.
  3: change (commands_sent "SetTargetTempRequest" []) with (@nil (list Z)); cbn [length]; lia.
  all: change (commands_sent ?p (Log LvDebug [AStr "Changing temperature.  Current set temp: "; ?a] :: ?l))
         with (commands_sent p l).
  all: rewrite SetTargetTempRequest_commands; lia.
Qed.

End CommandEngine.

(** ** C4: the temperature override and the set point *)

Example wire_packet_temp_up :
  wire_packet SetTargetTempRequest [0x01] = Some temp_up_packet.
Proof. vm_compute. reflexivity. Qed.

(** Whatever happens during the waits, [setTargetTemperature] returns with
    [targetTempOverride] undefined (at the set point it compares with, on
    convergence and when the 60 rounds are used up), and it never presses
    more than 60 times. *)
Lemma setTargetTemperature_override_cleared env temp s :
  targetTempOverride (setTargetTemperature env temp s).1 = None
  /\ (length (commands_sent "SetTargetTempRequest"
                (setTargetTemperature env temp s).2) <= 60)%nat.
Proof.
  unfold setTargetTemperature. split; [apply settemp_loop_clears|].
  apply settemp_loop_commands.
Qed.

(** The first round presses "temperature up" when the desired temperature
    is above the set point the loop compares with. *)
Lemma settemp_loop_press_up env temp original_temp n i previous s :
  1 <= temp - JS.toInt (setTemp s) ->
  head (commands_sent "SetTargetTempRequest"
          (settemp_loop (S n) i env temp true previous original_temp s).2)
  = Some temp_up_packet.
Proof.
  intros H. cbn [settemp_loop].
  rewrite (proj2 (Z.leb_le 1 _)) by lia.
  destruct (settemp_loop n (S i) env temp _ _ _ _) as [s' ev'].
  cbn [snd]. unfold sendMessageToSpa. rewrite wire_packet_temp_up.
  vm_compute. reflexivity.
Qed.

(** C4: the override half holds, the other half does not.  Every return
    path of [setTargetTemperature] leaves [targetTempOverride] undefined.
    But the set point it compares the desired temperature with is
    [targetTempModeLow ?? targetTempModeHigh ?? 0], whatever the range: for a
    client in high range that has a low set point on record, a request for
    the current set point (the one [getTargetTemp] reports) starts by
    pressing "temperature up", and a request for the low set point, which is
    not the current one, sends nothing at all. *)
Theorem setTargetTemperature_stale_setpoint env s high low :
  tempRangeIsHigh s = true -> targetTempOverride s = None ->
  targetTempModeHigh s = Some high -> targetTempModeLow s = Some low ->
  low < high ->
  getTargetTemp s = Some high
  /\ head (commands_sent "SetTargetTempRequest" (setTargetTemperature env high s).2)
     = Some temp_up_packet
  /\ (setTargetTemperature env low s).2 = []
  /\ (forall temp s', targetTempOverride (setTargetTemperature env temp s').1 = None).
Proof.
  intros Hr Ho Hh Hl Hlt.
  assert (Hset : JS.toInt (setTemp (set_targetTempOverride (Some high) s)) = low
                 /\ JS.toInt (setTemp (set_targetTempOverride (Some low) s)) = low).
  { unfold setTemp. cbn [targetTempModeLow set_targetTempOverride]. by rewrite Hl. }
  destruct Hset as [Hs1 Hs2].
  split; [|split; [|split]].
  - unfold getTargetTemp. by rewrite Ho, Hr, Hh.
  - unfold setTargetTemperature. change 60%nat with (S 59).
    apply settemp_loop_press_up. lia.
  - unfold setTargetTemperature. change 60%nat with (S 59).
    by rewrite settemp_loop_at_setpoint.
  - intros temp s'. apply setTargetTemperature_override_cleared.
Qed.

Lemma setTargetTemperature_stale_setpoint_witness :
  getTargetTemp both_ranges_seen = Some 100
  /\ head (commands_sent "SetTargetTempRequest"
             (setTargetTemperature deaf_spa 100 both_ranges_seen).2)
     = Some temp_up_packet
  /\ (setTargetTemperature deaf_spa 97 both_ranges_seen).2 = [].
Proof.
  destruct (setTargetTemperature_stale_setpoint deaf_spa both_ranges_seen 100 97)
    as (H1 & H2 & H3 & _); [reflexivity|reflexivity|reflexivity|reflexivity|lia|].
  split; [exact H1|]. split; [exact H2|exact H3].
Defined.

(** The three ways out, on runs: the setpoint climbs from 96 to 100 in four
    presses; a spa that ignores the presses is pressed once and given up
    after the 60 rounds; in both the override is gone at the end. *)
Example setTargetTemperature_converges :
  let r := setTargetTemperature (obedient_spa 100) 100
             (set_targetTempModeLow (Some 96) (new_client 0)) in
  targetTempOverride r.1 = None /\ targetTempModeLow r.1 = Some 100
  /\ length (commands_sent "SetTargetTempRequest" r.2) = 4%nat.
Proof. vm_compute. repeat split; reflexivity. Qed.

Example setTargetTemperature_gives_up :
  let r := setTargetTemperature deaf_spa 100
             (set_targetTempModeLow (Some 96) (new_client 0)) in
  targetTempOverride r.1 = None /\ targetTempModeLow r.1 = Some 96
  /\ length (commands_sent "SetTargetTempRequest" r.2) = 1%nat.
Proof. vm_compute. repeat split; reflexivity. Qed.

(** ** C5: High to Low on a two speed pump *)



(** ** The decoders *)

Lemma readStateFromBytes_currentTemp bytes s :
  currentTemp (readStateFromBytes bytes s).1
  = if JS.eqn (bytes !! 15%nat) 255 then None else bytes !! 15%nat.
Proof.
  unfold readStateFromBytes. cbn [fst tempRangeIsHigh set_tempRangeIsHigh
    set_receivedStateUpdate set_currentTemp set_heatingMode set_isHeatingNow
    set_isFilterMode set_pumpsCurrentSpeed set_tempChangeMode].
  destruct (Z.land _ 4 =? 0); reflexivity.
Qed.

Lemma readStateFromBytes_targetTempModeHigh bytes s :
  targetTempModeHigh (readStateFromBytes bytes s).1
  = if Z.land (JS.toInt (bytes !! 10%nat)) 4 =? 0
    then targetTempModeHigh s else bytes !! 21%nat.
Proof.
  unfold readStateFromBytes. cbn [fst tempRangeIsHigh set_tempRangeIsHigh
    set_receivedStateUpdate set_currentTemp set_heatingMode set_isHeatingNow
    set_isFilterMode set_pumpsCurrentSpeed set_tempChangeMode].
  destruct (Z.land _ 4 =? 0); reflexivity.
Qed.

Lemma readStateFromBytes_pumps bytes s :
  pumpsCurrentSpeed (readStateFromBytes bytes s).1
  = <[2 := Z.shiftr (Z.land (JS.toInt (bytes !! 8%nat)) 0x0c) 2]>
      (<[1 := let jet1 := Z.land (Z.shiftr (JS.toInt (bytes !! 10%nat)) 3) 3 in
              if jet1 =? 1 then 0 else if jet1 =? 0 then 1 else 2]>
         (pumpsCurrentSpeed s))
  /\ pumpsSpeedRange (readStateFromBytes bytes s).1 = pumpsSpeedRange s.
Proof.
  unfold readStateFromBytes. cbn [fst tempRangeIsHigh set_tempRangeIsHigh
    set_receivedStateUpdate set_currentTemp set_heatingMode set_isHeatingNow
    set_isFilterMode set_pumpsCurrentSpeed set_tempChangeMode pumpsCurrentSpeed].
  destruct (Z.land _ 4 =? 0); split; reflexivity.
Qed.

(** The speed invariant where it does hold: at construction, across the
    capability reply and across [setPumpSpeed] on a pump that has a range. *)
Lemma constructor_speeds_in_range host sock now yesterday :
  pump_speeds_in_range (constructor host sock now yesterday).1.
Proof.
  intros i c. cbn [constructor get_socket set_socket pumpsCurrentSpeed
                   pumpsSpeedRange list_to_map foldr uncurry fst snd].
  intros H.
  repeat (rewrite lookup_insert in H; case_decide;
          [simplify_eq; eexists; split; [vm_compute; reflexivity|lia]|]).
  rewrite lookup_empty in H. discriminate.
Qed.

Lemma interpretControlTypesReply_speeds s :
  pump_speeds_in_range s -> pump_speeds_in_range (interpretControlTypesReply s).1.1.
Proof.
  unfold interpretControlTypesReply. destruct (accurateConfigReadFromSpa s); done.
Qed.

Lemma press_loop_inv (P : SpaClient -> Prop) env index desiredSpeed pumpcode :
  (forall i s, P s -> P (env i s)) ->
  forall n i s, P s -> P (press_loop n i env index desiredSpeed pumpcode s).1.
Proof.
  intros Henv. induction n as [|n IH]; intros i s Hs; [done|].
  cbn [press_loop]. specialize (IH (S i) (env i s) (Henv i s Hs)).
  destruct (press_loop n (S i) env index desiredSpeed pumpcode (env i s)). done.
Qed.

Lemma setPumpSpeed_speeds env index desiredSpeed s :
  (forall i s', pumpsSpeedRange (env i s') = pumpsSpeedRange s') ->
  (forall i s', pump_speeds_in_range s' -> pump_speeds_in_range (env i s')) ->
  is_Some (pumpsSpeedRange s !! (index - 1)) ->
  pump_speeds_in_range s ->
  pump_speeds_in_range (setPumpSpeed env index desiredSpeed s).1.
Proof.
  intros Hrange Henv [r Hr] Hs. unfold setPumpSpeed. rewrite Hr.
  cbn [JS.eqn JS.gt]. destruct (r =? 0) eqn:E0; [done|].
  destruct (r <? desiredSpeed) eqn:Egt; [done|].
  apply Z.eqb_neq in E0. apply Z.ltb_ge in Egt.
  set (d := if isFilterMode s && (index - 1 =? 1) && (desiredSpeed =? 0)
            then _ else _).
  assert (Hd : d.1 <= r).
  { subst d. destruct (isFilterMode s && (index - 1 =? 1) && (desiredSpeed =? 0)) eqn:E.
    - rewrite !andb_true_iff in E. destruct E as [_ E]. apply Z.eqb_eq in E.
      cbn. lia.
    - done. }
  destruct d as [desired ev0]. cbn [fst] in Hd.
  set (s0 := set_pumpsOverrideSpeed _ s).
  pose proof (press_loop_inv
                (fun s' => pump_speeds_in_range s' /\ pumpsSpeedRange s' = pumpsSpeedRange s)
                env (index - 1) desired [JS.u8 (index - 1 + 3)]) as Hloop.
  specialize (Hloop ltac:(intros i s' [H1 H2]; split; [by apply Henv|by rewrite Hrange])).
  specialize (Hloop (Z.to_nat (JS.toInt (timesToRun (index - 1) desired s0))) 0%nat s0
                    (conj Hs eq_refl)).
  destruct (press_loop _ 0 env (index - 1) desired _ s0) as [s1 ev].
  cbn [fst] in *. destruct Hloop as [Hs1 Hr1].
  intros i c. cbn [pumpsCurrentSpeed pumpsSpeedRange set_pumpsCurrentSpeed
                   set_pumpsOverrideSpeed].
  rewrite Hr1, lookup_insert. case_decide as Hi.
  - subst i. intros [= <-]. eauto.
  - intros Hc. destruct (Hs1 i c Hc) as (r' & Hr' & Hle). rewrite Hr1 in Hr'. eauto.
Qed.

(** ** The reconnect guard *)

Lemma scheduled_reconnects_app ev1 ev2 :
  scheduled_reconnects (ev1 ++ ev2)
  = (scheduled_reconnects ev1 + scheduled_reconnects ev2)%nat.
Proof. unfold scheduled_reconnects, schedule. by rewrite omap_app, length_app. Qed.

Lemma shutdownSpaConnection_guard s :
  reconnecting (shutdownSpaConnection s).1 = reconnecting s
  /\ forall now, schedule now (shutdownSpaConnection s).2 = [].
Proof.
  unfold shutdownSpaConnection. destruct s as [].
  cbn [faultCheckIntervalId stateUpdateCheckIntervalId socket
       set_isCurrentlyConnectedToSpa set_faultCheckIntervalId
       set_stateUpdateCheckIntervalId set_socket].
  repeat case_match; simplify_eq; split; reflexivity.
Qed.

Lemma get_socket_guard host sock s :
  reconnecting (get_socket host sock s).1 = reconnecting s
  /\ forall now, schedule now (get_socket host sock s).2 = [].
Proof.
  unfold get_socket. destruct (isCurrentlyConnectedToSpa s); split; reflexivity.
Qed.

Lemma schedule_app now ev1 ev2 :
  schedule now (ev1 ++ ev2) = schedule now ev1 ++ schedule now ev2.
Proof. apply omap_app. Qed.

(** The error listener: with the guard down it raises it and sets one timer,
    with the guard up it sets none. *)
Lemma on_error_guard host s :
  reconnecting (on_error host s).1 = true
  /\ forall now,
       schedule now (on_error host s).2
       = if reconnecting s then [] else [(now + 20000, ReconnectTask host)].
Proof.
  unfold on_error. destruct (shutdownSpaConnection_guard s) as [Hr Hs].
  destruct (shutdownSpaConnection s) as [s1 ev1]. cbn [fst snd] in *.
  unfold reconnect. rewrite Hr.
  destruct (reconnecting s) eqn:E; cbn [negb fst snd]; (split; [done|]).
  - intros now.
    change (Log ?l ?a :: ev1 ++ []) with ([Log l a] ++ ev1 ++ []).
    rewrite !schedule_app, Hs. reflexivity.
  - intros now.
    change (Log ?l ?a :: ev1 ++ ?e) with ([Log l a] ++ ev1 ++ e).
    rewrite !schedule_app, Hs. reflexivity.
Qed.

(** ** C6: pump speeds and their range *)

Example status_bytes_decrypted : status_bytes = decrypt typical_c4.
Proof. vm_compute. reflexivity. Qed.

Example pump3_high_frame_encrypted :
  pump3_high_frame = decrypt (<[8%nat := 0x08]> status_bytes).
Proof. vm_compute. reflexivity. Qed.

Example pump3_high_frame_wellformed : wellformed_frame pump3_high_frame = true.
Proof. vm_compute. reflexivity. Qed.

(** C6 at a status frame whose byte 8 carries "2" in the two bits of pump 3:
    [readStateFromBytes] stores the speed 2 for the pump at index 2, whose
    declared range is 1, so the invariant that holds at construction is lost;
    the same happens when the frame comes in through the socket. *)
Theorem status_frame_speed_out_of_range :
  pump_speeds_in_range (new_client 0)
  /\ (let s := (readStateFromBytes (decrypt pump3_high_frame) (new_client 0)).1 in
      pumpsCurrentSpeed s !! 2 = Some 2 /\ pumpsSpeedRange s !! 2 = Some 1
      /\ ~ pump_speeds_in_range s)
  /\ (let s := (readAndActOnSocketContents 1000 pump3_high_frame (new_client 0)).1.1 in
      pumpsCurrentSpeed s !! 2 = Some 2 /\ pumpsSpeedRange s !! 2 = Some 1).
Proof.
  split; [apply constructor_speeds_in_range|]. split.
  - assert (H1 : pumpsCurrentSpeed
                   (readStateFromBytes (decrypt pump3_high_frame) (new_client 0)).1
                 !! 2 = Some 2) by (vm_compute; reflexivity).
    assert (H2 : pumpsSpeedRange
                   (readStateFromBytes (decrypt pump3_high_frame) (new_client 0)).1
                 !! 2 = Some 1) by (vm_compute; reflexivity).
    cbv zeta. split; [exact H1|]. split; [exact H2|].
    intros H. destruct (H 2 2 H1) as (r & Hr & Hle).
    rewrite H2 in Hr. inversion Hr. lia.
  - cbv zeta. split; vm_compute; reflexivity.
Qed.

(** ** C7: fault codes and flow health *)

(** C7, as stated, fails for a fault that is not of today: with "days ago"
    at 1 and code 16, flow health is Good and nothing is reported changed. *)
Lemma readFaults_old_fault_counterexample :
  ~ (forall bytes s,
       flow (readFaults bytes s).1.1 = flow_for_code (bytes !! 2%nat)
       /\ (readFaults bytes s).2 = Returned (alerting_code (bytes !! 2%nat))).
Proof.
  intros H. destruct (H [1; 0; 16; 1; 12; 30; 0; 100; 100; 100] (new_client 0)) as [_ H2].
  vm_compute in H2. discriminate H2.
Qed.

(** Contents that carry the hour and the minute of the fault are always
    answered: [readFaults] returns. *)
Lemma readFaults_returns bytes s :
  (6 <= length bytes)%nat -> exists changed, (readFaults bytes s).2 = Returned changed.
Proof.
  intros Hl.
  destruct (lookup_lt_is_Some_2 bytes 4 ltac:(lia)) as [h Hh].
  destruct (lookup_lt_is_Some_2 bytes 5 ltac:(lia)) as [m Hm].
  unfold readFaults. rewrite Hh, Hm. cbn [timeToString].
  destruct (JS.gt _ _); [|destruct (_ || _); [|destruct (_ || _)]];
    destruct (negb _); eexists; reflexivity.
Qed.

(** Shorter contents that are not the ones seen last throw, after the flow
    has been set. *)
Lemma readFaults_throws bytes s :
  (length bytes < 6)%nat -> bytes <> lastFaultBytes s ->
  (readFaults bytes s).2 = Thrown "TypeError".
Proof.
  intros Hl Hne.
  assert (Hm : bytes !! 5%nat = None) by (apply lookup_ge_None_2; lia).
  assert (Ht : timeToString (bytes !! 4%nat) (bytes !! 5%nat) = None).
  { rewrite Hm. by destruct (bytes !! 4%nat). }
  unfold readFaults. rewrite Ht.
  assert (He : forall s', lastFaultBytes s' = lastFaultBytes s ->
                 negb (equal (lastFaultBytes s') (lastFaultBytes (set_lastFaultBytes bytes s')))
                 = true).
  { intros s' ->. cbn [lastFaultBytes set_lastFaultBytes]. unfold equal.
    rewrite bool_decide_eq_false_2; [done|congruence]. }
  destruct (JS.gt _ _); [|destruct (_ || _); [|destruct (_ || _)]];
    rewrite He by reflexivity; reflexivity.
Qed.

(** C7, amended: for every fault-log frame that carries the time of the
    fault (six content bytes or more) and whose "days ago" byte is not above
    0, [readFaults] sets flow health to Low for the codes 16 and 28, to
    Failed for 17, 27 and 30 and to Good for every other code, and returns
    true exactly for those five codes; for a fault of an earlier day (days ago
    above 0) it sets flow health to Good and returns false, whatever the
    code. *)
Theorem readFaults_flow bytes s :
  (6 <= length bytes)%nat ->
  (JS.gt (bytes !! 3%nat) (Some 0) = false ->
   flow (readFaults bytes s).1.1 = flow_for_code (bytes !! 2%nat)
   /\ (readFaults bytes s).2 = Returned (alerting_code (bytes !! 2%nat)))
  /\ (JS.gt (bytes !! 3%nat) (Some 0) = true ->
      flow (readFaults bytes s).1.1 = FLOW_GOOD
      /\ (readFaults bytes s).2 = Returned false).
Proof.
  intros Hl.
  destruct (lookup_lt_is_Some_2 bytes 4 ltac:(lia)) as [h Hh].
  destruct (lookup_lt_is_Some_2 bytes 5 ltac:(lia)) as [m Hm].
  unfold readFaults, flow_for_code, alerting_code. rewrite Hh, Hm.
  cbn [timeToString].
  split; intros Hd; rewrite Hd.
  - destruct (JS.eqn (bytes !! 2%nat) 16), (JS.eqn (bytes !! 2%nat) 28),
      (JS.eqn (bytes !! 2%nat) 17), (JS.eqn (bytes !! 2%nat) 27),
      (JS.eqn (bytes !! 2%nat) 30); cbn [orb]; destruct (negb _);
      split; reflexivity.
  - destruct (negb _); split; reflexivity.
Qed.

Lemma readFaults_flow_witness :
  flow (readFaults [1; 0; 16; 0; 12; 30; 0; 100; 100; 100] (new_client 0)).1.1
  = FLOW_LOW
  /\ flow (readFaults [1; 0; 16; 1; 12; 30; 0; 100; 100; 100] (new_client 0)).1.1
     = FLOW_GOOD.
Proof.
  split.
  - apply (proj1 (readFaults_flow [1; 0; 16; 0; 12; 30; 0; 100; 100; 100]
                                  (new_client 0) ltac:(cbn; lia))).
    reflexivity.
  - apply (proj2 (readFaults_flow [1; 0; 16; 1; 12; 30; 0; 100; 100; 100]
                                  (new_client 0) ltac:(cbn; lia))).
    reflexivity.
Defined.

(** ** C8: the current temperature *)

(** C8: after a status frame with byte 15 at 255 [getCurrentTemp] is
    undefined, and after a following one with byte 15 at 70 it is 70. *)
Theorem currentTemp_unknown_then_known bytes1 bytes2 s :
  bytes1 !! 15%nat = Some 255 ->
  bytes2 !! 15%nat = Some 70 ->
  getCurrentTemp (readStateFromBytes bytes1 s).1 = None
  /\ getCurrentTemp
       (readStateFromBytes bytes2 (readStateFromBytes bytes1 s).1).1 = Some 70.
Proof.
  intros H1 H2. unfold getCurrentTemp.
  rewrite !readStateFromBytes_currentTemp, H1, H2. done.
Qed.

Lemma currentTemp_unknown_then_known_witness :
  getCurrentTemp
    (readStateFromBytes (<[15%nat := 255]> status_bytes) (new_client 0)).1
  = None
  /\ getCurrentTemp
       (readStateFromBytes
          (<[15%nat := 70]> status_bytes)
          (readStateFromBytes (<[15%nat := 255]> status_bytes)
                              (new_client 0)).1).1
     = Some 70.
Proof.
  apply (currentTemp_unknown_then_known
           (<[15%nat := 255]> status_bytes)
           (<[15%nat := 70]> status_bytes) (new_client 0));
    reflexivity.
Defined.

(** The same through [readAndActOnMessage]: for a frame of the status type,
    the byte that counts is byte 15 after decryption. *)
Lemma readAndActOnMessage_currentTemp now len checksum chunk s :
  JS.slice 2 5 chunk = StateReply ->
  getCurrentTemp (readAndActOnMessage now len checksum chunk s).1.1
  = if JS.eqn (decrypt chunk !! 15%nat) 255 then None else decrypt chunk !! 15%nat.
Proof.
  intros Ht. unfold readAndActOnMessage. rewrite Ht.
  change (equal StateReply StateReply) with true. cbv iota.
  pose proof (readStateFromBytes_currentTemp (decrypt chunk) s) as Hc.
  destruct (readStateFromBytes (decrypt chunk) s) as [s1 changed].
  cbn [fst] in Hc.
  assert (Hi : currentTemp (interpretControlTypesReply s1).1.1 = currentTemp s1).
  { unfold interpretControlTypesReply. by destruct (accurateConfigReadFromSpa s1). }
  destruct (negb (initialSetup s1)).
  - destruct (interpretControlTypesReply s1) as [[s2 ev] b]. cbn [fst] in Hi.
    unfold getCurrentTemp.
    destruct (spaLastUpdated s2 <=? now - 60000); cbn [fst currentTemp set_spaLastUpdated];
      rewrite Hi, Hc; by destruct (JS.eqn _ 255), (decrypt chunk !! 15%nat).
  - unfold getCurrentTemp.
    destruct (spaLastUpdated s1 <=? now - 60000); cbn [fst currentTemp set_spaLastUpdated];
      rewrite Hc; by destruct (JS.eqn _ 255), (decrypt chunk !! 15%nat).
Qed.


(** ** C10: the range query *)

(** C10: [getTempRangeIsHigh] is true exactly when [targetTempModeHigh] is
    defined; it does not read the flag [tempRangeIsHigh]; and once a status
    frame that carries a set temperature (byte 21) has been decoded in high
    range, it stays true across all later status frames of that size,
    whatever range they report. *)
Theorem getTempRangeIsHigh_sticky :
  (forall s, getTempRangeIsHigh s = true <-> targetTempModeHigh s <> None)
  /\ (forall s b, getTempRangeIsHigh (set_tempRangeIsHigh b s) = getTempRangeIsHigh s)
  /\ (forall bytes later s,
        (21 < length bytes)%nat -> high_range bytes ->
        Forall (fun f => (21 < length f)%nat) later ->
        getTempRangeIsHigh (read_states later (readStateFromBytes bytes s).1) = true).
Proof.
  split; [|split].
  - intros s. unfold getTempRangeIsHigh. destruct (targetTempModeHigh s); split; done.
  - reflexivity.
  - intros bytes later s Hlen Hhigh Hlater.
    assert (H0 : is_Some (targetTempModeHigh (readStateFromBytes bytes s).1)).
    { rewrite readStateFromBytes_targetTempModeHigh.
      unfold high_range in Hhigh. rewrite (proj2 (Z.eqb_neq _ _) Hhigh).
      by apply lookup_lt_is_Some_2. }
    generalize dependent (readStateFromBytes bytes s).1. clear Hhigh Hlen.
    induction Hlater as [|f later Hf _ IH]; intros s0 H0.
    + unfold getTempRangeIsHigh. cbn. by destruct H0 as [? ->].
    + cbn [read_states foldl]. apply IH.
      rewrite readStateFromBytes_targetTempModeHigh.
      destruct (_ =? 0); [done|]. by apply lookup_lt_is_Some_2.
Qed.

Lemma getTempRangeIsHigh_sticky_witness :
  getTempRangeIsHigh
    (read_states [<[10%nat := 0x00]> status_bytes]
       (readStateFromBytes (<[10%nat := 0x04]> status_bytes)
                           (new_client 0)).1) = true.
Proof.
  apply (proj2 (proj2 getTempRangeIsHigh_sticky)).
  - apply Nat.ltb_lt. vm_compute. reflexivity.
  - unfold high_range. vm_compute. discriminate.
  - repeat constructor.
Defined.

(** ** The reconnect guard in the event loop *)

Lemma quiet_dec t w : guard_inv w ->
  quiet t w
  \/ reconnecting (client w) = false /\ timers w = []
  \/ exists d task, reconnecting (client w) = true
                    /\ timers w = [(d, task)] /\ d <= t.
Proof.
  unfold guard_inv, quiet. destruct (reconnecting (client w)).
  - destruct (timers w) as [|[d task] [|y l]]; cbn [length]; intros H.
    + left. split; [done|constructor].
    + destruct (decide (t < d)).
      * left. split; [done|]. by repeat constructor.
      * right. right. exists d, task. repeat split; lia.
    + lia.
  - intros ->. right. left. done.
Qed.

(** An error while the guard is up and no timer is due changes neither the
    guard nor the timers. *)
Lemma socket_error_quiet host t w :
  clock w <= t -> guard_inv w -> quiet t w ->
  let w' := socket_error host t w in
  clock w' = t /\ reconnecting (client w') = true
  /\ timers w' = timers w
  /\ scheduled_reconnects (trace w') = scheduled_reconnects (trace w).
Proof.
  intros Hc Hg [Hr Hq]. unfold guard_inv in Hg. rewrite Hr in Hg.
  unfold socket_error, advance.
  assert (Hdue : filter (fun '(d, _) => d <= t) (timers w) = []
                 /\ filter (fun '(d, _) => ~ d <= t) (timers w) = timers w).
  { destruct (timers w) as [|[d task] [|y l]]; cbn [length] in Hg; [done| |lia].
    inversion Hq as [|? ? Hd _]; subst. cbn [fst] in Hd.
    rewrite !filter_cons, !filter_nil.
    rewrite decide_False by lia. rewrite decide_True by lia. done. }
  destruct Hdue as [-> ->]. cbn [fire client clock timers trace nextSocket].
  destruct (on_error_guard host (client w)) as [Hr' Hs].
  destruct (on_error host (client w)) as [s ev]. cbn [fst snd] in *.
  cbn [client clock timers trace]. repeat split; [lia|done| |].
  - rewrite (Hs (Z.max t (clock w))), Hr. apply app_nil_r.
  - rewrite scheduled_reconnects_app. unfold scheduled_reconnects at 2.
    rewrite (Hs 0), Hr. cbn. lia.
Qed.

(** An error while the guard is down, or after the waiting reconnect has
    run, schedules one reconnect, 20 seconds ahead. *)
Lemma socket_error_schedules host t w :
  clock w <= t -> guard_inv w -> ~ quiet t w ->
  let w' := socket_error host t w in
  clock w' = t /\ reconnecting (client w') = true
  /\ timers w' = [(t + 20000, ReconnectTask host)]
  /\ scheduled_reconnects (trace w') = S (scheduled_reconnects (trace w)).
Proof.
  intros Hc Hg Hnq.
  destruct (quiet_dec t w Hg) as [Hq|[[Hr Ht]|(d & task & Hr & Ht & Hd)]]; [done| |].
  - unfold socket_error, advance. rewrite Ht, !filter_nil.
    cbn [fire client clock timers trace nextSocket].
    destruct (on_error_guard host (client w)) as [Hr' Hs].
    destruct (on_error host (client w)) as [s ev]. cbn [fst snd] in *.
    cbn [client clock timers trace]. repeat split; [lia|done| |].
    + rewrite (Hs (Z.max t (clock w))), Hr. cbn [app]. do 2 f_equal. lia.
    + rewrite scheduled_reconnects_app. unfold scheduled_reconnects at 2.
      rewrite (Hs 0), Hr. cbn. lia.
  - unfold socket_error, advance. rewrite Ht, !filter_cons, !filter_nil.
    rewrite decide_True by lia. rewrite decide_False by lia.
    cbn [fire client clock timers trace nextSocket].
    destruct task as [host']. cbn [run_task].
    destruct (get_socket_guard host' (nextSocket w) (client w)) as [_ Hgs].
    destruct (get_socket host' (nextSocket w) (client w)) as [s0 ev0].
    cbn [fst snd client clock timers trace nextSocket] in *.
    destruct (on_error_guard host (set_reconnecting false s0)) as [Hr' Hs].
    destruct (on_error host (set_reconnecting false s0)) as [s ev].
    cbn [fst snd reconnecting set_reconnecting] in *.
    cbn [client clock timers trace]. repeat split; [lia|done| |].
    + rewrite (Hs (Z.max t (clock w))). cbn [app]. do 2 f_equal. lia.
    + rewrite !scheduled_reconnects_app. unfold scheduled_reconnects at 2 3.
      rewrite (Hs 0), (Hgs 0). cbn. lia.
Qed.

(** The guard and the timer list stay in step. *)
Lemma socket_error_guard_inv host t w :
  clock w <= t -> guard_inv w -> guard_inv (socket_error host t w).
Proof.
  intros Hc Hg. destruct (quiet_dec t w Hg) as [Hq|Hnq].
  - destruct (socket_error_quiet host t w Hc Hg Hq) as (_ & Hr & Ht & _).
    unfold guard_inv in *. rewrite Hr, Ht. destruct Hq as [Hq _].
    by rewrite Hq in Hg.
  - assert (Hn : ~ quiet t w).
    { intros [Hr Hq]. destruct Hnq as [[Hr' _]|(d & task & _ & Ht & Hd)].
      - congruence.
      - rewrite Ht in Hq. inversion Hq as [|? ? Hd' _]; subst. cbn in Hd'. lia. }
    destruct (socket_error_schedules host t w Hc Hg Hn) as (_ & Hr & Ht & _).
    unfold guard_inv. rewrite Hr, Ht. cbn. lia.
Qed.

Lemma quiet_or_not t w : guard_inv w -> quiet t w \/ ~ quiet t w.
Proof.
  intros Hg. destruct (quiet_dec t w Hg) as [Hq|Hnq]; [by left|right].
  intros [Hr Hq]. destruct Hnq as [[Hr' _]|(d & task & _ & Ht & Hd)].
  - congruence.
  - rewrite Ht in Hq. inversion Hq as [|? ? Hd' _]; subst. cbn in Hd'. lia.
Qed.

(** Once a reconnect has been scheduled at [t0], every error before it is
    due finds the guard up. *)
Lemma scheduled_then_quiet host t0 t w :
  reconnecting (client w) = true ->
  timers w = [(t0 + 20000, ReconnectTask host)] ->
  t < t0 + 20000 -> quiet t w.
Proof.
  intros Hr Ht Hlt. split; [done|]. rewrite Ht. repeat constructor. cbn. lia.
Qed.

Lemma socket_error_step host t w :
  clock w <= t -> guard_inv w -> error_step host t w (socket_error host t w).
Proof.
  intros Hc Hg. split; [by apply socket_error_guard_inv|].
  destruct (quiet_or_not t w Hg) as [Hq|Hq].
  - destruct (socket_error_quiet host t w Hc Hg Hq) as (H1 & H2 & H3 & H4).
    repeat split; try done. left. done.
  - destruct (socket_error_schedules host t w Hc Hg Hq) as (H1 & H2 & H3 & H4).
    repeat split; try done. right. done.
Qed.

(** Three errors within 20 seconds of the first: at most one of them finds
    the guard down or a timer due. *)
Lemma three_error_steps host t1 t2 t3 w w1 w2 w3 :
  t1 <= t2 -> t2 <= t3 -> t3 < t1 + 20000 ->
  error_step host t1 w w1 -> error_step host t2 w1 w2 -> error_step host t3 w2 w3 ->
  (scheduled_reconnects (trace w3) <= scheduled_reconnects (trace w) + 1)%nat
  /\ (length (timers w3) <= 1)%nat.
Proof.
  intros H12 H23 H31 (Hg1 & Hc1 & Hr1 & Hs1) (Hg2 & Hc2 & Hr2 & Hs2)
         (Hg3 & Hc3 & Hr3 & Hs3).
  split.
  - destruct Hs1 as [(_ & Ht1 & Hn1)|(_ & Ht1 & Hn1)].
    + destruct Hs2 as [(_ & Ht2 & Hn2)|(_ & Ht2 & Hn2)].
      * destruct Hs3 as [(_ & _ & Hn3)|(_ & _ & Hn3)]; lia.
      * pose proof (scheduled_then_quiet host t2 t3 w2 Hr2 Ht2 ltac:(lia)) as Hq.
        destruct Hs3 as [(_ & _ & Hn3)|(Hnq & _)]; [lia|contradiction].
    + pose proof (scheduled_then_quiet host t1 t2 w1 Hr1 Ht1 ltac:(lia)) as Hq2.
      destruct Hs2 as [(_ & Ht2 & Hn2)|(Hnq & _)]; [|contradiction].
      rewrite Ht1 in Ht2.
      pose proof (scheduled_then_quiet host t1 t3 w2 Hr2 Ht2 ltac:(lia)) as Hq3.
      destruct Hs3 as [(_ & _ & Hn3)|(Hnq & _)]; [lia|contradiction].
  - unfold guard_inv in Hg3. rewrite Hr3 in Hg3. exact Hg3.
Qed.

(** ** C9: one reconnect for a burst of errors *)

(** C9: from a world where guard and timers agree, three socket errors at
    times within 20 seconds of the first schedule at most one reconnect, and
    at most one reconnect is waiting afterwards; while [reconnecting] is set
    [reconnect] does nothing, and the timer it set lowers the guard when it
    runs. *)
Theorem three_errors_one_reconnect host t1 t2 t3 w :
  guard_inv w -> clock w <= t1 -> t1 <= t2 -> t2 <= t3 -> t3 < t1 + 20000 ->
  (let w' := socket_error host t3 (socket_error host t2 (socket_error host t1 w)) in
   (scheduled_reconnects (trace w') <= scheduled_reconnects (trace w) + 1)%nat
   /\ (length (timers w') <= 1)%nat)
  /\ (forall s, reconnecting s = true -> reconnect host s = (s, []))
  /\ (forall sock s, reconnecting (run_task (ReconnectTask host) sock s).1 = false).
Proof.
  intros Hg Hc H12 H23 H31. split; [|split].
  - pose proof (socket_error_step host t1 w Hc Hg) as H1.
    assert (Hc1 : clock (socket_error host t1 w) <= t2).
    { destruct H1 as (_ & -> & _). exact H12. }
    pose proof (socket_error_step host t2 _ Hc1 (proj1 H1)) as H2.
    assert (Hc2 : clock (socket_error host t2 (socket_error host t1 w)) <= t3).
    { destruct H2 as (_ & -> & _). exact H23. }
    pose proof (socket_error_step host t3 _ Hc2 (proj1 H2)) as H3.
    exact (three_error_steps host t1 t2 t3 _ _ _ _ H12 H23 H31 H1 H2 H3).
  - intros s Hs. unfold reconnect. by rewrite Hs.
  - intros sock s. cbn [run_task].
    destruct (get_socket host sock s). reflexivity.
Qed.

Lemma three_errors_one_reconnect_witness :
  (scheduled_reconnects
     (trace (socket_error "spa" 3000 (socket_error "spa" 2000
               (socket_error "spa" 1000 (initial_world 0)))))
   <= scheduled_reconnects (trace (initial_world 0)) + 1)%nat.
Proof.
  assert (Hg : guard_inv (initial_world 0)) by reflexivity.
  assert (Hc : clock (initial_world 0) <= 1000) by (cbn; lia).
  apply (proj1 (proj1 (three_errors_one_reconnect
                         "spa" 1000 2000 3000 (initial_world 0) Hg Hc
                         ltac:(lia) ltac:(lia) ltac:(lia)))).
Defined.

(** * Further properties *)

(** ** The two checksums *)

Lemma all_bytes_byte b : is_byte b -> In b all_bytes.
Proof.
  intros Hb. unfold all_bytes. apply list_elem_of_In, list_elem_of_fmap.
  exists (Z.to_nat b). split; [unfold is_byte in Hb; lia|].
  apply list_elem_of_In, in_seq. unfold is_byte in Hb. lia.
Qed.

(** The bit-serial step of [compute_checksum_encrypted] on one byte is a
    flush followed by an XOR with the byte: checked on every pair of bytes. *)
Lemma crc_byte_check :
  forallb (fun c =>
             forallb (fun d => crc_byte c (Some d) =? Z.lxor (crc_flush c) d)
                     all_bytes)
          all_bytes = true.
Proof. vm_compute. reflexivity. Qed.

Lemma crc_byte_flush c d :
  is_byte c -> is_byte d -> crc_byte c (Some d) = Z.lxor (crc_flush c) d.
Proof.
  intros Hc Hd. pose proof crc_byte_check as H.
  rewrite forallb_forall in H.
  specialize (H c (all_bytes_byte c Hc)). rewrite forallb_forall in H.
  specialize (H d (all_bytes_byte d Hd)). by apply Z.eqb_eq.
Qed.

Lemma crc_byte_byte c d : is_byte (crc_byte c d).
Proof. unfold crc_byte. apply is_byte_land_ff. Qed.

Lemma crc8_byte_flush c b :
  crc8_byte c b = crc_flush (Z.land (Z.lxor c b) 0xff).
Proof. reflexivity. Qed.

Lemma land_ff_byte x : is_byte x -> Z.land x 0xff = x.
Proof.
  intros Hx. change 0xff with (Z.ones 8). rewrite Z.land_ones by lia.
  apply Z.mod_small. unfold is_byte in Hx. lia.
Qed.

(** The augmented register, flushed, is the direct register. *)
Lemma crc_data_crc8 data : forall n cur crc,
  Forall is_byte data -> is_byte crc -> (cur + n <= length data)%nat ->
  crc_flush (crc_data data cur n crc)
  = crc8 (take n (drop cur data)) (crc_flush crc).
Proof.
  induction n as [|n IH]; intros cur crc Hb Hc Hlen.
  - by rewrite take_0.
  - cbn [crc_data].
    destruct (lookup_lt_is_Some_2 data cur ltac:(lia)) as [d Hd].
    assert (Hdb : is_byte d) by (eapply Forall_lookup_1; eauto).
    rewrite Hd, IH by (done || apply crc_byte_byte || lia).
    rewrite (drop_S _ _ _ Hd). cbn [take]. unfold crc8 at 2. cbn [foldl].
    fold (crc8 (take n (drop (S cur) data)) (crc8_byte (crc_flush crc) d)).
    f_equal. rewrite crc8_byte_flush, crc_byte_flush by done.
    rewrite land_ff_byte; [done|].
    apply is_byte_lxor; [apply crc_flush_byte|done].
Qed.

(** On bytes, the checksum [compute_checksum_encrypted] computes over the
    first [n] bytes of its data is the CRC-8 of those bytes started from 0x02
    and XORed with 0x02, whatever follows them. *)
Lemma compute_checksum_encrypted_crc8 data n :
  Forall is_byte data -> (n <= length data)%nat ->
  compute_checksum_encrypted data (Z.of_nat n) = Z.lxor (crc8 (take n data) 0x02) 0x02.
Proof.
  intros Hb Hn. unfold compute_checksum_encrypted. rewrite Nat2Z.id.
  rewrite crc_data_crc8 by (done || (unfold is_byte; lia) || lia).
  reflexivity.
Qed.

(** X1: the two checksum routines agree: for a length byte and a body of
    bytes, [compute_checksum_encrypted] over the length byte and the body
    (with anything after them, as in [message.slice(1)]) is
    [compute_checksum] of the two, the value the framer tests. *)
Theorem checksums_agree len bytes rest :
  is_byte len -> Forall is_byte bytes -> Forall is_byte rest ->
  compute_checksum_encrypted (len :: bytes ++ rest) (Z.of_nat (S (length bytes)))
  = compute_checksum [len] bytes.
Proof.
  intros Hl Hb Hr.
  rewrite compute_checksum_encrypted_crc8.
  - unfold compute_checksum. cbn [take app]. by rewrite take_app_length.
  - constructor; [done|]. by apply Forall_app_2.
  - cbn [length]. rewrite length_app. lia.
Qed.

Lemma checksums_agree_witness :
  compute_checksum_encrypted (0x06 :: [0x0a; 0xbf; 0x17; 0x04] ++ [0x00; 0x7e])
                             (Z.of_nat (S (length [0x0a; 0xbf; 0x17; 0x04])))
  = compute_checksum [0x06] [0x0a; 0xbf; 0x17; 0x04].
Proof.
  apply checksums_agree.
  - unfold is_byte. lia.
  - repeat constructor; lia.
  - repeat constructor; lia.
Defined.

(** ** The plain checksum detects a changed byte *)

Lemma crc_flush_injective_check :
  forallb (fun c =>
             forallb (fun d => implb (crc_flush c =? crc_flush d) (c =? d))
                     all_bytes)
          all_bytes = true.
Proof. vm_compute. reflexivity. Qed.

Lemma crc_flush_injective c d :
  is_byte c -> is_byte d -> crc_flush c = crc_flush d -> c = d.
Proof.
  intros Hc Hd Heq. pose proof crc_flush_injective_check as H.
  rewrite forallb_forall in H.
  specialize (H c (all_bytes_byte c Hc)). rewrite forallb_forall in H.
  specialize (H d (all_bytes_byte d Hd)).
  rewrite Heq, Z.eqb_refl in H. cbn [implb] in H. by apply Z.eqb_eq.
Qed.

Lemma lxor_cancel_r a b c : Z.lxor a c = Z.lxor b c -> a = b.
Proof.
  intros H. apply (f_equal (fun x => Z.lxor x c)) in H.
  by rewrite !Z.lxor_assoc, !Z.lxor_nilpotent, !Z.lxor_0_r in H.
Qed.

Lemma lxor_cancel_l a b c : Z.lxor c a = Z.lxor c b -> a = b.
Proof. rewrite !(Z.lxor_comm c). apply lxor_cancel_r. Qed.

Lemma crc8_byte_byte c b : is_byte (crc8_byte c b).
Proof. rewrite crc8_byte_flush. apply crc_flush_byte. Qed.

Lemma crc8_byte_injective_state c c' b :
  is_byte c -> is_byte c' -> is_byte b ->
  crc8_byte c b = crc8_byte c' b -> c = c'.
Proof.
  intros Hc Hc' Hb. rewrite !crc8_byte_flush.
  rewrite !land_ff_byte by (by apply is_byte_lxor).
  intros H. apply crc_flush_injective in H; [|by apply is_byte_lxor..].
  by apply lxor_cancel_r in H.
Qed.

Lemma crc8_byte_injective_input c b b' :
  is_byte c -> is_byte b -> is_byte b' ->
  crc8_byte c b = crc8_byte c b' -> b = b'.
Proof.
  intros Hc Hb Hb'. rewrite !crc8_byte_flush.
  rewrite !land_ff_byte by (by apply is_byte_lxor).
  intros H. apply crc_flush_injective in H; [|by apply is_byte_lxor..].
  by apply lxor_cancel_l in H.
Qed.

Lemma crc8_byte_state (l : list Z) : forall c,
  is_byte c -> is_byte (crc8 l c).
Proof.
  induction l as [|x l IH]; intros c Hc; [done|].
  unfold crc8. cbn [foldl]. apply IH, crc8_byte_byte.
Qed.

Lemma crc8_injective_state (l : list Z) : forall c c',
  Forall is_byte l -> is_byte c -> is_byte c' ->
  crc8 l c = crc8 l c' -> c = c'.
Proof.
  induction l as [|x l IH]; intros c c' Hl Hc Hc' H; [done|].
  inversion Hl as [|? ? Hx Hl']; subst.
  unfold crc8 in H. cbn [foldl] in H.
  apply (IH _ _ Hl' (crc8_byte_byte _ _) (crc8_byte_byte _ _)) in H.
  by apply crc8_byte_injective_state in H.
Qed.

(** Two byte strings that differ in one place have different CRCs. *)
Lemma crc8_detects l1 x y l2 c :
  is_byte c -> Forall is_byte l1 -> is_byte x -> is_byte y -> Forall is_byte l2 ->
  crc8 (l1 ++ x :: l2) c = crc8 (l1 ++ y :: l2) c -> x = y.
Proof.
  intros Hc H1 Hx Hy H2. unfold crc8. rewrite !foldl_app. cbn [foldl].
  fold (crc8 l1 c). intros H.
  fold (crc8 l2 (crc8_byte (crc8 l1 c) x)) in H.
  fold (crc8 l2 (crc8_byte (crc8 l1 c) y)) in H.
  apply crc8_injective_state in H; [|done|apply crc8_byte_byte..].
  apply crc8_byte_injective_input in H; [done| |done..].
  by apply crc8_byte_state.
Qed.

Lemma compute_checksum_detects len l1 x y l2 :
  is_byte len -> Forall is_byte l1 -> is_byte x -> is_byte y -> Forall is_byte l2 ->
  compute_checksum [len] (l1 ++ x :: l2) = compute_checksum [len] (l1 ++ y :: l2) ->
  x = y.
Proof.
  intros Hl H1 Hx Hy H2. unfold compute_checksum. intros H.
  apply lxor_cancel_r in H.
  change ([len] ++ l1 ++ x :: l2) with ((len :: l1) ++ x :: l2) in H.
  change ([len] ++ l1 ++ y :: l2) with ((len :: l1) ++ y :: l2) in H.
  apply (crc8_detects (len :: l1) x y l2 2);
    [unfold is_byte; lia|by constructor|done..].
Qed.

(** X2: [compute_checksum] tells apart any two bodies of bytes that differ in
    exactly one byte: a frame with one corrupted byte never keeps its
    checksum. *)
Theorem compute_checksum_changes len l1 x y l2 :
  is_byte len -> Forall is_byte l1 -> is_byte x -> is_byte y -> Forall is_byte l2 ->
  x <> y ->
  (compute_checksum [len] (l1 ++ x :: l2) =? compute_checksum [len] (l1 ++ y :: l2))
  = false.
Proof.
  intros Hl H1 Hx Hy H2 Hne. apply Z.eqb_neq. intros H.
  by apply compute_checksum_detects in H.
Qed.

Lemma compute_checksum_changes_witness :
  (compute_checksum [5] ([0x0a; 0xbf] ++ 0x04 :: [])
   =? compute_checksum [5] ([0x0a; 0xbf] ++ 0x05 :: [])) = false.
Proof.
  apply compute_checksum_changes; try (unfold is_byte; lia);
    repeat constructor; lia.
Defined.

(** ** More on the cipher *)

Lemma decrypt_loop_lookup_lt n i k1 k2 (p : list Z) j :
  (j < i)%nat -> decrypt_loop n i k1 k2 p !! j = p !! j.
Proof. intros Hj. rewrite decrypt_loop_lookup. by rewrite decide_False by lia. Qed.

(** The closing sentinel of a frame is not touched. *)
Lemma decrypt_frame_last p :
  encrypted_frame p = true ->
  decrypt p !! (length p - 1)%nat = p !! (length p - 1)%nat.
Proof.
  intros Hf. destruct (decrypt_frame p Hf) as (key1 & q0 & Hk & -> & ->).
  destruct (encrypted_frame_inv p Hf) as (Hb & Hlen & Hdecl & _).
  rewrite !store_lookup, !store_length, decrypt_loop_length.
  rewrite decide_False by lia. rewrite decide_False by lia.
  rewrite decrypt_loop_lookup. rewrite decide_False by lia. done.
Qed.

Lemma decrypt_frame_declared p :
  encrypted_frame p = true -> decrypt p !! 1%nat = Some (Z.of_nat (length p) - 2).
Proof.
  intros Hf. destruct (encrypted_frame_inv p Hf) as (Hb & Hlen & Hdecl & _).
  rewrite decrypt_frame_lookup by (done || lia).
  rewrite decide_False by lia. rewrite decide_False by lia. done.
Qed.

(** On a frame with a zero key byte, two passes give back every byte before
    the checksum. *)
Lemma decrypt_decrypt_lookup q j :
  encrypted_frame q = true -> q !! 5%nat = Some 0 -> (j < length q - 2)%nat ->
  decrypt (decrypt q) !! j = q !! j.
Proof.
  intros Hf H5 Hj. pose proof (decrypt_frame_frame q Hf) as Hf1.
  destruct (encrypted_frame_inv q Hf) as (Hb & Hlen & Hdecl & _).
  destruct (decide (j < 6)%nat) as [Hlt|Hge].
  - rewrite decrypt_frame_lookup by (rewrite ?decrypt_length; done || lia).
    destruct (decide (j = 5%nat)) as [->|]; [done|].
    rewrite decide_False by lia.
    rewrite decrypt_frame_lookup by (done || lia).
    rewrite decide_False by lia. rewrite decide_False by lia. done.
  - pose proof (decrypt_decrypt_payload q Hf) as Hp.
    apply (f_equal (fun l => l !! (j - 6)%nat)) in Hp.
    rewrite list_lookup_fmap, !payload_lookup in Hp.
    rewrite (decrypt_frame_declared _ Hf1), decrypt_length, Hdecl, toInt_Some in Hp.
    rewrite !decide_True in Hp by lia.
    replace (6 + (j - 6))%nat with j in Hp by lia.
    rewrite Hp, H5, toInt_Some.
    destruct (q !! j) as [b|]; [|done]. cbn. by rewrite Z.lxor_0_r.
Qed.

Lemma decrypt_involutive q :
  encrypted_frame q = true -> q !! 5%nat = Some 0 -> checksum_consistent q ->
  decrypt (decrypt q) = q.
Proof.
  intros Hf H5 Hcs. pose proof (decrypt_frame_frame q Hf) as Hf1.
  destruct (encrypted_frame_inv q Hf) as (Hb & Hlen & Hdecl & _).
  apply list_eq. intros j.
  destruct (decide (j < length q - 2)%nat) as [Hj|Hj].
  { by apply decrypt_decrypt_lookup. }
  destruct (decide (j = length q - 2)%nat) as [->|Hj2].
  { pose proof (decrypt_frame_checksum _ Hf1) as Hcs2.
    unfold checksum_consistent in Hcs2, Hcs.
    rewrite !decrypt_length in Hcs2. rewrite Hcs2, Hcs. f_equal.
    rewrite (decrypt_frame_declared _ Hf1), decrypt_length, Hdecl, !toInt_Some.
    apply compute_checksum_encrypted_ext. intros k Hk.
    rewrite !lookup_drop. apply decrypt_decrypt_lookup; [done..|lia]. }
  destruct (decide (j = length q - 1)%nat) as [->|Hj1].
  { pose proof (decrypt_frame_last _ Hf1) as Hl. rewrite decrypt_length in Hl.
    rewrite Hl. by apply decrypt_frame_last. }
  rewrite !lookup_ge_None_2; [done|lia|rewrite !decrypt_length; lia].
Qed.

Lemma decrypt_frame_key p :
  encrypted_frame p = true -> (8 <= length p)%nat -> decrypt p !! 5%nat = Some 0.
Proof.
  intros Hf Hl. rewrite decrypt_frame_lookup by (done || lia). by rewrite decide_True.
Qed.

(** X3: once a frame is decrypted, decrypting twice more changes nothing: on
    a decrypted frame (key byte 0, checksum in place) two passes of the cipher
    are the identity on the whole frame, not only on the payload. *)
Theorem decrypt_three_times p :
  encrypted_frame p = true -> (8 <= length p)%nat ->
  decrypt (decrypt (decrypt p)) = decrypt p.
Proof.
  intros Hf Hl. apply decrypt_involutive.
  - by apply decrypt_frame_frame.
  - by apply decrypt_frame_key.
  - by apply decrypt_frame_checksum.
Qed.

Lemma decrypt_three_times_witness :
  decrypt (decrypt (decrypt typical_c4)) = decrypt typical_c4.
Proof.
  apply decrypt_three_times; [reflexivity|].
  apply Nat.leb_le. vm_compute. reflexivity.
Defined.

(** X4: [decrypt] never changes the length of a packet nor its first five
    bytes (sentinel, length, type), whatever the packet; a packet that is
    shorter than 7 bytes or whose type is not an encrypted one comes back as
    it is. *)
Theorem decrypt_keeps_header p :
  length (decrypt p) = length p
  /\ take 5 (decrypt p) = take 5 p
  /\ ((length p < 7)%nat \/ first_key p = None -> decrypt p = p).
Proof.
  split; [apply decrypt_length|]. split.
  - unfold decrypt. destruct (length p <? 7)%nat eqn:E; [done|].
    apply Nat.ltb_ge in E. destruct (first_key p) as [key1|]; [|done].
    apply list_eq. intros j.
    destruct (decide (j < 5)%nat) as [Hj|Hj].
    + rewrite !lookup_take_lt by done.
      rewrite !store_lookup, !store_length, decrypt_loop_length.
      rewrite decide_False by lia. rewrite decide_False by lia.
      by apply decrypt_loop_lookup_lt; lia.
    + by rewrite !lookup_take_ge by lia.
  - unfold decrypt. intros [H|H].
    + by rewrite (proj2 (Nat.ltb_lt _ _) H).
    + rewrite H. by destruct (_ <? _)%nat.
Qed.

(** The checksum [decrypt] leaves is the one the framer tests. *)
Lemma decrypt_frame_plain_checksum p :
  encrypted_frame p = true ->
  decrypt p !! (length p - 2)%nat
  = Some (compute_checksum [Z.of_nat (length p) - 2]
                           (JS.slice 2 (length p - 2) (decrypt p))).
Proof.
  intros Hf. pose proof (decrypt_frame_frame p Hf) as Hf1.
  destruct (encrypted_frame_inv p Hf) as (Hb & Hlen & Hdecl & _).
  destruct (encrypted_frame_inv _ Hf1) as (Hb1 & _ & _ & _).
  pose proof (decrypt_frame_checksum p Hf) as Hcs. unfold checksum_consistent in Hcs.
  rewrite decrypt_length, (decrypt_frame_declared p Hf), toInt_Some in Hcs.
  rewrite Hcs. f_equal.
  replace (Z.of_nat (length p) - 2 - 1) with (Z.of_nat (length p - 3)) by lia.
  rewrite compute_checksum_encrypted_crc8;
    [|by apply Forall_drop|rewrite length_drop, decrypt_length; lia].
  unfold compute_checksum, JS.slice. do 2 f_equal.
  pose proof (decrypt_frame_declared p Hf) as H1.
  rewrite (drop_S _ _ _ H1).
  replace (length p - 3)%nat with (S (length p - 2 - 2)) by lia.
  reflexivity.
Qed.

Lemma decrypt_frame_wellformed p :
  encrypted_frame p = true ->
  p !! 0%nat = Some 0x7e -> p !! (length p - 1)%nat = Some 0x7e ->
  wellformed_frame (decrypt p) = true.
Proof.
  intros Hf H0 Hl. pose proof (decrypt_frame_frame p Hf) as Hf1.
  destruct (encrypted_frame_inv p Hf) as (Hb & Hlen & Hdecl & _).
  destruct (encrypted_frame_inv _ Hf1) as (Hb1 & _ & _ & _).
  unfold wellformed_frame. rewrite decrypt_length.
  rewrite (bytes_forallb _ Hb1).
  rewrite (decrypt_frame_declared p Hf), (decrypt_frame_last p Hf), Hl.
  rewrite (decrypt_frame_plain_checksum p Hf).
  assert (H00 : decrypt p !! 0%nat = Some 0x7e).
  { rewrite decrypt_frame_lookup by (done || lia).
    rewrite decide_False by lia. rewrite decide_False by lia. done. }
  rewrite H00. cbn [JS.eqn]. rewrite !Z.eqb_refl.
  rewrite (proj2 (Nat.leb_le _ _)) by lia. reflexivity.
Qed.

(** X5: a decrypted packet is still a valid message packet: for every
    well-formed encrypted frame with its two sentinels, the frame [decrypt]
    returns carries the plain checksum the framer tests, so it is a
    well-formed frame again. *)
Theorem decrypt_keeps_frame_valid p :
  encrypted_frame p = true ->
  p !! 0%nat = Some 0x7e -> p !! (length p - 1)%nat = Some 0x7e ->
  wellformed_frame (decrypt p) = true.
Proof. apply decrypt_frame_wellformed. Qed.

Lemma decrypt_keeps_frame_valid_witness :
  wellformed_frame (decrypt typical_c4) = true.
Proof.
  apply decrypt_keeps_frame_valid; reflexivity.
Defined.

(** ** What reaches the socket *)

Lemma plain_message_last type payload :
  plain_message type payload !! (length type + length payload + 3)%nat = Some 0x7e.
Proof.
  pose proof (plain_message_length type payload) as Hl.
  unfold plain_message in *. rewrite store_lookup.
  rewrite store_length in Hl. rewrite decide_True; [done|].
  rewrite !store_length in *. split; lia.
Qed.

Lemma keyed_message_sentinels a b c payload e :
  (length payload <= 249)%nat -> is_byte e ->
  keyed_message [a; b; c] payload e !! 0%nat = Some 0x7e
  /\ keyed_message [a; b; c] payload e
       !! (length (keyed_message [a; b; c] payload e) - 1)%nat = Some 0x7e.
Proof.
  intros Hp He. split.
  - rewrite keyed_message_lookup by (done || lia).
    rewrite decide_False by lia. rewrite decide_False by lia.
    rewrite decide_False by lia. rewrite decide_True by lia.
    rewrite plain_message_lookup by (cbn [length]; lia). by rewrite decide_True.
  - rewrite keyed_message_length. cbn [length].
    pose proof (plain_message_last [a; b; c] payload) as Hlast.
    pose proof (plain_message_length [a; b; c] payload) as Hlen.
    cbn [length] in Hlast, Hlen.
    unfold keyed_message, concat, JS.slice.
    set (msg' := JS.store 4 e (plain_message [a; b; c] payload)).
    assert (Hlm' : length msg' = (length payload + 7)%nat)
      by (subst msg'; rewrite store_length; lia).
    rewrite store_lookup, decide_False by lia.
    rewrite lookup_app_r; rewrite length_app, length_take, length_drop, Hlm';
      cbn [length]; [|lia].
    rewrite lookup_drop. subst msg'. rewrite store_lookup, decide_False by lia.
    rewrite <- Hlast. f_equal. lia.
Qed.

Lemma wire_packet_valid a b c payload e :
  etypes !! c = Some e -> (length payload <= 249)%nat -> Forall is_byte payload ->
  exists w, wire_packet [a; b; c] payload = Some w
            /\ wellformed_frame w = true
            /\ w !! 4%nat = Some 0xcc
            /\ cipher_payload (decrypt w) = payload.
Proof.
  intros He Hp Hb. destruct (etypes_lookup c e He) as [-> Hc].
  assert (Hcc : is_byte 204) by (unfold is_byte; lia).
  destruct (keyed_message_frame a b c payload 204 He Hp) as [Hf H5].
  destruct (keyed_message_sentinels a b c payload 204 Hp Hcc) as [H0 Hl].
  exists (decrypt (keyed_message [a; b; c] payload 204)).
  split; [by apply wire_packet_decrypt_keyed|].
  split; [by apply decrypt_frame_wellformed|]. split.
  - rewrite decrypt_frame_lookup; [|done|rewrite keyed_message_length; cbn; lia].
    rewrite decide_False by lia. rewrite decide_False by lia.
    rewrite keyed_message_lookup by (done || lia).
    rewrite decide_False by lia. by rewrite decide_True.
  - rewrite decrypt_decrypt_payload, H5, toInt_Some, payload_fmap_id by done.
    by apply keyed_message_payload.
Qed.

(** X6: for a type of the table and a payload of at most 249 bytes, a
    connected [sendMessageToSpa] writes exactly one packet; that packet is a
    well-formed frame the framer's checksum test accepts, its type byte is
    0xcc, and [decrypt] of it gives the payload back. *)
Theorem sendMessageToSpa_writes_frame purpose a b c payload e s :
  etypes !! c = Some e -> (length payload <= 249)%nat -> Forall is_byte payload ->
  is_Some (socket s) ->
  exists w, socket_writes (sendMessageToSpa purpose [a; b; c] payload s) = [w]
            /\ wellformed_frame w = true
            /\ w !! 4%nat = Some 0xcc
            /\ cipher_payload (decrypt w) = payload.
Proof.
  intros He Hp Hb [sock Hs].
  destruct (wire_packet_valid a b c payload e He Hp Hb) as (w & Hw & H1 & H2 & H3).
  exists w. unfold sendMessageToSpa. rewrite Hw, Hs. done.
Qed.

Lemma sendMessageToSpa_writes_frame_witness :
  exists w, socket_writes
              (sendMessageToSpa "SetPumpRequest" [0x0a; 0xbf; 0x17] [4]
                                (set_socket (Some 0%nat) (new_client 0))) = [w]
            /\ wellformed_frame w = true
            /\ w !! 4%nat = Some 0xcc
            /\ cipher_payload (decrypt w) = [4].
Proof.
  apply (sendMessageToSpa_writes_frame "SetPumpRequest" 0x0a 0xbf 0x17 [4] 0xcc).
  - reflexivity.
  - cbn. lia.
  - repeat constructor; lia.
  - eexists. reflexivity.
Defined.

(** ** The framer, frame by frame *)

Lemma readStateFromBytes_pending bytes s :
  pending (readStateFromBytes bytes s).1 = pending s.
Proof.
  unfold readStateFromBytes. cbn [fst tempRangeIsHigh set_tempRangeIsHigh
    set_receivedStateUpdate set_currentTemp set_heatingMode set_isHeatingNow
    set_isFilterMode set_pumpsCurrentSpeed set_tempChangeMode].
  destruct (Z.land _ 4 =? 0); reflexivity.
Qed.

Lemma readLightStateFromBytes_pending bytes s :
  pending (readLightStateFromBytes bytes s).1 = pending s.
Proof.
  unfold readLightStateFromBytes. cbn [fst].
  repeat match goal with
         | |- context [if ?b then _ else _] => destruct b
         end; reflexivity.
Qed.

Lemma interpretControlTypesReply_pending s :
  pending (interpretControlTypesReply s).1.1 = pending s.
Proof.
  unfold interpretControlTypesReply. by destruct (accurateConfigReadFromSpa s).
Qed.

Lemma readFaults_pending bytes s :
  pending (readFaults bytes s).1.1 = pending s.
Proof.
  unfold readFaults. destruct (timeToString _ _);
  repeat match goal with
         | |- context [if ?b then _ else _] => destruct b
         end; reflexivity.
Qed.

Lemma readAndActOnMessage_pending now len checksum chunk s :
  pending (readAndActOnMessage now len checksum chunk s).1.1 = pending s.
Proof.
  unfold readAndActOnMessage.
  destruct (equal _ StateReply).
  { pose proof (readStateFromBytes_pending (decrypt chunk) s) as H.
    destruct (readStateFromBytes (decrypt chunk) s) as [s1 ch]. cbn [fst] in H.
    pose proof (interpretControlTypesReply_pending s1) as H2.
    destruct (negb (initialSetup s1)).
    - destruct (interpretControlTypesReply s1) as [[s2 ev] b]. cbn [fst] in H2.
      destruct (_ <=? _); cbn [fst]; [|congruence].
      rewrite <- H, <- H2. reflexivity.
    - destruct (_ <=? _); cbn [fst]; [|congruence]. rewrite <- H. reflexivity. }
  destruct (equal _ LightStateReply).
  { pose proof (readLightStateFromBytes_pending (decrypt chunk) s) as H.
    destruct (readLightStateFromBytes (decrypt chunk) s) as [s1 ch]. cbn [fst] in H.
    destruct (_ <=? _); cbn [fst]; [|congruence]. rewrite <- H. reflexivity. }
  destruct (equal _ GetFaultsReply); [apply readFaults_pending|].
  destruct (equal _ ControlTypesReply).
  { pose proof (interpretControlTypesReply_pending s) as H.
    destruct (interpretControlTypesReply s) as [[s1 ev] b]. exact H. }
  destruct (equal _ ConfigReply); [done|].
  destruct (equal _ PreferencesReply); [done|].
  destruct (equal _ KnownUnknownReply); [done|].
  destruct (list_find _ _) as [[id [? ?]]|]; [|done].
  destruct (interpretControlPanelReply _ _). done.
Qed.

Lemma frame_step_pending now chunk msgLength s :
  pending (frame_step now chunk msgLength s).1.1 = pending s.
Proof.
  unfold frame_step.
  destruct (_ && _); [|done]. destruct (0 <? _); [|done].
  destruct (JS.neq _ _); [done|].
  pose proof (readAndActOnMessage_pending now msgLength
    (JS.slice 0 (Z.to_nat (msgLength + 2)) chunk !! Z.to_nat msgLength)
    (JS.slice 0 (Z.to_nat (msgLength + 2)) chunk) s) as H.
  destruct (readAndActOnMessage _ _ _ _ _) as [[s' ev] [[|]|error]];
    cbn [fst] in H; done.
Qed.

(** One round of the loop on a chunk that holds a whole message. *)
Lemma socket_loop_step fuel now chunk s mp msgLength :
  (2 <= length chunk)%nat -> chunk !! 1%nat = Some msgLength ->
  msgLength <= Z.of_nat (length chunk) - 2 ->
  socket_loop (S fuel) now chunk s mp
  = let '(s1, ev1, inc) := frame_step now chunk msgLength s in
    match inc with
    | Returned inc =>
        let '(s2, ev2, mp2) :=
          socket_loop fuel now (drop (Z.to_nat (msgLength + 2)) chunk) s1 (mp + inc) in
        (s2, ev1 ++ ev2, mp2)
    | Thrown error => (s1, ev1, Thrown error)
    end.
Proof.
  intros Hlen H1 Hm. cbn [socket_loop].
  rewrite (proj2 (Nat.eqb_neq _ _)) by lia.
  rewrite (proj2 (Nat.ltb_ge _ _)) by lia.
  rewrite H1, toInt_Some. rewrite (proj2 (Z.ltb_ge _ _)) by lia.
  unfold frame_step.
  destruct (_ && _); [|by rewrite Z.add_0_r].
  destruct (0 <? _); [|done]. destruct (JS.neq _ _); [done|].
  destruct (readAndActOnMessage _ _ _ _ _) as [[s' ev] [[|]|error]]; done.
Qed.

Lemma socket_loop_nil fuel now s mp :
  socket_loop fuel now [] s mp = (s, [], Returned mp).
Proof. by destruct fuel. Qed.

(** The count of messages is carried along. *)
Lemma socket_loop_count now : forall fuel chunk s mp,
  socket_loop fuel now chunk s mp
  = let '(s', ev, n) := socket_loop fuel now chunk s 0 in (s', ev, counted mp n).
Proof.
  induction fuel as [|fuel IH]; intros chunk s mp.
  - cbn. by rewrite Z.add_0_r.
  - cbn [socket_loop].
    destruct (length chunk =? 0)%nat; [cbn; by rewrite Z.add_0_r|].
    destruct (length chunk <? 2)%nat; [cbn; by rewrite Z.add_0_r|].
    destruct (_ <? JS.toInt _); [cbn; by rewrite Z.add_0_r|].
    assert (Hstep : forall s1 (ev1 : list Event) mp1,
      (let '(s2, ev2, mp2) :=
         socket_loop fuel now (drop (Z.to_nat (JS.toInt (chunk !! 1%nat) + 2)) chunk)
                     s1 (mp + mp1) in (s2, ev1 ++ ev2, mp2))
      = (let '(s', ev, n) :=
           (let '(s2, ev2, mp2) :=
              socket_loop fuel now (drop (Z.to_nat (JS.toInt (chunk !! 1%nat) + 2)) chunk)
                          s1 mp1 in (s2, ev1 ++ ev2, mp2)) in
         (s', ev, counted mp n))).
    { intros s1 ev1 mp1. rewrite (IH _ _ (mp + mp1)), (IH _ _ mp1).
      destruct (socket_loop fuel now _ _ 0) as [[s2 ev2] [n2|error]]; [|done].
      cbn [counted]. do 2 f_equal. lia. }
    destruct (_ && _).
    + destruct (0 <? _).
      * destruct (JS.neq _ _).
        -- apply (Hstep s _ 1).
        -- destruct (readAndActOnMessage _ _ _ _ _) as [[s' ev] [[|]|error]];
             [apply (Hstep s' _ 1)|apply (Hstep s' ev 1)|done].
      * apply (Hstep s [] 1).
    + pose proof (Hstep s [Log LvError [AStr "Message with bad terminations encountered:";
                                        ABytes chunk]] 0) as H.
      rewrite Z.add_0_r in H. exact H.
Qed.

Lemma wellformed_frame_inv f :
  wellformed_frame f = true ->
  Forall is_byte f /\ (4 <= length f)%nat
  /\ f !! 0%nat = Some 0x7e
  /\ f !! 1%nat = Some (Z.of_nat (length f) - 2)
  /\ f !! (length f - 1)%nat = Some 0x7e
  /\ f !! (length f - 2)%nat
     = Some (compute_checksum [Z.of_nat (length f) - 2] (JS.slice 2 (length f - 2) f)).
Proof.
  unfold wellformed_frame. rewrite !andb_true_iff, !eqn_true.
  intros [[[[[Hb Hl] H0] H1] Hlast] Hcs].
  repeat split; try done; [by apply forallb_bytes|by apply Nat.leb_le].
Qed.

Lemma slice_whole (f rest : list Z) n :
  n = length f -> JS.slice 0 n (f ++ rest) = f.
Proof.
  intros ->. unfold JS.slice. rewrite Nat.sub_0_r. cbn [drop].
  apply take_app_length.
Qed.

(** A whole frame with its sentinels is handled the same whatever follows it
    in the chunk. *)
Lemma frame_step_app now f rest s :
  (2 <= length f)%nat ->
  f !! 0%nat = Some 0x7e -> f !! (length f - 1)%nat = Some 0x7e ->
  frame_step now (f ++ rest) (Z.of_nat (length f) - 2) s
  = frame_step now f (Z.of_nat (length f) - 2) s.
Proof.
  intros Hl H0 Hlast. unfold frame_step.
  replace (Z.to_nat (Z.of_nat (length f) - 2 + 1)) with (length f - 1)%nat by lia.
  replace (Z.to_nat (Z.of_nat (length f) - 2 + 2)) with (length f) by lia.
  rewrite !lookup_app_l by lia. rewrite H0, Hlast.
  rewrite (slice_whole f rest) by done.
  pose proof (slice_whole f [] (length f) eq_refl) as Hs.
  rewrite app_nil_r in Hs. rewrite Hs. reflexivity.
Qed.

(** The framer on an idle client, for a chunk whose first message is whole. *)
Lemma readAndActOnSocketContents_step now chunk s msgLength :
  lastIncompleteChunk s = None ->
  (2 <= length chunk)%nat -> chunk !! 1%nat = Some msgLength ->
  msgLength <= Z.of_nat (length chunk) - 2 ->
  readAndActOnSocketContents now chunk s
  = let '(s1, ev1, inc) := frame_step now chunk msgLength s in
    match inc with
    | Returned inc =>
        let '(s2, ev2, mp2) :=
          socket_loop (length chunk - 1) now
            (drop (Z.to_nat (msgLength + 2)) chunk) s1 (0 + inc) in
        (s2, ev1 ++ ev2, mp2)
    | Thrown error => (s1, ev1, Thrown error)
    end.
Proof.
  intros Hi Hl H1 Hm. unfold readAndActOnSocketContents. rewrite Hi.
  destruct (length chunk) as [|n] eqn:Hn; [lia|].
  rewrite (socket_loop_step n now chunk s 0 msgLength) by (done || lia).
  by replace (S n - 1)%nat with n by lia.
Qed.

(** X7: a chunk that starts with a whole well-formed frame is handled as the
    frame followed by the rest of the chunk: state, events and message count
    are those of feeding the frame and then the rest, so frames that arrive
    back to back in one chunk are each decoded, in order. *)
Theorem frames_back_to_back now f rest s :
  wellformed_frame f = true -> Forall is_byte rest -> idle s ->
  readAndActOnSocketContents now (f ++ rest) s = feed_twice now f now rest s.
Proof.
  intros Hw Hr [Hi1 Hi2].
  destruct (wellformed_frame_inv f Hw) as (Hb & Hl & H0 & H1 & Hlast & _).
  unfold feed_twice.
  rewrite (readAndActOnSocketContents_step now (f ++ rest) s (Z.of_nat (length f) - 2));
    [|done|rewrite length_app; lia|by rewrite lookup_app_l by lia
     |rewrite length_app; lia].
  rewrite (readAndActOnSocketContents_step now f s (Z.of_nat (length f) - 2))
    by (done || lia).
  rewrite frame_step_app by (done || lia).
  pose proof (frame_step_pending now f (Z.of_nat (length f) - 2) s) as Hp.
  destruct (frame_step now f (Z.of_nat (length f) - 2) s) as [[s1 ev1] [inc|error]];
    [|done].
  cbn [fst] in Hp. unfold pending in Hp. rewrite Hi1, Hi2 in Hp.
  injection Hp as Hp1 Hp2.
  replace (Z.to_nat (Z.of_nat (length f) - 2 + 2)) with (length f) by lia.
  rewrite drop_app_length, drop_all, socket_loop_nil.
  unfold readAndActOnSocketContents. rewrite Hp1.
  rewrite (socket_loop_fuel now _ (length rest)) by (done || rewrite ?length_app; lia).
  rewrite (socket_loop_count now _ rest s1 (0 + inc)).
  destruct (socket_loop (length rest) now rest s1 0) as [[s2 ev2] [n2|error]];
    by rewrite app_nil_r.
Qed.

Lemma frames_back_to_back_witness :
  readAndActOnSocketContents 1000 (typical_c4 ++ pump3_high_frame) (new_client 0)
  = feed_twice 1000 typical_c4 1000 pump3_high_frame (new_client 0).
Proof.
  apply frames_back_to_back.
  - reflexivity.
  - apply forallb_bytes. reflexivity.
  - split; reflexivity.
Defined.

(** X8: a whole frame with one byte of its body changed is rejected: fed to
    the framer it is logged as a bad checksum, counted, and leaves the device
    state as it was; no change is reported. *)
Theorem corrupted_frame_rejected now f j y s :
  wellformed_frame f = true -> idle s ->
  (2 <= j < length f - 2)%nat -> is_byte y -> f !! j <> Some y ->
  readAndActOnSocketContents now (<[j := y]> f) s
  = (s, [Log LvError [AStr "Bad checksum"; ANum (f !! (length f - 2)%nat);
                      AStr "for"; ABytes (<[j := y]> f)]], Returned 1).
Proof.
  intros Hw [Hi1 Hi2] Hj Hy Hne.
  destruct (wellformed_frame_inv f Hw) as (Hb & Hl & H0 & H1 & Hlast & Hcs).
  set (f' := <[j := y]> f).
  assert (Hlen : length f' = length f) by apply length_insert.
  assert (Hlook : forall i, i <> j -> f' !! i = f !! i).
  { intros i Hi. subst f'. by apply list_lookup_insert_ne. }
  rewrite (readAndActOnSocketContents_step now f' s (Z.of_nat (length f) - 2));
    [|done|lia|by rewrite Hlook by lia|lia].
  enough (Hstep : frame_step now f' (Z.of_nat (length f) - 2) s
            = (s, [Log LvError [AStr "Bad checksum"; ANum (f !! (length f - 2)%nat);
                                AStr "for"; ABytes f']], Returned 1)).
  { rewrite Hstep.
    replace (Z.to_nat (Z.of_nat (length f) - 2 + 2)) with (length f') by lia.
    by rewrite drop_all, socket_loop_nil. }
  unfold frame_step.
  replace (Z.to_nat (Z.of_nat (length f) - 2 + 1)) with (length f - 1)%nat by lia.
  replace (Z.to_nat (Z.of_nat (length f) - 2 + 2)) with (length f') by lia.
  replace (Z.to_nat (Z.of_nat (length f) - 2)) with (length f - 2)%nat by lia.
  rewrite !Hlook by lia. rewrite H0, Hlast.
  pose proof (slice_whole f' [] (length f') eq_refl) as Hs.
  rewrite app_nil_r in Hs. rewrite Hs, Hlook by lia.
  cbn [JS.eqn]. rewrite Z.eqb_refl. cbn [andb].
  rewrite (proj2 (Z.ltb_lt _ _)) by lia.
  destruct (lookup_lt_is_Some_2 f j ltac:(lia)) as [x Hx].
  assert (Hxy : x <> y) by congruence.
  assert (Hxb : is_byte x) by (eapply Forall_lookup_1; eauto).
  assert (Hbody : JS.slice 2 (length f - 2) f
                  = take (j - 2) (JS.slice 2 (length f - 2) f)
                    ++ x :: drop (S (j - 2)) (JS.slice 2 (length f - 2) f)).
  { symmetry. apply take_drop_middle. unfold JS.slice.
    rewrite lookup_take_lt by lia. rewrite lookup_drop.
    replace (2 + (j - 2))%nat with j by lia. done. }
  assert (Hbody' : JS.slice 2 (length f - 2) f'
                   = take (j - 2) (JS.slice 2 (length f - 2) f)
                     ++ y :: drop (S (j - 2)) (JS.slice 2 (length f - 2) f)).
  { subst f'. unfold JS.slice.
    rewrite drop_insert_ge, take_insert_lt by lia.
    apply insert_take_drop. rewrite length_take, length_drop. lia. }
  rewrite Hbody', Hcs. cbn [JS.neq].
  rewrite Hbody at 1.
  assert (Hneq : (compute_checksum [Z.of_nat (length f) - 2]
                    (take (j - 2) (JS.slice 2 (length f - 2) f)
                     ++ x :: drop (S (j - 2)) (JS.slice 2 (length f - 2) f))
                  =? compute_checksum [Z.of_nat (length f) - 2]
                    (take (j - 2) (JS.slice 2 (length f - 2) f)
                     ++ y :: drop (S (j - 2)) (JS.slice 2 (length f - 2) f)))
                 = false).
  { apply Z.eqb_neq. intros H. apply compute_checksum_detects in H; try done.
    - destruct (lookup_lt_is_Some_2 f 1 ltac:(lia)) as [l Hl1].
      rewrite H1 in Hl1. injection Hl1 as <-.
      eapply Forall_lookup_1; eauto.
    - apply Forall_take. unfold JS.slice. by apply Forall_take, Forall_drop.
    - apply Forall_drop. unfold JS.slice. by apply Forall_take, Forall_drop. }
  rewrite Hneq. cbn [negb]. reflexivity.
Qed.

Lemma corrupted_frame_rejected_witness :
  readAndActOnSocketContents 1000 (<[10%nat := 0x55]> typical_c4) (new_client 0)
  = (new_client 0,
     [Log LvError [AStr "Bad checksum";
                   ANum (typical_c4 !! (length typical_c4 - 2)%nat);
                   AStr "for"; ABytes (<[10%nat := 0x55]> typical_c4)]], Returned 1).
Proof.
  apply corrupted_frame_rejected.
  - reflexivity.
  - split; reflexivity.
  - vm_compute. lia.
  - unfold is_byte. lia.
  - vm_compute. discriminate.
Defined.

(** ** A throw ends the handler *)

(** When the first frame of a chunk makes the interpreter throw, what
    follows it in the chunk is never looked at. *)
Lemma frame_throws_rest_ignored now f rest s error :
  wellformed_frame f = true -> idle s ->
  (frame_step now f (Z.of_nat (length f) - 2) s).2 = Thrown error ->
  (readAndActOnSocketContents now (f ++ rest) s).2 = Thrown error
  /\ readAndActOnSocketContents now (f ++ rest) s = readAndActOnSocketContents now f s.
Proof.
  intros Hw [Hi1 Hi2] Hthrow.
  destruct (wellformed_frame_inv f Hw) as (Hb & Hl & H0 & H1 & Hlast & _).
  rewrite (readAndActOnSocketContents_step now (f ++ rest) s (Z.of_nat (length f) - 2));
    [|done|rewrite length_app; lia|by rewrite lookup_app_l by lia
     |rewrite length_app; lia].
  rewrite (readAndActOnSocketContents_step now f s (Z.of_nat (length f) - 2))
    by (done || lia).
  rewrite frame_step_app by (done || lia).
  destruct (frame_step now f (Z.of_nat (length f) - 2) s) as [[s1 ev1] inc].
  cbn [snd] in Hthrow. subst inc. done.
Qed.

(** X9: a throw in the interpreter is not caught by the framer.  A
    well-formed fault log reply too short to hold the time of the fault
    (fewer than six content bytes), not the one seen last, makes
    [readAndActOnSocketContents] throw; whatever follows the frame in the chunk
    is not processed. *)
Theorem short_fault_reply_aborts now f rest s :
  wellformed_frame f = true -> idle s ->
  JS.slice 2 5 f = GetFaultsReply -> (length f < 13)%nat ->
  JS.slice 5 (length f - 2) f <> lastFaultBytes s ->
  (readAndActOnSocketContents now (f ++ rest) s).2 = Thrown "TypeError"
  /\ readAndActOnSocketContents now (f ++ rest) s = readAndActOnSocketContents now f s.
Proof.
  intros Hw Hi Ht Hlen Hne. apply frame_throws_rest_ignored; [done|done|].
  destruct (wellformed_frame_inv f Hw) as (Hb & Hl & H0 & H1 & Hlast & Hcs).
  unfold frame_step.
  replace (Z.to_nat (Z.of_nat (length f) - 2 + 1)) with (length f - 1)%nat by lia.
  replace (Z.to_nat (Z.of_nat (length f) - 2 + 2)) with (length f) by lia.
  replace (Z.to_nat (Z.of_nat (length f) - 2)) with (length f - 2)%nat by lia.
  rewrite H0, Hlast.
  pose proof (slice_whole f [] (length f) eq_refl) as Hs.
  rewrite app_nil_r in Hs. rewrite Hs, Hcs.
  cbn [JS.eqn JS.neq]. rewrite !Z.eqb_refl. cbn [andb negb].
  rewrite (proj2 (Z.ltb_lt _ _)) by lia.
  pose proof (readFaults_throws (JS.slice 5 (length f - 2) f) s) as Hthrow.
  unfold readAndActOnMessage. rewrite Ht.
  change (equal GetFaultsReply StateReply) with false.
  change (equal GetFaultsReply LightStateReply) with false.
  change (equal GetFaultsReply GetFaultsReply) with true. cbv iota.
  replace (Z.to_nat (Z.of_nat (length f) - 2)) with (length f - 2)%nat by lia.
  destruct (readFaults _ s) as [[s' ev] r]. cbn [snd] in *.
  rewrite Hthrow; [done| |done].
  unfold JS.slice. rewrite length_take, length_drop. lia.
Qed.

Lemma short_fault_reply_aborts_witness :
  (readAndActOnSocketContents 1000 (short_fault_frame ++ typical_c4) (new_client 0)).2
  = Thrown "TypeError"
  /\ readAndActOnSocketContents 1000 (short_fault_frame ++ typical_c4) (new_client 0)
     = readAndActOnSocketContents 1000 short_fault_frame (new_client 0).
Proof.
  apply short_fault_reply_aborts.
  - reflexivity.
  - split; reflexivity.
  - reflexivity.
  - cbn. lia.
  - vm_compute. discriminate.
Defined.

(** ** What the interpreter leaves alone *)

(** X10: a message whose type is none of status, light status, fault log and
    control types reply (configuration, preferences, control panel replies,
    unknown types) changes nothing in the client and never reports a
    change. *)
Theorem other_frames_keep_state now len checksum chunk s :
  JS.slice 2 5 chunk ∉ [StateReply; LightStateReply; GetFaultsReply; ControlTypesReply] ->
  (readAndActOnMessage now len checksum chunk s).1.1 = s
  /\ reports_change (readAndActOnMessage now len checksum chunk s).2 = false.
Proof.
  intros H. rewrite !not_elem_of_cons in H. destruct H as (H1 & H2 & H3 & H4 & _).
  unfold readAndActOnMessage, equal.
  rewrite !bool_decide_eq_false_2 by done.
  repeat case_bool_decide; try done.
  destruct (list_find _ _) as [[id [c r]]|]; [|done].
  unfold interpretControlPanelReply.
  repeat match goal with
         | |- context [if ?b then _ else _] => destruct b
         | |- context [timeToString ?a ?b] => destruct (timeToString a b)
         end; done.
Qed.

Lemma other_frames_keep_state_witness :
  (readAndActOnMessage 0 5 (Some 0xca) [0x7e; 0x05; 0xff; 0xaf; 0x32; 0xca; 0x7e]
     (new_client 0)).1.1 = new_client 0
  /\ reports_change
       (readAndActOnMessage 0 5 (Some 0xca) [0x7e; 0x05; 0xff; 0xaf; 0x32; 0xca; 0x7e]
          (new_client 0)).2 = false.
Proof.
  apply other_frames_keep_state.
  rewrite !not_elem_of_cons. repeat split; try (vm_compute; discriminate).
  apply not_elem_of_nil.
Defined.

(** The set point after a status frame. *)
Lemma readStateFromBytes_setpoints bytes s :
  let s' := (readStateFromBytes bytes s).1 in
  tempRangeIsHigh s' = negb (Z.land (JS.toInt (bytes !! 10%nat)) 4 =? 0)
  /\ targetTempOverride s' = targetTempOverride s
  /\ (if tempRangeIsHigh s'
      then targetTempModeHigh s' = bytes !! 21%nat
           /\ targetTempModeLow s' = targetTempModeLow s
      else targetTempModeLow s' = bytes !! 21%nat
           /\ targetTempModeHigh s' = targetTempModeHigh s).
Proof.
  unfold readStateFromBytes. cbn [fst tempRangeIsHigh set_tempRangeIsHigh
    set_receivedStateUpdate set_currentTemp set_heatingMode set_isHeatingNow
    set_isFilterMode set_pumpsCurrentSpeed set_tempChangeMode].
  destruct (Z.land _ 4 =? 0); repeat split; reflexivity.
Qed.

(** X11: after a status frame [getTargetTemp] is the frame's byte 21, whatever
    range the frame is in, unless an override is pending, which then still
    wins; the set point of the other range is left as it was. *)
Theorem getTargetTemp_after_status bytes s :
  let s' := (readStateFromBytes bytes s).1 in
  getTargetTemp s' = JS.nullish (targetTempOverride s) (bytes !! 21%nat)
  /\ (if tempRangeIsHigh s'
      then targetTempModeLow s' = targetTempModeLow s
      else targetTempModeHigh s' = targetTempModeHigh s).
Proof.
  intros s'. destruct (readStateFromBytes_setpoints bytes s) as (_ & Ho & H).
  fold s' in Ho, H. unfold getTargetTemp. rewrite Ho.
  destruct (tempRangeIsHigh s'); destruct H as [-> H]; done.
Qed.

(** ** Clients, field by field *)

(** Reduce the field reads and writes of a client, and nothing else. *)
Ltac fields :=
  cbn [fst snd
       initialSetup socket lightIsOn lightMode lightBrightness lightR lightG
       lightB lightCycleTime lightStatus lightLastUpdated pumpsCurrentSpeed
       pumpsSpeedRange pumpsOverrideSpeed currentTemp targetTempModeHigh
       targetTempModeLow targetTempOverride tempRangeIsHigh heatingMode
       isHeatingNow tempChangeMode receivedStateUpdate spaLastUpdated flow
       accurateConfigReadFromSpa isCurrentlyConnectedToSpa
       faultCheckIntervalId stateUpdateCheckIntervalId isFilterMode
       lastStateBytes lastColorStateBytes lastFaultBytes lastIncompleteChunk
       lastChunkTimestamp reconnecting set_socket set_lightIsOn
       set_lightMode set_lightBrightness set_lightR set_lightG set_lightB
       set_lightCycleTime set_lightStatus set_lightLastUpdated
       set_pumpsCurrentSpeed set_pumpsOverrideSpeed set_currentTemp
       set_targetTempModeHigh set_targetTempModeLow set_targetTempOverride
       set_tempRangeIsHigh set_heatingMode set_isHeatingNow
       set_tempChangeMode set_receivedStateUpdate set_spaLastUpdated
       set_flow set_accurateConfigReadFromSpa set_isCurrentlyConnectedToSpa
       set_faultCheckIntervalId set_stateUpdateCheckIntervalId
       set_isFilterMode set_lastStateBytes set_lastColorStateBytes
       set_lastFaultBytes set_lastIncompleteChunk set_lastChunkTimestamp
       set_reconnecting].

(** Two clients with the same fields are the same client. *)
Lemma client_eq (a b : SpaClient) :
  initialSetup a = initialSetup b ->
  socket a = socket b ->
  lightIsOn a = lightIsOn b ->
  lightMode a = lightMode b ->
  lightBrightness a = lightBrightness b ->
  lightR a = lightR b ->
  lightG a = lightG b ->
  lightB a = lightB b ->
  lightCycleTime a = lightCycleTime b ->
  lightStatus a = lightStatus b ->
  lightLastUpdated a = lightLastUpdated b ->
  pumpsCurrentSpeed a = pumpsCurrentSpeed b ->
  pumpsSpeedRange a = pumpsSpeedRange b ->
  pumpsOverrideSpeed a = pumpsOverrideSpeed b ->
  currentTemp a = currentTemp b ->
  targetTempModeHigh a = targetTempModeHigh b ->
  targetTempModeLow a = targetTempModeLow b ->
  targetTempOverride a = targetTempOverride b ->
  tempRangeIsHigh a = tempRangeIsHigh b ->
  heatingMode a = heatingMode b ->
  isHeatingNow a = isHeatingNow b ->
  tempChangeMode a = tempChangeMode b ->
  receivedStateUpdate a = receivedStateUpdate b ->
  spaLastUpdated a = spaLastUpdated b ->
  flow a = flow b ->
  accurateConfigReadFromSpa a = accurateConfigReadFromSpa b ->
  isCurrentlyConnectedToSpa a = isCurrentlyConnectedToSpa b ->
  faultCheckIntervalId a = faultCheckIntervalId b ->
  stateUpdateCheckIntervalId a = stateUpdateCheckIntervalId b ->
  isFilterMode a = isFilterMode b ->
  lastStateBytes a = lastStateBytes b ->
  lastColorStateBytes a = lastColorStateBytes b ->
  lastFaultBytes a = lastFaultBytes b ->
  lastIncompleteChunk a = lastIncompleteChunk b ->
  lastChunkTimestamp a = lastChunkTimestamp b ->
  reconnecting a = reconnecting b ->
  a = b.
Proof.
  destruct a, b. cbn. intros. subst. reflexivity.
Qed.

(** ** Frames seen again *)

Lemma bytes_differ_same watched bytes : bytes_differ watched bytes bytes = false.
Proof.
  unfold bytes_differ. rewrite Nat.eqb_refl. cbn [negb].
  induction watched as [|i watched IH]; [done|]. cbn [existsb]. rewrite IH.
  destruct (bytes !! i) as [b|]; cbn [JS.neq]; [|by rewrite andb_false_r].
  by rewrite Z.eqb_refl, andb_false_r.
Qed.

Lemma pump_speeds_again (m : gmap Z Z) v w :
  <[2 := w]> (<[1 := v]> (<[2 := w]> (<[1 := v]> m))) = <[2 := w]> (<[1 := v]> m).
Proof.
  apply map_eq. intros i. rewrite !lookup_insert. repeat case_decide; done.
Qed.

(** Decoding the same status bytes again changes nothing. *)
Lemma readStateFromBytes_again bytes s :
  readStateFromBytes bytes (readStateFromBytes bytes s).1
  = ((readStateFromBytes bytes s).1, false).
Proof.
  unfold readStateFromBytes. fields.
  destruct (Z.land _ 4 =? 0); fields.
  all: rewrite bytes_differ_same, pump_speeds_again.
  all: apply (f_equal2 pair); [|reflexivity]; apply client_eq; fields; reflexivity.
Qed.

Lemma readStateFromBytes_others bytes s :
  let s' := (readStateFromBytes bytes s).1 in
  initialSetup s' = initialSetup s
  /\ accurateConfigReadFromSpa s' = accurateConfigReadFromSpa s
  /\ spaLastUpdated s' = spaLastUpdated s.
Proof.
  unfold readStateFromBytes. fields. destruct (Z.land _ 4 =? 0); done.
Qed.

(** After a status frame has been read the configuration is known, or
    [initialSetup] keeps it from being looked at. *)
Lemma readAndActOnMessage_status_config now len checksum chunk s :
  JS.slice 2 5 chunk = StateReply ->
  let s' := (readAndActOnMessage now len checksum chunk s).1.1 in
  initialSetup s' = initialSetup s
  /\ (initialSetup s = false -> accurateConfigReadFromSpa s' = true).
Proof.
  intros Ht. unfold readAndActOnMessage. rewrite Ht.
  change (equal StateReply StateReply) with true. cbv iota.
  destruct (readStateFromBytes_others (decrypt chunk) s) as (Hi & Ha & _).
  destruct (readStateFromBytes (decrypt chunk) s) as [s1 changed].
  cbn [fst] in Hi, Ha. rewrite Hi.
  destruct (initialSetup s) eqn:Eini; cbn [negb].
  - destruct (_ <=? _); fields; split; done.
  - unfold interpretControlTypesReply.
    destruct (accurateConfigReadFromSpa s1) eqn:Eacc;
      destruct (_ <=? _); fields; split; done.
Qed.

(** [readStateFromBytes] does not look at the fields the dispatcher sets
    after it. *)
Lemma readStateFromBytes_set_spaLastUpdated bytes t s :
  readStateFromBytes bytes (set_spaLastUpdated t s)
  = (set_spaLastUpdated t (readStateFromBytes bytes s).1,
     (readStateFromBytes bytes s).2).
Proof.
  unfold readStateFromBytes. fields. destruct (Z.land _ 4 =? 0); fields.
  all: apply (f_equal2 pair); [|reflexivity]; apply client_eq; fields; reflexivity.
Qed.

Lemma readStateFromBytes_set_config bytes m s :
  readStateFromBytes bytes (set_accurateConfigReadFromSpa true (set_lightIsOn m s))
  = (set_accurateConfigReadFromSpa true
       (set_lightIsOn m (readStateFromBytes bytes s).1),
     (readStateFromBytes bytes s).2).
Proof.
  unfold readStateFromBytes. fields. destruct (Z.land _ 4 =? 0); fields.
  all: apply (f_equal2 pair); [|reflexivity]; apply client_eq; fields; reflexivity.
Qed.

(** What the dispatcher leaves after a status frame decodes to itself. *)
Lemma readAndActOnMessage_status_decoded now len checksum chunk s :
  JS.slice 2 5 chunk = StateReply ->
  readStateFromBytes (decrypt chunk) (readAndActOnMessage now len checksum chunk s).1.1
  = ((readAndActOnMessage now len checksum chunk s).1.1, false).
Proof.
  intros Ht. unfold readAndActOnMessage. rewrite Ht.
  change (equal StateReply StateReply) with true. cbv iota.
  pose proof (readStateFromBytes_again (decrypt chunk) s) as Hr.
  destruct (readStateFromBytes (decrypt chunk) s) as [s1 changed].
  cbn [fst] in Hr.
  destruct (negb (initialSetup s1)).
  - unfold interpretControlTypesReply.
    destruct (accurateConfigReadFromSpa s1);
      destruct (_ <=? _); cbn [fst];
      rewrite ?readStateFromBytes_set_spaLastUpdated, ?readStateFromBytes_set_config,
        ?Hr; reflexivity.
  - destruct (_ <=? _); cbn [fst];
      rewrite ?readStateFromBytes_set_spaLastUpdated, ?Hr; reflexivity.
Qed.

(** A status frame that tells nothing new to a client that knows its
    configuration, less than a minute after the last report, passes in
    silence. *)
Lemma readAndActOnMessage_status_quiet now len checksum chunk s :
  JS.slice 2 5 chunk = StateReply ->
  readStateFromBytes (decrypt chunk) s = (s, false) ->
  (initialSetup s = false -> accurateConfigReadFromSpa s = true) ->
  now - 60000 < spaLastUpdated s ->
  readAndActOnMessage now len checksum chunk s = (s, [], Returned false).
Proof.
  intros Ht Hr Hc Hlt. unfold readAndActOnMessage. rewrite Ht.
  change (equal StateReply StateReply) with true. cbv iota. rewrite Hr.
  destruct (initialSetup s); cbn [negb].
  - by rewrite (proj2 (Z.leb_gt _ _)) by lia.
  - unfold interpretControlTypesReply. rewrite Hc by done.
    by rewrite (proj2 (Z.leb_gt _ _)) by lia.
Qed.

(** X12: a status frame that is read a second time, before the client's
    minute is over ([spaLastUpdated] less than 60 s back), leaves the client
    as the first reading left it, logs nothing and reports no change. *)
Theorem repeated_status_frame now1 now2 len checksum chunk s :
  JS.slice 2 5 chunk = StateReply ->
  now2 - 60000 < spaLastUpdated (readAndActOnMessage now1 len checksum chunk s).1.1 ->
  readAndActOnMessage now2 len checksum chunk
    (readAndActOnMessage now1 len checksum chunk s).1.1
  = ((readAndActOnMessage now1 len checksum chunk s).1.1, [], Returned false).
Proof.
  intros Ht Hlt.
  pose proof (readAndActOnMessage_status_config now1 len checksum chunk s Ht) as Hc.
  cbv zeta in Hc. destruct Hc as [Hini Hacc].
  apply readAndActOnMessage_status_quiet; [done| |by rewrite Hini|done].
  by apply readAndActOnMessage_status_decoded.
Qed.

Lemma repeated_status_frame_witness :
  readAndActOnMessage 2000 38 (Some 0x6a) typical_c4
    (readAndActOnMessage 1000 38 (Some 0x6a) typical_c4 (new_client 0)).1.1
  = ((readAndActOnMessage 1000 38 (Some 0x6a) typical_c4 (new_client 0)).1.1,
     [], Returned false).
Proof.
  apply repeated_status_frame; [reflexivity|].
  vm_compute. reflexivity.
Defined.

(** X13: a fault log entry is logged once: read again, the same contents
    (with the time of the fault, six bytes or more) set the same flow and
    give the same answer, but log nothing. *)
Theorem readFaults_logs_once bytes s :
  (6 <= length bytes)%nat ->
  readFaults bytes (readFaults bytes s).1.1
  = ((readFaults bytes s).1.1, [], (readFaults bytes s).2).
Proof.
  intros Hl.
  destruct (lookup_lt_is_Some_2 bytes 4 ltac:(lia)) as [h Hh].
  destruct (lookup_lt_is_Some_2 bytes 5 ltac:(lia)) as [m Hm].
  unfold readFaults. rewrite Hh, Hm. cbn [timeToString].
  destruct (JS.gt _ _); [|destruct (_ || _); [|destruct (_ || _)]].
  all: fields.
  all: destruct (negb (equal (lastFaultBytes s) bytes)).
  all: fields; unfold equal at 1; rewrite bool_decide_eq_true_2 by done; cbn [negb].
  all: apply (f_equal2 pair);
    [apply (f_equal2 pair); [apply client_eq; fields; reflexivity|reflexivity]
    |reflexivity].
Qed.

Lemma readFaults_logs_once_witness :
  readFaults [1; 0; 16; 0; 12; 30; 0; 100; 100; 100]
    (readFaults [1; 0; 16; 0; 12; 30; 0; 100; 100; 100] (new_client 0)).1.1
  = ((readFaults [1; 0; 16; 0; 12; 30; 0; 100; 100; 100] (new_client 0)).1.1, [],
     (readFaults [1; 0; 16; 0; 12; 30; 0; 100; 100; 100] (new_client 0)).2).
Proof. apply readFaults_logs_once. cbn. lia. Defined.

(** ** A reset makes the next frame news *)

Lemma bytes_differ_nil watched bytes :
  bytes <> [] -> bytes_differ watched [] bytes = true.
Proof. intros H. unfold bytes_differ. by destruct bytes. Qed.

(** X14: after [resetRecentState] the next status frame and the next light
    frame are reported as a change, whatever they carry and whenever they
    come. *)
Theorem resetRecentState_forces_report now len checksum chunk s :
  JS.slice 2 5 chunk = StateReply \/ JS.slice 2 5 chunk = LightStateReply ->
  (readAndActOnMessage now len checksum chunk (resetRecentState s)).2 = Returned true.
Proof.
  intros Ht.
  assert (Hne : decrypt chunk <> []).
  { intros He. apply (f_equal length) in He. rewrite decrypt_length in He.
    destruct chunk as [|? [|? [|? ?]]]; destruct Ht as [Ht|Ht]; discriminate. }
  unfold readAndActOnMessage. destruct Ht as [Ht|Ht]; rewrite Ht.
  - change (equal StateReply StateReply) with true. cbv iota.
    assert (Hch : (readStateFromBytes (decrypt chunk) (resetRecentState s)).2 = true).
    { unfold readStateFromBytes, resetRecentState. fields.
      destruct (Z.land _ 4 =? 0); fields; by apply bytes_differ_nil. }
    destruct (readStateFromBytes _ _) as [s1 changed]. cbn [snd] in Hch. subst.
    destruct (negb (initialSetup s1)); [destruct (interpretControlTypesReply s1) as [[? ?] ?]|];
      by destruct (_ <=? _).
  - change (equal LightStateReply StateReply) with false.
    change (equal LightStateReply LightStateReply) with true. cbv iota.
    assert (Hch : (readLightStateFromBytes (decrypt chunk) (resetRecentState s)).2 = true).
    { unfold readLightStateFromBytes, resetRecentState. fields.
      repeat match goal with
             | |- context [if ?b then _ else _] => destruct b
             end; fields; by apply bytes_differ_nil. }
    destruct (readLightStateFromBytes _ _) as [s1 changed]. cbn [snd] in Hch. subst.
    by destruct (_ <=? _).
Qed.

Lemma resetRecentState_forces_report_witness :
  (readAndActOnMessage 2000 38 (Some 0x6a) typical_c4
     (resetRecentState
        (readAndActOnMessage 1000 38 (Some 0x6a) typical_c4 (new_client 0)).1.1)).2
  = Returned true.
Proof. apply resetRecentState_forces_report. left. reflexivity. Defined.

(** ** The configuration is announced once *)

Lemma config_callbacks_app ev1 ev2 :
  config_callbacks (ev1 ++ ev2) = (config_callbacks ev1 + config_callbacks ev2)%nat.
Proof. unfold config_callbacks. by rewrite omap_app, length_app. Qed.

Lemma interpretControlTypesReply_config s :
  (config_callbacks (interpretControlTypesReply s).1.2
   + config_pending (interpretControlTypesReply s).1.1 = config_pending s)%nat.
Proof.
  unfold interpretControlTypesReply, config_pending.
  by destruct (accurateConfigReadFromSpa s) eqn:E; fields; rewrite ?E.
Qed.

Lemma readStateFromBytes_config bytes s :
  config_pending (readStateFromBytes bytes s).1 = config_pending s.
Proof.
  unfold readStateFromBytes, config_pending. fields.
  by destruct (Z.land _ 4 =? 0).
Qed.

Lemma readLightStateFromBytes_config bytes s :
  config_pending (readLightStateFromBytes bytes s).1 = config_pending s.
Proof.
  unfold readLightStateFromBytes, config_pending. fields.
  repeat match goal with
         | |- context [if JS.eqn ?a ?b then _ else _] => destruct (JS.eqn a b)
         | |- context [if ?a && ?b then _ else _] => destruct (a && b)
         end; reflexivity.
Qed.

Lemma readFaults_config bytes s :
  config_callbacks (readFaults bytes s).1.2 = 0%nat
  /\ config_pending (readFaults bytes s).1.1 = config_pending s.
Proof.
  unfold readFaults, config_pending.
  destruct (JS.gt _ _); [|destruct (_ || _); [|destruct (_ || _)]];
    fields; (destruct (negb _); [destruct (timeToString _ _)|]); split; reflexivity.
Qed.

Lemma interpretControlPanelReply_config id contents :
  config_callbacks (interpretControlPanelReply id contents).1 = 0%nat.
Proof.
  unfold interpretControlPanelReply.
  repeat match goal with
         | |- context [if ?b then _ else _] => destruct b
         | |- context [timeToString ?a ?b] => destruct (timeToString a b)
         end; reflexivity.
Qed.

(** What the interpreter announces comes off what was pending. *)
Lemma readAndActOnMessage_config now len checksum chunk s :
  (config_callbacks (readAndActOnMessage now len checksum chunk s).1.2
   + config_pending (readAndActOnMessage now len checksum chunk s).1.1
   = config_pending s)%nat.
Proof.
  unfold readAndActOnMessage.
  destruct (equal _ StateReply).
  { pose proof (readStateFromBytes_config (decrypt chunk) s) as H.
    destruct (readStateFromBytes (decrypt chunk) s) as [s1 ch]. cbn [fst] in H.
    pose proof (interpretControlTypesReply_config s1) as H2.
    destruct (negb (initialSetup s1)).
    - destruct (interpretControlTypesReply s1) as [[s2 ev] b]. cbn [fst snd] in H2.
      destruct (_ <=? _); cbn [fst snd]; rewrite ?config_callbacks_app;
        unfold config_pending in *; fields; cbn [config_callbacks omap list_omap length] in *; lia.
    - destruct (_ <=? _); cbn [fst snd]; unfold config_pending in *; fields;
        cbn [config_callbacks omap list_omap length app]; lia. }
  destruct (equal _ LightStateReply).
  { pose proof (readLightStateFromBytes_config (decrypt chunk) s) as H.
    destruct (readLightStateFromBytes (decrypt chunk) s) as [s1 ch]. cbn [fst] in H.
    destruct (_ <=? _); cbn [fst snd]; unfold config_pending in *; fields;
      cbn [config_callbacks omap list_omap length]; lia. }
  destruct (equal _ GetFaultsReply).
  { pose proof (readFaults_config (JS.slice 5 (Z.to_nat len) chunk) s) as [H1 H2]. lia. }
  destruct (equal _ ControlTypesReply).
  { pose proof (interpretControlTypesReply_config s) as H.
    destruct (interpretControlTypesReply s) as [[s1 ev] b]. cbn [fst snd] in *.
    change (config_callbacks (?e :: ev)) with (config_callbacks ([e] ++ ev)).
    rewrite config_callbacks_app. cbn [config_callbacks omap list_omap length]. lia. }
  destruct (equal _ ConfigReply); [done|].
  destruct (equal _ PreferencesReply); [done|].
  destruct (equal _ KnownUnknownReply); [done|].
  destruct (list_find _ _) as [[id [? ?]]|]; [|done].
  pose proof (interpretControlPanelReply_config (Z.of_nat id + 1)
                (JS.slice 5 (Z.to_nat len) chunk)) as H.
  destruct (interpretControlPanelReply _ _). cbn [fst snd] in *. lia.
Qed.

Lemma socket_loop_config now : forall fuel chunk s mp,
  (config_callbacks (socket_loop fuel now chunk s mp).1.2
   + config_pending (socket_loop fuel now chunk s mp).1.1 <= config_pending s)%nat.
Proof.
  induction fuel as [|fuel IH]; intros chunk s mp; [cbn; lia|].
  cbn [socket_loop].
  destruct (length chunk =? 0)%nat; [cbn; lia|].
  destruct (length chunk <? 2)%nat; [cbn; lia|].
  destruct (_ <? JS.toInt _); [cbn; unfold config_pending; fields; lia|].
  assert (Hstep : forall s1 ev1 mp1,
    (config_callbacks ev1 + config_pending s1 <= config_pending s)%nat ->
    (config_callbacks
       (let '(s2, ev2, mp2) :=
          socket_loop fuel now
            (drop (Z.to_nat (JS.toInt (chunk !! 1%nat) + 2)) chunk) s1 mp1 in
        (s2, ev1 ++ ev2, mp2)).1.2
     + config_pending
         (let '(s2, ev2, mp2) :=
            socket_loop fuel now
              (drop (Z.to_nat (JS.toInt (chunk !! 1%nat) + 2)) chunk) s1 mp1 in
          (s2, ev1 ++ ev2, mp2)).1.1 <= config_pending s)%nat).
  { intros s1 ev1 mp1 H1.
    specialize (IH (drop (Z.to_nat (JS.toInt (chunk !! 1%nat) + 2)) chunk) s1 mp1).
    destruct (socket_loop fuel now _ s1 mp1) as [[s2 ev2] mp2].
    cbn [fst snd] in *. rewrite config_callbacks_app. lia. }
  destruct (_ && _); [|cbv beta iota zeta; apply Hstep; cbn; lia].
  destruct (0 <? _); [|cbv beta iota zeta; apply Hstep; cbn; lia].
  destruct (JS.neq _ _); [cbv beta iota zeta; apply Hstep; cbn; lia|].
  match goal with
  | |- context [readAndActOnMessage ?a ?b ?c ?d ?e] =>
      pose proof (readAndActOnMessage_config a b c d e) as Hm;
      destruct (readAndActOnMessage a b c d e) as [[s' ev] [[|]|error]]
  end; cbn [fst snd] in Hm; cbv beta iota zeta; [apply Hstep..|cbn [fst snd]; lia];
    rewrite ?config_callbacks_app;
    cbn [config_callbacks omap list_omap length]; lia.
Qed.

(** X15: the configuration is announced to the platform at most once over
    the life of a client: a chunk from the socket, whatever it holds, fires
    [spaConfigurationKnownCallback] at most once, and not at all for a client
    that has read its configuration, which it keeps. *)
Theorem configuration_announced_once now chunk s :
  (config_callbacks (readAndActOnSocketContents now chunk s).1.2 <= 1)%nat
  /\ (accurateConfigReadFromSpa s = true ->
      config_callbacks (readAndActOnSocketContents now chunk s).1.2 = 0%nat
      /\ accurateConfigReadFromSpa (readAndActOnSocketContents now chunk s).1.1 = true).
Proof.
  assert (H : (config_callbacks (readAndActOnSocketContents now chunk s).1.2
               + config_pending (readAndActOnSocketContents now chunk s).1.1
               <= config_pending s)%nat).
  { unfold readAndActOnSocketContents.
    destruct (lastIncompleteChunk s) as [last|]; [|apply socket_loop_config].
    destruct (lastChunkTimestamp s) as [stamp|]; [|cbn; lia].
    destruct (_ <? 1000).
    - pose proof (socket_loop_config now (length (concat last chunk)) (concat last chunk)
                    (set_lastChunkTimestamp None (set_lastIncompleteChunk None s)) 0) as H.
      exact H.
    - pose proof (socket_loop_config now (length chunk) chunk
                    (set_lastChunkTimestamp None (set_lastIncompleteChunk None s)) 0) as H.
      destruct (socket_loop _ _ _ _ _) as [[s2 ev] mp]. exact H. }
  unfold config_pending in H. split.
  - destruct (accurateConfigReadFromSpa s),
      (accurateConfigReadFromSpa (readAndActOnSocketContents now chunk s).1.1); lia.
  - intros Ha. rewrite Ha in H.
    destruct (accurateConfigReadFromSpa (readAndActOnSocketContents now chunk s).1.1);
      split; (done || lia).
Qed.

(** ** The watchdog *)

Lemma shutdownSpaConnection_post s :
  let s' := (shutdownSpaConnection s).1 in
  socket s' = None /\ isCurrentlyConnectedToSpa s' = false
  /\ faultCheckIntervalId s' = None /\ stateUpdateCheckIntervalId s' = None
  /\ reconnecting s' = reconnecting s
  /\ receivedStateUpdate s' = receivedStateUpdate s.
Proof.
  unfold shutdownSpaConnection.
  destruct (faultCheckIntervalId s) eqn:E1, (stateUpdateCheckIntervalId s) eqn:E2,
    (socket s) eqn:E3; fields; rewrite ?E1, ?E2, ?E3; fields;
    rewrite ?E1, ?E2, ?E3; fields; rewrite ?E3; fields; repeat split; done.
Qed.

Lemma on_error_post host s :
  let s' := (on_error host s).1 in
  socket s' = None /\ isCurrentlyConnectedToSpa s' = false
  /\ reconnecting s' = true /\ receivedStateUpdate s' = receivedStateUpdate s.
Proof.
  unfold on_error.
  destruct (shutdownSpaConnection_post s) as (H1 & H2 & _ & _ & H3 & H4).
  destruct (shutdownSpaConnection s) as [s1 ev1]. cbn [fst] in *.
  unfold reconnect. destruct (reconnecting s1) eqn:E; cbn [negb]; fields; done.
Qed.

(** X16: the watchdog.  Two checks in a row with no status frame between
    them: after the second the socket is gone, the client is marked as not
    connected and a reconnect is under way.  With a status frame between
    them the second check only logs the state, and keeps the socket. *)
Theorem watchdog host bytes sock s :
  socket s = Some sock ->
  (let s2 := (checkWeHaveReceivedStateUpdate host
                (checkWeHaveReceivedStateUpdate host s).1).1 in
   socket s2 = None /\ isCurrentlyConnectedToSpa s2 = false
   /\ reconnecting s2 = true)
  /\ (receivedStateUpdate s = true ->
      let s1 := (readStateFromBytes bytes (checkWeHaveReceivedStateUpdate host s).1).1 in
      checkWeHaveReceivedStateUpdate host s1
      = (set_receivedStateUpdate false s1,
         [Log LvInfo (AStr "Latest spa state" :: stateToString s1)])
      /\ socket s1 = Some sock).
Proof.
  intros Hs. split.
  - unfold checkWeHaveReceivedStateUpdate at 2.
    destruct (receivedStateUpdate s) eqn:Er.
    + cbn [fst]. unfold checkWeHaveReceivedStateUpdate. fields. rewrite Hs.
      destruct (on_error_post host (set_receivedStateUpdate false s))
        as (H1 & H2 & H3 & _).
      destruct (on_error host _) as [s2 ev]. cbn [fst] in *. done.
    + rewrite Hs.
      destruct (on_error_post host s) as (H1 & H2 & H3 & H4).
      destruct (on_error host s) as [s1 ev]. cbn [fst] in *.
      unfold checkWeHaveReceivedStateUpdate. rewrite H4, Er, H1. done.
  - intros Er. cbv zeta.
    assert (Hc : (checkWeHaveReceivedStateUpdate host s).1
                 = set_receivedStateUpdate false s).
    { unfold checkWeHaveReceivedStateUpdate. by rewrite Er. }
    rewrite Hc.
    assert (H : receivedStateUpdate
                  (readStateFromBytes bytes (set_receivedStateUpdate false s)).1 = true
                /\ socket (readStateFromBytes bytes (set_receivedStateUpdate false s)).1
                   = Some sock).
    { unfold readStateFromBytes. fields. destruct (Z.land _ 4 =? 0); fields; done. }
    destruct H as [H1 H2]. unfold checkWeHaveReceivedStateUpdate. by rewrite H1.
Qed.

Lemma watchdog_witness :
  socket (checkWeHaveReceivedStateUpdate "spa"
            (checkWeHaveReceivedStateUpdate "spa" (new_client 0)).1).1 = None.
Proof.
  apply (proj1 (watchdog "spa" [] 0%nat (new_client 0) eq_refl)).
Defined.

(** ** Lights *)

(** X17: [setLightState] presses the light button at most once: not at all
    when the light is already as asked or does not exist; for a connected
    client and a light in the other state, exactly one well-formed frame
    whose payload is the button code 0x11 + light number. *)
Theorem setLightState_presses index value s :
  (getIsLightOn index s = Some value -> setLightState index value s = [])
  /\ (getIsLightOn index s = None ->
      socket_writes (setLightState index value s) = [])
  /\ (getIsLightOn index s = Some (negb value) -> 1 <= index <= 200 ->
      is_Some (socket s) ->
      exists w, socket_writes (setLightState index value s) = [w]
                /\ wellformed_frame w = true
                /\ cipher_payload (decrypt w) = [0x11 + index]).
Proof.
  unfold getIsLightOn, setLightState. split; [|split].
  - intros H. by rewrite bool_decide_eq_true_2.
  - intros H. rewrite H. by rewrite bool_decide_eq_false_2.
  - intros H Hi [sock Hs]. rewrite H.
    rewrite bool_decide_eq_false_2 by (destruct value; discriminate).
    assert (Hu : JS.u8 (18 + (index - 1)) = 17 + index).
    { unfold JS.u8. rewrite Z.mod_small; lia. }
    rewrite Hu.
    destruct (wire_packet_valid 0x0a 0xbf 0x11 [17 + index] 0xcc)
      as (w & Hw & H1 & _ & H3); [reflexivity|cbn; lia| |].
    { constructor; [unfold is_byte; lia|constructor]. }
    exists w. unfold sendMessageToSpa, SetLightRequest. rewrite Hw, Hs. done.
Qed.

Lemma setLightState_presses_witness :
  exists w, socket_writes (setLightState 1 true (new_client 0)) = [w]
            /\ wellformed_frame w = true
            /\ cipher_payload (decrypt w) = [0x12].
Proof.
  apply (proj2 (proj2 (setLightState_presses 1 true (new_client 0))));
    [reflexivity|lia|by eexists].
Defined.

(** ** The requests of the start-up sequence *)


(** ** Helpers *)

(** X19: [mod] is the floored modulo for every positive divisor: the result
    lies in [0, m) whatever the sign of [n], where JavaScript's [%] alone
    would give a negative remainder for a negative [n]. *)
Theorem mod_floor n m :
  0 < m -> mod_ n m = n mod m /\ 0 <= mod_ n m < m.
Proof.
  intros Hm.
  assert (H : mod_ n m = n mod m).
  { unfold mod_, JS.rem.
    pose proof (Z.rem_bound_abs n m ltac:(lia)) as Hb.
    pose proof (Z.quot_rem' n m) as Hq.
    set (r := Z.rem n m) in *. set (q := n ÷ m) in *.
    assert (Hlo : - m < r < m) by lia.
    rewrite Z.rem_mod_nonneg by lia.
    replace (r + m) with (n + (1 - q) * m) by lia.
    rewrite Z_mod_plus_full. reflexivity. }
  split; [exact H|]. rewrite H. by apply Z.mod_pos_bound.
Qed.

Lemma mod_floor_witness : mod_ (-3) 64 = (-3) mod 64 /\ 0 <= mod_ (-3) 64 < 64.
Proof. apply mod_floor. lia. Defined.

(** ** Pump speeds: presses and read-back *)



(** X21: what [setPumpSpeed] sets, [getPumpSpeed] reads back: for a pump
    that exists and a speed it supports, whatever happens during the waits
    (short of the ranges changing), the override is gone afterwards and the
    speed read is the one asked for, or Low where filter mode turned a
    request for Off into one for Low. *)
Theorem getPumpSpeed_after_setPumpSpeed env index desired range s :
  index <> 0 ->
  pumpsSpeedRange s !! (index - 1) = Some range -> range <> 0 -> desired <= range ->
  (forall i s', pumpsSpeedRange (env i s') = pumpsSpeedRange s') ->
  getPumpSpeed index (setPumpSpeed env index desired s).1
  = (Some (if isFilterMode s && (index - 1 =? 1) && (desired =? 0) then 1
           else desired), []).
Proof.
  intros Hi Hr Hr0 Hd Henv. unfold setPumpSpeed. rewrite Hr.
  cbn [JS.eqn JS.gt].
  rewrite (proj2 (Z.eqb_neq range 0)) by lia.
  rewrite (proj2 (Z.ltb_ge range desired)) by lia.
  set (d := if isFilterMode s && (index - 1 =? 1) && (desired =? 0)
            then 1 else desired).
  assert (Hsplit : (if isFilterMode s && (index - 1 =? 1) && (desired =? 0)
                    then (1, [Log LvWarn (AStr "Trying to turn off"
                                          :: [AStr "Pump"; ANum (Some index)]
                                          ++ [AStr "but currently in filter mode.  Will set to low."])])
                    else (desired, []))
                   = (d, if isFilterMode s && (index - 1 =? 1) && (desired =? 0)
                         then [Log LvWarn (AStr "Trying to turn off"
                                           :: [AStr "Pump"; ANum (Some index)]
                                           ++ [AStr "but currently in filter mode.  Will set to low."])]
                         else [])).
  { subst d. by destruct (isFilterMode s && (index - 1 =? 1) && (desired =? 0)). }
  rewrite Hsplit. clear Hsplit.
  set (s0 := set_pumpsOverrideSpeed _ s).
  pose proof (press_loop_inv (fun s' => pumpsSpeedRange s' = pumpsSpeedRange s)
                env (index - 1) d [JS.u8 (index - 1 + 3)]
                ltac:(intros i s' H; cbv beta in *; by rewrite Henv)
                (Z.to_nat (JS.toInt (timesToRun (index - 1) d s0))) 0%nat s0 eq_refl)
    as Hloop.
  destruct (press_loop _ 0 env (index - 1) d _ s0) as [s1 ev]. cbn [fst] in *.
  unfold getPumpSpeed. rewrite (proj2 (Z.eqb_neq index 0)) by done.
  fields. rewrite Hloop, Hr. cbn [JS.eqn].
  rewrite (proj2 (Z.eqb_neq range 0)) by lia.
  rewrite !lookup_insert. rewrite !decide_True by done. cbn [JS.eqn].
  reflexivity.
Qed.

Lemma getPumpSpeed_after_setPumpSpeed_witness :
  getPumpSpeed 2 (setPumpSpeed (fun _ s => s) 2 2 (new_client 0)).1 = (Some 2, []).
Proof.
  apply (getPumpSpeed_after_setPumpSpeed (fun _ s => s) 2 2 2 (new_client 0));
    [lia|reflexivity|lia|lia|reflexivity].
Defined.

(** ** The temperature loop against a spa that follows *)





(** ** The temperature loop against a spa that does not answer *)

Section Unanswered.

Variable env : nat -> SpaClient -> SpaClient.

(** Nothing the loop looks at moves during the waits. *)
Hypothesis env_silent : forall i s,
  targetTempModeLow (env i s) = targetTempModeLow s
  /\ targetTempModeHigh (env i s) = targetTempModeHigh s
  /\ tempChangeMode (env i s) = tempChangeMode s.




End Unanswered.



(** ** Shutting down *)

(** X24: [shutdownSpaConnection] leaves the client without socket, without
    timers of its own and marked as not connected; a second call finds
    nothing to do: it logs its line and ends nothing, clears nothing and
    changes nothing. *)
Theorem shutdownSpaConnection_twice s :
  let s' := (shutdownSpaConnection s).1 in
  socket s' = None /\ isCurrentlyConnectedToSpa s' = false
  /\ faultCheckIntervalId s' = None /\ stateUpdateCheckIntervalId s' = None
  /\ shutdownSpaConnection s' = (s', [Log LvDebug [AStr "Shutting down Spa socket"]]).
Proof.
  cbv zeta.
  destruct (shutdownSpaConnection_post s) as (H1 & H2 & H3 & H4 & _).
  repeat split; try done.
  set (s' := (shutdownSpaConnection s).1) in *.
  unfold shutdownSpaConnection at 1. fields. rewrite H3. fields. rewrite H4.
  fields. rewrite H1. cbn [app].
  apply (f_equal2 pair); [|reflexivity]. apply client_eq; fields; try reflexivity.
  by rewrite H2.
Qed.

(** ** Speed names *)

(** X25: for a pump of one, two or three speeds, every speed from 0 to the
    range has a name: 0 is "Off" and the top speed is "High"; a speed outside
    of that, or any speed for another range, has none. *)
Theorem getSpeedAsString_names range speed :
  (1 <= range <= 3 ->
   getSpeedAsString (Some range) (Some 0) = Some "Off"%string
   /\ getSpeedAsString (Some range) (Some range) = Some "High"%string
   /\ (0 <= speed <= range -> is_Some (getSpeedAsString (Some range) (Some speed))))
  /\ (~ (1 <= range <= 3 /\ 0 <= speed <= range) ->
      getSpeedAsString (Some range) (Some speed) = None).
Proof.
  split.
  - intros Hr. assert (range = 1 \/ range = 2 \/ range = 3) as [-> | [-> | ->]] by lia.
    all: split; [reflexivity|split; [reflexivity|]]; intros Hs.
    + assert (speed = 0 \/ speed = 1) as [-> | ->] by lia; by eexists.
    + assert (speed = 0 \/ speed = 1 \/ speed = 2) as [-> | [-> | ->]] by lia; by eexists.
    + assert (speed = 0 \/ speed = 1 \/ speed = 2 \/ speed = 3)
        as [-> | [-> | [-> | ->]]] by lia; by eexists.
  - intros Hn. unfold getSpeedAsString. cbn [JS.eqn].
    destruct (range =? 1) eqn:E1; [|destruct (range =? 2) eqn:E2;
                                     [|destruct (range =? 3) eqn:E3; [|done]]].
    all: cbn [mbind option_bind].
    all: destruct (speed <? 0) eqn:Es; [done|].
    all: apply lookup_ge_None_2; cbn [length]; lia.
Qed.

(** ** A burst of errors of any length *)

Lemma socket_error_burst host t1 c0 t w :
  burst_inv host t1 c0 w -> clock w <= t -> t1 <= t < t1 + 20000 ->
  burst_inv host t1 c0 (socket_error host t w) /\ clock (socket_error host t w) = t.
Proof.
  intros [Hg Hb] Hc Ht.
  destruct (socket_error_step host t w Hc Hg) as (Hg' & Hc' & Hr' & Hs).
  split; [|exact Hc']. split; [exact Hg'|].
  destruct Hb as [Hn|(Hn & Hr & t0 & Ht0 & Htm)].
  - destruct Hs as [(_ & _ & Hn')|(_ & Htm' & Hn')]; [left; lia|].
    right. repeat split; [lia|done|]. exists t. split; [lia|done].
  - pose proof (scheduled_then_quiet host t0 t w Hr Htm ltac:(lia)) as Hq.
    destruct Hs as [(_ & Htm' & Hn')|(Hnq & _)]; [|contradiction].
    right. repeat split; [lia|done|]. exists t0. split; [done|]. by rewrite Htm'.
Qed.

Lemma socket_errors_burst host t1 c0 : forall ts w,
  burst_inv host t1 c0 w ->
  Sorted Z.le ts -> Forall (fun t => clock w <= t /\ t1 <= t < t1 + 20000) ts ->
  burst_inv host t1 c0 (socket_errors host ts w).
Proof.
  induction ts as [|t ts IH]; intros w Hb Hs Hf; [done|].
  cbn [socket_errors foldl]. inversion Hs as [|? ? Hs' Hhd]; subst.
  inversion Hf as [|? ? [Hc Ht] Hf']; subst.
  destruct (socket_error_burst host t1 c0 t w Hb Hc Ht) as [Hb' Hc'].
  apply IH; [exact Hb'|exact Hs'|].
  rewrite Hc'. apply Sorted_StronglySorted in Hs; [|intros ? ? ?; lia].
  inversion Hs as [|? ? _ Hall]; subst.
  rewrite Forall_forall in Hall, Hf' |- *. intros x Hx.
  destruct (Hf' x Hx) as [_ Hx2]. split; [|done]. by apply Hall.
Qed.

(** X26: the reconnect guard for a burst of any length: from a world where
    guard and timers agree, socket errors at increasing times within 20
    seconds of the first schedule at most one reconnect between them, and at
    most one reconnect is waiting afterwards. *)
Theorem burst_of_errors_one_reconnect host t1 ts w :
  guard_inv w -> clock w <= t1 -> Sorted Z.le (t1 :: ts) ->
  Forall (fun t => t < t1 + 20000) ts ->
  (scheduled_reconnects (trace (socket_errors host (t1 :: ts) w))
   <= scheduled_reconnects (trace w) + 1)%nat
  /\ (length (timers (socket_errors host (t1 :: ts) w)) <= 1)%nat.
Proof.
  intros Hg Hc Hs Hf.
  assert (Hall : Forall (fun t => clock w <= t /\ t1 <= t < t1 + 20000) (t1 :: ts)).
  { apply Sorted_StronglySorted in Hs; [|intros ? ? ?; lia].
    inversion Hs as [|? ? _ Hle]; subst. constructor; [lia|].
    rewrite Forall_forall in Hle, Hf |- *. intros x Hx.
    specialize (Hf x Hx). specialize (Hle x Hx). lia. }
  destruct (socket_errors_burst host t1 (scheduled_reconnects (trace w)) (t1 :: ts) w)
    as [Hg' Hb]; [split; [done|by left]|done|done|].
  split.
  - destruct Hb as [->|[-> _]]; lia.
  - unfold guard_inv in Hg'.
    destruct (reconnecting (client (socket_errors host (t1 :: ts) w))); [exact Hg'|].
    rewrite Hg'. cbn. lia.
Qed.

Lemma burst_of_errors_one_reconnect_witness :
  (scheduled_reconnects
     (trace (socket_errors "spa" burst_times (initial_world 0)))
   <= scheduled_reconnects (trace (initial_world 0)) + 1)%nat
  /\ (length (timers (socket_errors "spa" burst_times (initial_world 0))) <= 1)%nat.
Proof.
  apply (burst_of_errors_one_reconnect "spa" 1000 [2000; 3000; 4000; 20999]).
  - reflexivity.
  - cbn. lia.
  - repeat constructor; lia.
  - repeat constructor; lia.
Defined.

(** ** Platform: replaying recorded actions *)

Lemma replayed_app {Action : Type} (l1 l2 : list (PlatformLog Action)) :
  replayed (l1 ++ l2) = replayed l1 ++ replayed l2.
Proof. apply omap_app. Qed.

(** X27: [executeAllRecordedActions] replays the recorded actions in the
    order they were recorded, for as long as the spa is connected: when the
    actions themselves leave the queue alone (and log no replay of their
    own), a prefix of the queue has been replayed, in order, what is left of
    the queue is still queued, in order, and something is left only if the
    connection is gone; [recordAction] puts an action at the end of the
    queue. *)
Theorem executeAllRecordedActions_fifo {Action : Type}
    (call : Action -> Platform Action -> Platform Action) fuel p :
  (forall a q, recordedActions (call a q) = recordedActions q
               /\ replayed (platformLog (call a q)) = replayed (platformLog q)) ->
  (length (recordedActions p) <= fuel)%nat ->
  (exists k,
      replayed (platformLog (executeAllRecordedActions call fuel p))
      = replayed (platformLog p) ++ take k (recordedActions p)
      /\ recordedActions (executeAllRecordedActions call fuel p)
         = drop k (recordedActions p)
      /\ (k = length (recordedActions p)
          \/ isCurrentlyConnected (executeAllRecordedActions call fuel p) = false))
  /\ (forall a, recordedActions (recordAction a p) = recordedActions p ++ [a]).
Proof.
  intros Hcall Hfuel. split; [|done].
  revert p Hfuel. induction fuel as [|fuel IH]; intros p Hfuel.
  - exists 0%nat. cbn. rewrite app_nil_r. repeat split; try done.
    left. destruct (recordedActions p); [done|cbn in Hfuel; lia].
  - cbn [executeAllRecordedActions].
    destruct (isCurrentlyConnected p) eqn:Ec.
    + destruct (recordedActions p) as [|a rest] eqn:Eq.
      * exists 0%nat. cbn. rewrite Eq, app_nil_r. repeat split; try done. by left.
      * set (p1 := call a _).
        destruct (Hcall a {| spa := spa p; recordedActions := rest;
                            platformLog := platformLog p ++ [ReplayingAction a] |})
          as [Hq Hl].
        fold p1 in Hq, Hl. cbn [recordedActions platformLog] in Hq, Hl.
        rewrite replayed_app in Hl.
        destruct (IH p1 ltac:(rewrite Hq; cbn in Hfuel; lia)) as (k & H1 & H2 & H3).
        exists (S k). rewrite H1, H2, Hq, Hl. cbn [take drop length].
        rewrite <- app_assoc. repeat split; try done.
        destruct H3 as [->|H3]; [left; by rewrite Hq|by right].
    + exists 0%nat. cbn. rewrite app_nil_r. repeat split; try done. by right.
Qed.

Lemma executeAllRecordedActions_fifo_witness :
  exists k,
    replayed
      (platformLog
         (executeAllRecordedActions (fun (_ : nat) q => q) 3
            {| spa := Some (set_isCurrentlyConnectedToSpa true (new_client 0));
               recordedActions := [1; 2; 3]%nat; platformLog := [] |}))
    = replayed [] ++ take k [1; 2; 3]%nat
    /\ recordedActions
         (executeAllRecordedActions (fun (_ : nat) q => q) 3
            {| spa := Some (set_isCurrentlyConnectedToSpa true (new_client 0));
               recordedActions := [1; 2; 3]%nat; platformLog := [] |})
       = drop k [1; 2; 3]%nat
    /\ (k = length [1; 2; 3]%nat
        \/ isCurrentlyConnected
             (executeAllRecordedActions (fun (_ : nat) q => q) 3
                {| spa := Some (set_isCurrentlyConnectedToSpa true (new_client 0));
                   recordedActions := [1; 2; 3]%nat; platformLog := [] |}) = false).
Proof.
  apply (proj1 (executeAllRecordedActions_fifo (fun (_ : nat) q => q) 3
                  {| spa := Some (set_isCurrentlyConnectedToSpa true (new_client 0));
                     recordedActions := [1; 2; 3]%nat; platformLog := [] |}
                  ltac:(done) ltac:(cbn; lia))).
Defined.
